(** * Casus chat worker and its browser client: a shallow embedding

    The worker (TypeScript) answers [/help] and [/roll] commands locally,
    inserts the Casus persona into the message list, and streams replies as
    Server-Sent Events.  The browser client (chat.js) reassembles the event
    stream from network chunks.

    JavaScript strings are sequences of UTF-16 code units; they are modelled
    as lists of integers.  Numbers are IEEE-754 doubles; the only numbers the
    worker manipulates are integers (or infinities) obtained from decimal
    digits, so they are modelled as integers together with the rounding to
    the nearest double written out.

    [sendMessage] is asynchronous: it is modelled by what it does up to its
    first [await] and by what it does once the stream has ended, the chat
    state of the page being a transition system over these steps and the
    clearing of the chat.  The page itself (the DOM) is left out. *)

From Stdlib Require Import ZArith List Lia String Ascii Bool Arith.
Import ListNotations.
Local Open Scope Z_scope.

(* ================================================================== *)
(** ** Strings as code-unit sequences *)
(* ================================================================== *)

Definition jsstring := list Z.

Definition isCodeUnit (c : Z) : Prop := 0 <= c < 65536.

Definition isHighSurrogate (c : Z) : bool := (0xD800 <=? c) && (c <=? 0xDBFF).
Definition isLowSurrogate (c : Z) : bool := (0xDC00 <=? c) && (c <=? 0xDFFF).

(* ------------------------------------------------------------------ *)
(** *** UTF-8, as the Encoding Standard defines TextEncoder and TextDecoder *)

(** The decoder's variables: code point, bytes seen, bytes needed, lower and
    upper boundary. *)
Record Utf8State := mkUtf8State {
  u_cp : Z; u_seen : Z; u_needed : Z; u_lower : Z; u_upper : Z }.

Definition utf8_init : Utf8State := mkUtf8State 0 0 0 0x80 0xBF.

(** A byte read while no sequence is pending.  [b land 0x1F] is written
    [b mod 32], and so on. *)
Definition utf8_lead (b : Z) : Utf8State * list Z :=
  if (0 <=? b) && (b <=? 0x7F) then (utf8_init, [b])
  else if (0xC2 <=? b) && (b <=? 0xDF) then
    (mkUtf8State (b mod 32) 0 1 0x80 0xBF, [])
  else if (0xE0 <=? b) && (b <=? 0xEF) then
    (mkUtf8State (b mod 16) 0 2
       (if b =? 0xE0 then 0xA0 else 0x80)
       (if b =? 0xED then 0x9F else 0xBF), [])
  else if (0xF0 <=? b) && (b <=? 0xF4) then
    (mkUtf8State (b mod 8) 0 3
       (if b =? 0xF0 then 0x90 else 0x80)
       (if b =? 0xF4 then 0x8F else 0xBF), [])
  else (utf8_init, [0xFFFD]).

(** One byte through the decoder, in replacement error mode: the state after
    it and the code points emitted.  A byte outside the boundaries ends the
    pending sequence with U+FFFD and is read again as a lead byte. *)
Definition utf8_step (st : Utf8State) (b : Z) : Utf8State * list Z :=
  if u_needed st =? 0 then utf8_lead b
  else if (u_lower st <=? b) && (b <=? u_upper st) then
    let cp := u_cp st * 64 + b mod 64 in
    if u_seen st + 1 =? u_needed st then (utf8_init, [cp])
    else (mkUtf8State cp (u_seen st + 1) (u_needed st) 0x80 0xBF, [])
  else
    let '(st', out) := utf8_lead b in (st', 0xFFFD :: out).

Fixpoint utf8_run (st : Utf8State) (bytes : list Z) : Utf8State * list Z :=
  match bytes with
  | [] => (st, [])
  | b :: rest =>
      let '(st1, out1) := utf8_step st b in
      let '(st2, out2) := utf8_run st1 rest in
      (st2, out1 ++ out2)
  end.

(** A code point as UTF-16 code units. *)
Definition utf16_of_cp (cp : Z) : jsstring :=
  if cp <? 0x10000 then [cp]
  else [0xD800 + (cp - 0x10000) / 1024; 0xDC00 + (cp - 0x10000) mod 1024].

(** [new TextDecoder()]: UTF-8, replacement mode, a leading byte order mark
    is dropped. *)
Record TextDecoder := mkTextDecoder { td_state : Utf8State; td_bomSeen : bool }.

Definition TextDecoder_new : TextDecoder := mkTextDecoder utf8_init false.

Definition stripBOM (seen : bool) (cps : list Z) : bool * list Z :=
  if seen then (true, cps)
  else match cps with
       | [] => (false, [])
       | c :: rest => (true, if c =? 0xFEFF then rest else cps)
       end.

(** [decoder.decode(value, { stream: true })]: pending bytes stay in the
    decoder for the next call. *)
Definition TextDecoder_decode_stream (d : TextDecoder) (value : list Z)
  : TextDecoder * jsstring :=
  let '(st, cps) := utf8_run (td_state d) value in
  let '(seen, cps') := stripBOM (td_bomSeen d) cps in
  (mkTextDecoder st seen, flat_map utf16_of_cp cps').

(** Conversion to scalar values ([USVString]): a surrogate pair is one code
    point, a lone surrogate becomes U+FFFD. *)
Fixpoint toScalarValues (s : jsstring) : list Z :=
  match s with
  | [] => []
  | c :: rest =>
      if isHighSurrogate c then
        match rest with
        | d :: rest' =>
            if isLowSurrogate d
            then (0x10000 + (c - 0xD800) * 1024 + (d - 0xDC00)) :: toScalarValues rest'
            else 0xFFFD :: toScalarValues rest
        | [] => [0xFFFD]
        end
      else if isLowSurrogate c then 0xFFFD :: toScalarValues rest
      else c :: toScalarValues rest
  end.

Definition utf8_encode_cp (cp : Z) : list Z :=
  if cp <? 0x80 then [cp]
  else if cp <? 0x800 then [0xC0 + cp / 64; 0x80 + cp mod 64]
  else if cp <? 0x10000 then
    [0xE0 + cp / 4096; 0x80 + cp / 64 mod 64; 0x80 + cp mod 64]
  else [0xF0 + cp / 262144; 0x80 + cp / 4096 mod 64;
        0x80 + cp / 64 mod 64; 0x80 + cp mod 64].

(** [new TextEncoder().encode(s)]. *)
Definition TextEncoder_encode (s : jsstring) : list Z :=
  flat_map utf8_encode_cp (toScalarValues s).

(** String literals of the sources are written as Rocq strings (UTF-8 bytes)
    and read back as code units. *)
Definition bytes_of_string (s : string) : list Z :=
  List.map (fun a => Z.of_N (N_of_ascii a)) (list_ascii_of_string s).

Definition lit (s : string) : jsstring :=
  flat_map utf16_of_cp (snd (utf8_run utf8_init (bytes_of_string s))).

(* ------------------------------------------------------------------ *)
(** *** String primitives *)

Fixpoint str_eqb (a b : jsstring) : bool :=
  match a, b with
  | [], [] => true
  | x :: a', y :: b' => (x =? y) && str_eqb a' b'
  | _, _ => false
  end.

(** [s.startsWith(p)] *)
Fixpoint startsWith (s p : jsstring) {struct p} : bool :=
  match p, s with
  | [], _ => true
  | x :: p', y :: s' => (x =? y) && startsWith s' p'
  | _ :: _, [] => false
  end.

(** [s.indexOf(pat)], [-1] when absent. *)
Fixpoint indexOf_from (i : Z) (s pat : jsstring) : Z :=
  if startsWith s pat then i
  else match s with
       | [] => -1
       | _ :: s' => indexOf_from (i + 1) s' pat
       end.

Definition indexOf (s pat : jsstring) : Z := indexOf_from 0 s pat.

(** [s.includes(pat)] *)
Definition includes (s pat : jsstring) : bool := negb (indexOf s pat =? -1).

(** [s.slice(start)] and [s.slice(0, end)] for non-negative indices. *)
Definition slice_from (s : jsstring) (start : Z) : jsstring := skipn (Z.to_nat start) s.
Definition slice_to (s : jsstring) (stop : Z) : jsstring := firstn (Z.to_nat stop) s.

(** [parts.join(sep)] *)
Fixpoint join (sep : jsstring) (parts : list jsstring) : jsstring :=
  match parts with
  | [] => []
  | [p] => p
  | p :: rest => p ++ sep ++ join sep rest
  end.

Definition consHead (c : Z) (parts : list jsstring) : list jsstring :=
  match parts with
  | [] => [[c]]
  | p :: rest => (c :: p) :: rest
  end.

(** [s.split(sep)] for a one-character separator. *)
Fixpoint split_char (sep : Z) (s : jsstring) : list jsstring :=
  match s with
  | [] => [[]]
  | c :: s' => if c =? sep then [] :: split_char sep s'
               else consHead c (split_char sep s')
  end.

(** White space and line terminators of ECMAScript: what [trim], [trimStart]
    and the regular expression class [\s] recognise. *)
Definition isWhiteSpace (c : Z) : bool :=
  ((0x09 <=? c) && (c <=? 0x0D)) || (c =? 0x20) || (c =? 0xA0) || (c =? 0x1680)
  || ((0x2000 <=? c) && (c <=? 0x200A)) || (c =? 0x2028) || (c =? 0x2029)
  || (c =? 0x202F) || (c =? 0x205F) || (c =? 0x3000) || (c =? 0xFEFF).

Fixpoint trimStart (s : jsstring) : jsstring :=
  match s with
  | [] => []
  | c :: s' => if isWhiteSpace c then trimStart s' else s
  end.

Definition trimEnd (s : jsstring) : jsstring := rev (trimStart (rev s)).

Definition trim (s : jsstring) : jsstring := trimEnd (trimStart s).

(** [s.split(/\s+/)]: the pieces between maximal runs of white space. *)
Fixpoint split_ws_go (skipping : bool) (s : jsstring) : list jsstring :=
  match s with
  | [] => [[]]
  | c :: s' =>
      if isWhiteSpace c then
        (if skipping then split_ws_go true s' else [] :: split_ws_go true s')
      else consHead c (split_ws_go false s')
  end.

Definition split_ws (s : jsstring) : list jsstring := split_ws_go false s.

Definition isDigit (c : Z) : bool := (0x30 <=? c) && (c <=? 0x39).

Definition isAsciiUpper (c : Z) : bool := (0x41 <=? c) && (c <=? 0x5A).
Definition isAsciiLower (c : Z) : bool := (0x61 <=? c) && (c <=? 0x7A).

(** The class [\w] that [\b] is defined from. *)
Definition isWordChar (c : Z) : bool :=
  isAsciiUpper c || isAsciiLower c || isDigit c || (c =? 0x5F).

Definition asciiLower (c : Z) : Z := if isAsciiUpper c then c + 32 else c.

(** Literal match under the [i] flag of a pattern made of ASCII characters:
    an input character matches when it is the pattern's letter in either
    case (a character above U+007F never canonicalizes to an ASCII one). *)
Fixpoint startsWith_ci (s p : jsstring) {struct p} : bool :=
  match p, s with
  | [], _ => true
  | x :: p', y :: s' => (asciiLower x =? asciiLower y) && startsWith_ci s' p'
  | _ :: _, [] => false
  end.

Fixpoint takeWhile (f : Z -> bool) (s : jsstring) : jsstring :=
  match s with
  | [] => []
  | c :: s' => if f c then c :: takeWhile f s' else []
  end.

Fixpoint dropWhile (f : Z -> bool) (s : jsstring) : jsstring :=
  match s with
  | [] => []
  | c :: s' => if f c then dropWhile f s' else s
  end.

Definition isEmpty (s : jsstring) : bool :=
  match s with [] => true | _ :: _ => false end.

(** [/\bWORD\b/.test(s)] for a word made of word characters: an occurrence
    with no word character right before it and none right after. *)
Fixpoint testWord_go (w : jsstring) (prevIsWord : bool) (s : jsstring) : bool :=
  match s with
  | [] => false
  | c :: s' =>
      (negb prevIsWord && startsWith s w
       && match skipn (List.length w) s with
          | [] => true
          | c' :: _ => negb (isWordChar c')
          end)
      || testWord_go w (isWordChar c) s'
  end.

Definition testWord (w s : jsstring) : bool := testWord_go w false s.

(* ------------------------------------------------------------------ *)
(** *** Numbers *)

(** The doubles that occur are integers or infinities.  Negative zero is
    identified with zero: it compares equal to it, adds like it, and the
    worker prints no modifier that is equal to zero. *)
Inductive number :=
| Finite (v : Z)
| Infinite (negative : bool).

(** The double nearest to an integer, ties to even: 53 significant bits,
    and infinity from [2^1024 - 2^970] on. *)
Definition roundToDouble (v : Z) : number :=
  let a := Z.abs v in
  if a <? 2 ^ 53 then Finite v
  else
    let e := Z.log2 a - 52 in
    let q := a / 2 ^ e in
    let r := a mod 2 ^ e in
    let half := 2 ^ (e - 1) in
    let q' := if r <? half then q
              else if half <? r then q + 1
              else if Z.even q then q else q + 1 in
    let m := q' * 2 ^ e in
    if 2 ^ 1024 <=? m then Infinite (v <? 0) else Finite (Z.sgn v * m).

Fixpoint digitsValue_go (acc : Z) (ds : jsstring) : Z :=
  match ds with
  | [] => acc
  | d :: ds' => digitsValue_go (acc * 10 + (d - 0x30)) ds'
  end.

(** The mathematical value of a run of decimal digits. *)
Definition digitsValue (ds : jsstring) : Z := digitsValue_go 0 ds.

(** [Number(s)] for [s] matching [\d+]. *)
Definition Number_digits (s : jsstring) : number := roundToDouble (digitsValue s).

(** [Number(s)] for [s] matching [[+-]\d+]. *)
Definition Number_signed (s : jsstring) : number :=
  match s with
  | [] => Finite 0
  | sign :: ds =>
      if sign =? 0x2D then roundToDouble (- digitsValue ds)
      else roundToDouble (digitsValue ds)
  end.

Definition isFinite (x : number) : bool :=
  match x with Finite _ => true | Infinite _ => false end.

Fixpoint uint_digits (u : Decimal.uint) : jsstring :=
  match u with
  | Decimal.Nil => []
  | Decimal.D0 r => 0x30 :: uint_digits r
  | Decimal.D1 r => 0x31 :: uint_digits r
  | Decimal.D2 r => 0x32 :: uint_digits r
  | Decimal.D3 r => 0x33 :: uint_digits r
  | Decimal.D4 r => 0x34 :: uint_digits r
  | Decimal.D5 r => 0x35 :: uint_digits r
  | Decimal.D6 r => 0x36 :: uint_digits r
  | Decimal.D7 r => 0x37 :: uint_digits r
  | Decimal.D8 r => 0x38 :: uint_digits r
  | Decimal.D9 r => 0x39 :: uint_digits r
  end.

(** Decimal digits of a non-negative integer. *)
Definition decimalOf (v : Z) : jsstring := uint_digits (N.to_uint (Z.to_N v)).

(* ================================================================== *)
(** ** The worker *)
(* ================================================================== *)

(** [crypto.getRandomValues] is an oracle: the values it will hand out, in
    order.  A call returns with the rest of the oracle, throws, or is still
    in its loop when the known part of the oracle is used up. *)
Inductive outcome (A : Type) :=
| Returns (a : A) (src : list Z)
| Throws (message : jsstring)
| Starved.

Arguments Returns {A} a src.
Arguments Throws {A} message.
Arguments Starved {A}.

(** The dice grammar in the specification's words: an optional dice count,
    the letter d (either case), a face count, and an optional signed
    modifier; counts and modifier are runs of decimal digits. *)
Definition isDigits (s : jsstring) : Prop := Forall (fun c => isDigit c = true) s.

Inductive DiceExpr : jsstring -> jsstring -> jsstring -> option jsstring -> Prop :=
| DiceExpr_plain (count faces : jsstring) (d : Z) :
    isDigits count -> asciiLower d = 0x64 -> isDigits faces -> faces <> [] ->
    DiceExpr (count ++ d :: faces) count faces None
| DiceExpr_modifier (count faces digits : jsstring) (d sign : Z) :
    isDigits count -> asciiLower d = 0x64 -> isDigits faces -> faces <> [] ->
    sign = 0x2B \/ sign = 0x2D -> isDigits digits -> digits <> [] ->
    DiceExpr (count ++ d :: faces ++ sign :: digits) count faces (Some (sign :: digits)).

(** What the embedding takes from the platform without modelling it:
    - the Unicode lower-case mapping of the characters above U+007F
      ([toLowerCase] maps an ASCII character to its ASCII lower case whatever
      surrounds it; [lowerNonAscii s i] is what the character at index [i] of
      [s] contributes otherwise);
    - the text of a double beyond [2^53] in magnitude (shortest round-trip
      digits, exponent notation from [1e21] on). *)
Section Worker.

Variable lowerNonAscii : jsstring -> nat -> jsstring.
Variable formatUnsafe : Z -> jsstring.

Fixpoint toLowerCase_go (whole : jsstring) (i : nat) (s : jsstring) : jsstring :=
  match s with
  | [] => []
  | c :: s' =>
      (if (0 <=? c) && (c <? 128) then [asciiLower c] else lowerNonAscii whole i)
      ++ toLowerCase_go whole (S i) s'
  end.

(** [s.toLowerCase()] *)
Definition toLowerCase (s : jsstring) : jsstring := toLowerCase_go s 0%nat s.

(** [String(x)], as template literals apply it to a number. *)
Definition Number_toString (x : number) : jsstring :=
  match x with
  | Infinite false => lit "Infinity"
  | Infinite true => lit "-Infinity"
  | Finite v =>
      if Z.abs v <=? 2 ^ 53 then
        (if v <? 0 then 0x2D :: decimalOf (- v) else decimalOf v)
      else formatUnsafe v
  end.

(** Addition of two doubles holding integers: the exact sum, rounded. *)
Definition number_add (x y : number) : number :=
  match x, y with
  | Finite a, Finite b => roundToDouble (a + b)
  | Infinite s, _ => Infinite s
  | _, Infinite s => Infinite s
  end.

(* ------------------------------------------------------------------ *)
(** *** Data model *)

Inductive Role := system | user | assistant.

Definition Role_eqb (a b : Role) : bool :=
  match a, b with
  | system, system | user, user | assistant, assistant => true
  | _, _ => false
  end.

Record ChatMessage := mkChatMessage { role : Role; content : jsstring }.

Record CasusProfile := mkCasusProfile {
  mode : option jsstring;
  univers : option jsstring;
  style : option jsstring }.

Definition SYSTEM_PROMPT : jsstring :=
  join (lit "
") [
    lit "Tu es Casus, un assistant de jeu de rôle (JdR) en français.";
    lit "Ton but: aider à créer des aventures, PNJ, intrigues, ambiances, règles maison, scènes, et à maîtriser des parties.";
    lit "Style: clair, vivant, concret, orienté action; propose des options; pose 1–3 questions quand une info manque.";
    lit "Ne révèle pas d'infos non demandées. Évite les pavés: utilise des listes courtes et des titres.";
    lit "Sécurité: pas de contenu illégal; si un sujet est sensible, recentre vers une alternative sûre."
  ].

(* ------------------------------------------------------------------ *)
(** *** The random source and what a call can do *)

Definition maxUint32 : Z := 0xffffffff.

(** The [while (true)] of [randIntInclusive]; [buf[0]] holds the oracle's
    value as an unsigned 32-bit integer. *)
Fixpoint rejectionLoop (lo range limit : Z) (src : list Z) : outcome Z :=
  match src with
  | [] => Starved
  | r :: src' =>
      let x := r mod 2 ^ 32 in
      if x <? limit then Returns (lo + x mod range) src'
      else rejectionLoop lo range limit src'
  end.

(** [randIntInclusive(min, max)] for integer bounds ([Math.ceil] and
    [Math.floor] are the identity on them). *)
Definition randIntInclusive (min max : Z) (src : list Z) : outcome Z :=
  let lo := min in
  let hi := max in
  if hi <? lo then Throws (lit "Invalid random range")
  else
    let range := hi - lo + 1 in
    let limit := maxUint32 - maxUint32 mod range in
    rejectionLoop lo range limit src.

(** The draws [randIntInclusive(1, faces)] accepts. *)
Definition accepts (faces : Z) (x : Z) : bool :=
  x mod 2 ^ 32 <? maxUint32 - maxUint32 mod faces.

(** The value it returns for an accepted draw. *)
Definition face (faces : Z) (x : Z) : Z := 1 + (x mod 2 ^ 32) mod faces.

(** Enough randomness for any validated roll: fifty draws that every die
    accepts. *)
Definition plentiful (src : list Z) : Prop :=
  (50 <= List.length (filter (fun x => (x mod 2 ^ 32 <? 2 ^ 32 - 1000)%Z) src))%nat.

(* ------------------------------------------------------------------ *)
(** *** rollDiceCommand *)

Definition MSG_USAGE : jsstring :=
  lit "Utilisation: `/roll NdM+K` (ex: `/roll 2d6+1`, `/roll d20`, `/roll 1d20 adv`).".
Definition MSG_FORMAT : jsstring :=
  lit "Format invalide. Exemple: `/roll 2d6+1` ou `/roll d20`.".
Definition MSG_INVALID : jsstring := lit "Expression de dé invalide.".
Definition MSG_COUNT_RANGE : jsstring := lit "Nombre de dés hors limite (1–50).".
Definition MSG_FACES_RANGE : jsstring := lit "Nombre de faces hors limite (2–1000).".
Definition MSG_ADV_UNSUPPORTED : jsstring :=
  lit "Le mode `adv`/`dis` est supporté uniquement pour `/roll 1d20 adv` ou `/roll 1d20 dis`.".

(** [expr.match(...)] against the dice pattern, anchored at both ends and
    case-insensitive: an optional run of digits (group 1), the letter d, a
    run of at least one digit (group 2), and optionally a sign followed by
    at least one digit (group 3).  The digit class, the letter and the signs
    are disjoint, so the greedy match is the only one. *)
Definition matchDiceExpr (expr : jsstring)
  : option (jsstring * jsstring * option jsstring) :=
  let g1 := takeWhile isDigit expr in
  match dropWhile isDigit expr with
  | [] => None
  | d :: r2 =>
      if asciiLower d =? 0x64 then
        let g2 := takeWhile isDigit r2 in
        if isEmpty g2 then None
        else match dropWhile isDigit r2 with
             | [] => Some (g1, g2, None)
             | sign :: r4 =>
                 if (sign =? 0x2B) || (sign =? 0x2D) then
                   let g3 := takeWhile isDigit r4 in
                   if negb (isEmpty g3) && isEmpty (dropWhile isDigit r4)
                   then Some (g1, g2, Some (sign :: g3))
                   else None
                 else None
             end
      else None
  end.

(** [for (let i = 0; i < n; i++) rolls.push(randIntInclusive(1, faces))] *)
Fixpoint rollMany (n : nat) (faces : Z) (src : list Z) : outcome (list Z) :=
  match n with
  | O => Returns [] src
  | S k =>
      match randIntInclusive 1 faces src with
      | Returns v src1 =>
          match rollMany k faces src1 with
          | Returns vs src2 => Returns (v :: vs) src2
          | Throws m => Throws m
          | Starved => Starved
          end
      | Throws m => Throws m
      | Starved => Starved
      end
  end.

(** [mod === 0 ? "" : mod > 0 ? `+${mod}` : `${mod}`] *)
Definition modStr (md : Z) : jsstring :=
  if md =? 0 then []
  else if 0 <? md then 0x2B :: Number_toString (Finite md)
  else Number_toString (Finite md).

(** [mod !== 0 ? ` (${modStr})` : ""] *)
Definition modNote (md : Z) : jsstring :=
  if md =? 0 then [] else lit " (" ++ modStr md ++ lit ")".

(** The text returned for a roll with advantage or disadvantage: the
    header, the two throws with the one kept, the total. *)
Definition advRollText (wantAdv : bool) (a b md : Z) : jsstring :=
  let kept := if wantAdv then Z.max a b else Z.min a b in
  let total := number_add (Finite kept) (Finite md) in
  join (lit "
") [
    lit "🎲 /roll 1d20 " ++ (if wantAdv then lit "adv" else lit "dis") ++ modStr md;
    lit "Jets: " ++ Number_toString (Finite a) ++ lit ", "
      ++ Number_toString (Finite b) ++ lit " → gardé: "
      ++ Number_toString (Finite kept) ++ modNote md;
    lit "Total: " ++ Number_toString total ].

(** The text returned for a plain roll: the header, the throws, the total. *)
Definition rollText (n faces md : Z) (rolls : list Z) : jsstring :=
  let sum := fold_left Z.add rolls 0 in
  let total := number_add (Finite sum) (Finite md) in
  join (lit "
") [
    lit "🎲 /roll " ++ Number_toString (Finite n) ++ lit "d"
      ++ Number_toString (Finite faces) ++ modStr md;
    lit "Jets: "
      ++ join (lit ", ") (List.map (fun v => Number_toString (Finite v)) rolls)
      ++ modNote md;
    lit "Total: " ++ Number_toString total ].

(** The branch of [rollDiceCommand] that throws a d20 twice. *)
Definition rollAdvantage (wantAdv : bool) (md : Z) (src : list Z) : outcome jsstring :=
  match randIntInclusive 1 20 src with
  | Returns a src1 =>
      match randIntInclusive 1 20 src1 with
      | Returns b src2 => Returns (advRollText wantAdv a b md) src2
      | Throws m => Throws m
      | Starved => Starved
      end
  | Throws m => Throws m
  | Starved => Starved
  end.

(** The branch that throws [n] dice and sums them. *)
Definition rollPlain (n faces md : Z) (src : list Z) : outcome jsstring :=
  match rollMany (Z.to_nat n) faces src with
  | Returns rolls src1 => Returns (rollText n faces md rolls) src1
  | Throws m => Throws m
  | Starved => Starved
  end.

(** [rollDiceCommand] from the range checks on, the three numbers being
    finite. *)
Definition rollValidated (n faces md : Z) (mode : jsstring) (src : list Z)
  : outcome jsstring :=
  if (n <? 1) || (50 <? n) then Returns MSG_COUNT_RANGE src
  else if (faces <? 2) || (1000 <? faces) then Returns MSG_FACES_RANGE src
  else
    let wantAdv := testWord (lit "adv") mode in
    let wantDis := testWord (lit "dis") mode in
    if (wantAdv || wantDis) && negb ((n =? 1) && (faces =? 20))
    then Returns MSG_ADV_UNSUPPORTED src
    else if wantAdv || wantDis then rollAdvantage wantAdv md src
    else rollPlain n faces md src.

(** [rest], [expr] and [mode] of [rollDiceCommand]. *)
Definition rollRest (input : jsstring) : jsstring :=
  trim (if startsWith_ci input (lit "/roll") then skipn 5 input else input).

Definition rollExpr (input : jsstring) : jsstring :=
  let tokens := split_ws (rollRest input) in
  hd [] tokens.

Definition rollMode (input : jsstring) : jsstring :=
  let tokens := split_ws (rollRest input) in
  toLowerCase (join (lit " ") (tl tokens)).

(** [m[1] ? Number(m[1]) : 1] and [m[3] ? Number(m[3]) : 0] *)
Definition countOf (m1 : jsstring) : number :=
  if isEmpty m1 then Finite 1 else Number_digits m1.

Definition modifierOf (m3 : option jsstring) : number :=
  match m3 with Some s => Number_signed s | None => Finite 0 end.

Definition rollDiceCommand (input : jsstring) (src : list Z) : outcome jsstring :=
  let rest := rollRest input in
  if isEmpty rest then Returns MSG_USAGE src
  else
    let expr := rollExpr input in
    let mode := rollMode input in
    match matchDiceExpr expr with
    | None => Returns MSG_FORMAT src
    | Some (m1, m2, m3) =>
        let n := countOf m1 in
        let faces := Number_digits m2 in
        let md := modifierOf m3 in
        match n, faces, md with
        | Finite n, Finite faces, Finite md => rollValidated n faces md mode src
        | _, _, _ => Returns MSG_INVALID src
        end
    end.

(** The rejection policy in the specification's words, with the order in
    which the checks apply: a command is rejected for the first reason that
    holds. *)
Inductive Rejection :=
| Usage | BadFormat | NotFinite | CountOutOfRange | FacesOutOfRange | AdvDisUnsupported.

Definition rejectionMessage (r : Rejection) : jsstring :=
  match r with
  | Usage => MSG_USAGE
  | BadFormat => MSG_FORMAT
  | NotFinite => MSG_INVALID
  | CountOutOfRange => MSG_COUNT_RANGE
  | FacesOutOfRange => MSG_FACES_RANGE
  | AdvDisUnsupported => MSG_ADV_UNSUPPORTED
  end.

(** The expression of the command follows the grammar and its three numbers
    are the finite [n], [faces] and [md]. *)
Definition parsesAs (input : jsstring) (n faces md : Z) : Prop :=
  rollRest input <> []
  /\ exists c f m, DiceExpr (rollExpr input) c f m
       /\ countOf c = Finite n /\ Number_digits f = Finite faces
       /\ modifierOf m = Finite md.

(** [adv] or [dis] stands as a word in what follows the expression. *)
Definition wantsAdvDis (input : jsstring) : bool :=
  testWord (lit "adv") (rollMode input) || testWord (lit "dis") (rollMode input).

Inductive rejects (input : jsstring) : Rejection -> Prop :=
| rejects_usage :
    rollRest input = [] -> rejects input Usage
| rejects_format :
    rollRest input <> [] ->
    (forall c f m, ~ DiceExpr (rollExpr input) c f m) ->
    rejects input BadFormat
| rejects_notFinite c f m :
    rollRest input <> [] -> DiceExpr (rollExpr input) c f m ->
    isFinite (countOf c) && isFinite (Number_digits f) && isFinite (modifierOf m) = false ->
    rejects input NotFinite
| rejects_count n faces md :
    parsesAs input n faces md -> n < 1 \/ 50 < n ->
    rejects input CountOutOfRange
| rejects_faces n faces md :
    parsesAs input n faces md -> 1 <= n <= 50 -> faces < 2 \/ 1000 < faces ->
    rejects input FacesOutOfRange
| rejects_advDis n faces md :
    parsesAs input n faces md -> 1 <= n <= 50 -> 2 <= faces <= 1000 ->
    wantsAdvDis input = true -> ~ (n = 1 /\ faces = 20) ->
    rejects input AdvDisUnsupported.

(** A validated roll: nothing rejects it. *)
Definition validated (input : jsstring) (n faces md : Z) : Prop :=
  parsesAs input n faces md /\ 1 <= n <= 50 /\ 2 <= faces <= 1000
  /\ (wantsAdvDis input = false \/ (n = 1 /\ faces = 20)).

(* ------------------------------------------------------------------ *)
(** *** handleCommand *)

Definition HELP_TEXT : jsstring :=
  join (lit "
") [
    lit "Commandes Casus :";
    lit "- /roll 2d6+1  (ex: /roll d20, /roll 1d20 adv, /roll 1d20 dis)";
    lit "- /help" ].

Definition handleCommand (raw : jsstring) (src : list Z) : outcome (option jsstring) :=
  let input := trim raw in
  if str_eqb (toLowerCase input) (lit "/help") then Returns (Some HELP_TEXT) src
  else if startsWith (toLowerCase input) (lit "/roll") then
    match rollDiceCommand input src with
    | Returns text src' => Returns (Some text) src'
    | Throws m => Throws m
    | Starved => Starved
    end
  else Returns None src.

(** The texts [handleCommand] takes for a command: [/help], or anything
    that starts with [/roll], whatever the case, once trimmed. *)
Definition isCommand (raw : jsstring) : bool :=
  let input := trim raw in
  str_eqb (toLowerCase input) (lit "/help")
  || startsWith (toLowerCase input) (lit "/roll").

(* ------------------------------------------------------------------ *)
(** *** buildCasusProfileSystemMessage *)

Definition LINE_MJ : jsstring :=
  lit "Mode: MJ (aide à maîtriser, préparer, improviser).".
Definition LINE_JOUEUR : jsstring :=
  lit "Mode: Joueur (aide à incarner, proposer des actions, optimiser sans spoiler).".

(** A string in a condition: [undefined] and the empty string are falsy. *)
Definition truthy (s : option jsstring) : bool :=
  match s with
  | Some (_ :: _) => true
  | _ => false
  end.

Definition orEmpty (s : option jsstring) : jsstring :=
  match s with Some t => t | None => [] end.

Definition strictEq (s : option jsstring) (t : jsstring) : bool :=
  match s with Some u => str_eqb u t | None => false end.

Definition profileLines (casus : CasusProfile) : list jsstring :=
  let mode := option_map trim (mode casus) in
  let univers := option_map trim (univers casus) in
  let style := option_map trim (style casus) in
  (if strictEq mode (lit "mj") then [LINE_MJ] else [])
  ++ (if strictEq mode (lit "joueur") then [LINE_JOUEUR] else [])
  ++ (if truthy univers then [lit "Univers/ton: " ++ orEmpty univers] else [])
  ++ (if truthy style then [lit "Contraintes de style: " ++ orEmpty style] else []).

Definition buildCasusProfileSystemMessage (casus : option CasusProfile)
  : option ChatMessage :=
  match casus with
  | None => None
  | Some casus =>
      let lines := profileLines casus in
      if (Z.of_nat (List.length lines) =? 0) then None
      else Some (mkChatMessage system
                   (lit "Contexte de partie:
" ++ join (lit "
") lines))
  end.

(* ------------------------------------------------------------------ *)
(** *** handleChatRequest *)

(** What the handler answers with: the local event stream for a text, the
    model's stream for a message list, or the error response. *)
Inductive Response :=
| SseText (text : jsstring)
| ModelStream (messages : list ChatMessage)
| Error500.

(** [messages.findIndex(p)], [-1] when no element satisfies [p]. *)
Fixpoint findIndex_from {A : Type} (i : Z) (p : A -> bool) (l : list A) : Z :=
  match l with
  | [] => -1
  | x :: l' => if p x then i else findIndex_from (i + 1) p l'
  end.

Definition findIndex {A : Type} (p : A -> bool) (l : list A) : Z :=
  findIndex_from 0 p l.

(** [messages.splice(idx, 0, item)] for [idx >= 0]. *)
Definition splice_insert {A : Type} (idx : Z) (item : A) (l : list A) : list A :=
  firstn (Z.to_nat idx) l ++ item :: skipn (Z.to_nat idx) l.

Definition isUser (m : ChatMessage) : bool := Role_eqb (role m) user.

Definition isCasusSystem (msg : ChatMessage) : bool :=
  Role_eqb (role msg) system && includes (content msg) (lit "Tu es Casus").

(** The message list handed to the model. *)
Definition composeMessages (messages : list ChatMessage) (casus : option CasusProfile)
  : list ChatMessage :=
  let hasCasusSystem := existsb isCasusSystem messages in
  let messages :=
    if negb hasCasusSystem then mkChatMessage system SYSTEM_PROMPT :: messages
    else messages in
  match buildCasusProfileSystemMessage casus with
  | Some profile =>
      let insertAt :=
        Z.min 1 (findIndex (fun m => negb (Role_eqb (role m) system)) messages) in
      let idx := if insertAt =? -1 then 1 else insertAt in
      splice_insert idx profile messages
  | None => messages
  end.

Definition handleChatRequest (messages : list ChatMessage)
    (casus : option CasusProfile) (src : list Z) : outcome Response :=
  let lastUser := find isUser (rev messages) in
  let commandResponse :=
    match lastUser with
    | Some m => handleCommand (content m) src
    | None => Returns None src
    end in
  match commandResponse with
  | Returns (Some (c :: text)) src' => Returns (SseText (c :: text)) src'
  | Returns _ src' => Returns (ModelStream (composeMessages messages casus)) src'
  | Throws _ => Returns Error500 src
  | Starved => Starved
  end.

(* ------------------------------------------------------------------ *)
(** *** fetch *)

(** What the worker serves: the answer of the asset server, the answer of
    [handleChatRequest], or a plain response with its status and body. *)
Inductive Served :=
| FromAssets
| FromChat (response : Response)
| Plain (status : Z) (body : jsstring).

(** The router, on the path of the URL and the method of the request; the
    message list and the profile are those of the body, read only when the
    request reaches [handleChatRequest]. *)
Definition fetch (pathname method : jsstring) (messages : list ChatMessage)
    (casus : option CasusProfile) (src : list Z) : outcome Served :=
  if str_eqb pathname (lit "/") || negb (startsWith pathname (lit "/api/"))
  then Returns FromAssets src
  else if str_eqb pathname (lit "/api/chat") then
    (if str_eqb method (lit "POST") then
       match handleChatRequest messages casus src with
       | Returns response src' => Returns (FromChat response) src'
       | Throws m => Throws m
       | Starved => Starved
       end
     else Returns (Plain 405 (lit "Method not allowed")) src)
  else Returns (Plain 404 (lit "Not found")) src.

End Worker.

(* ------------------------------------------------------------------ *)
(** *** sseTextResponse *)

Definition hexDigit (d : Z) : Z := if d <? 10 then 0x30 + d else 0x57 + d.

(** The six characters of a [\uXXXX] escape, lower-case digits. *)
Definition unicodeEscape (c : Z) : jsstring :=
  [0x5C; 0x75; hexDigit (c / 4096); hexDigit (c / 256 mod 16);
   hexDigit (c / 16 mod 16); hexDigit (c mod 16)].

(** [QuoteJSONString] on a code unit that is not a surrogate. *)
Definition quoteUnit (c : Z) : jsstring :=
  if c =? 0x08 then [0x5C; 0x62]
  else if c =? 0x09 then [0x5C; 0x74]
  else if c =? 0x0A then [0x5C; 0x6E]
  else if c =? 0x0C then [0x5C; 0x66]
  else if c =? 0x0D then [0x5C; 0x72]
  else if c =? 0x22 then [0x5C; 0x22]
  else if c =? 0x5C then [0x5C; 0x5C]
  else if c <? 0x20 then unicodeEscape c
  else [c].

(** The characters [QuoteJSONString] puts between the quotes: a surrogate
    pair is kept, a lone surrogate is escaped. *)
Fixpoint quoteBody (s : jsstring) : jsstring :=
  match s with
  | [] => []
  | c :: rest =>
      if isHighSurrogate c then
        match rest with
        | d :: rest' =>
            if isLowSurrogate d then c :: d :: quoteBody rest'
            else unicodeEscape c ++ quoteBody rest
        | [] => unicodeEscape c
        end
      else if isLowSurrogate c then unicodeEscape c ++ quoteBody rest
      else quoteUnit c ++ quoteBody rest
  end.

Definition QuoteJSONString (s : jsstring) : jsstring :=
  [0x22] ++ quoteBody s ++ [0x22].

(** [JSON.stringify({ response: text })] *)
Definition JSON_stringify_response (text : jsstring) : jsstring :=
  [0x7B; 0x22] ++ lit "response" ++ [0x22; 0x3A] ++ QuoteJSONString text ++ [0x7D].

Definition DONE : jsstring := lit "[DONE]".

(** The chunks [sseTextResponse(text)] enqueues on the response stream. *)
Definition sseTextResponse (text : jsstring) : list (list Z) :=
  [ TextEncoder_encode (lit "data: " ++ JSON_stringify_response text ++ [0x0A; 0x0A]);
    TextEncoder_encode (lit "data: " ++ DONE ++ [0x0A; 0x0A]) ].

(* ================================================================== *)
(** ** The browser client *)
(* ================================================================== *)

(* ------------------------------------------------------------------ *)
(** *** JSON.parse *)

#[local] Unset Elimination Schemes.
Inductive json :=
| JNull
| JBool (b : bool)
| JNumber (lexeme : jsstring)
| JString (s : jsstring)
| JArray (items : list json)
| JObject (members : list (jsstring * json)).
#[local] Set Elimination Schemes.

Definition isJsonWs (c : Z) : bool :=
  (c =? 0x09) || (c =? 0x0A) || (c =? 0x0D) || (c =? 0x20).

Definition skipWs (s : jsstring) : jsstring := dropWhile isJsonWs s.

Definition hexValue (c : Z) : option Z :=
  if isDigit c then Some (c - 0x30)
  else if (0x61 <=? c) && (c <=? 0x66) then Some (c - 0x57)
  else if (0x41 <=? c) && (c <=? 0x46) then Some (c - 0x37)
  else None.

Definition simpleEscape (e : Z) : option Z :=
  if e =? 0x22 then Some 0x22
  else if e =? 0x5C then Some 0x5C
  else if e =? 0x2F then Some 0x2F
  else if e =? 0x62 then Some 0x08
  else if e =? 0x66 then Some 0x0C
  else if e =? 0x6E then Some 0x0A
  else if e =? 0x72 then Some 0x0D
  else if e =? 0x74 then Some 0x09
  else None.

(** A string after its opening quote: its value and what follows the
    closing quote. *)
Fixpoint parseStringBody (s : jsstring) : option (jsstring * jsstring) :=
  match s with
  | [] => None
  | c :: rest =>
      if c =? 0x22 then Some ([], rest)
      else if c =? 0x5C then
        match rest with
        | [] => None
        | e :: rest2 =>
            if e =? 0x75 then
              match rest2 with
              | h1 :: h2 :: h3 :: h4 :: rest3 =>
                  match hexValue h1, hexValue h2, hexValue h3, hexValue h4 with
                  | Some a, Some b, Some c', Some d =>
                      match parseStringBody rest3 with
                      | Some (str, after) =>
                          Some ((((a * 16 + b) * 16 + c') * 16 + d) :: str, after)
                      | None => None
                      end
                  | _, _, _, _ => None
                  end
              | _ => None
              end
            else
              match simpleEscape e with
              | Some ch =>
                  match parseStringBody rest2 with
                  | Some (str, after) => Some (ch :: str, after)
                  | None => None
                  end
              | None => None
              end
        end
      else if c <? 0x20 then None
      else
        match parseStringBody rest with
        | Some (str, after) => Some (c :: str, after)
        | None => None
        end
  end.

(** The parts of a number, each with what follows it: the integer part
    ([0], or a digit from 1 to 9 and more digits), the optional fraction (a
    point and digits), the optional exponent ([e] or [E], an optional sign,
    digits). *)
Definition parseIntPart (s : jsstring) : option (jsstring * jsstring) :=
  match s with
  | [] => None
  | c :: r =>
      if c =? 0x30 then Some ([c], r)
      else if isDigit c then Some (c :: takeWhile isDigit r, dropWhile isDigit r)
      else None
  end.

Definition parseFracPart (s : jsstring) : option (jsstring * jsstring) :=
  match s with
  | p :: r =>
      if p =? 0x2E then
        (if isEmpty (takeWhile isDigit r) then None
         else Some (p :: takeWhile isDigit r, dropWhile isDigit r))
      else Some ([], s)
  | [] => Some ([], s)
  end.

Definition parseExpPart (s : jsstring) : option (jsstring * jsstring) :=
  match s with
  | e :: r =>
      if (e =? 0x65) || (e =? 0x45) then
        let '(sign, r') :=
          match r with
          | g :: r' => if (g =? 0x2B) || (g =? 0x2D) then ([g], r') else ([], r)
          | [] => ([], r)
          end in
        (if isEmpty (takeWhile isDigit r') then None
         else Some (e :: sign ++ takeWhile isDigit r', dropWhile isDigit r'))
      else Some ([], s)
  | [] => Some ([], s)
  end.

(** A number: its lexeme and what follows it. *)
Definition parseNumber (s : jsstring) : option (jsstring * jsstring) :=
  let '(sign, s1) :=
    match s with
    | c :: r => if c =? 0x2D then ([c], r) else ([], s)
    | [] => ([], s)
    end in
  match parseIntPart s1 with
  | None => None
  | Some (ip, s2) =>
      match parseFracPart s2 with
      | None => None
      | Some (fp, s3) =>
          match parseExpPart s3 with
          | None => None
          | Some (ep, s4) => Some (sign ++ ip ++ fp ++ ep, s4)
          end
      end
  end.

(** Recursive descent; [fuel] bounds the number of nested calls. *)
Fixpoint parseValue (fuel : nat) (s : jsstring) : option (json * jsstring) :=
  match fuel with
  | O => None
  | S fuel' =>
      match skipWs s with
      | [] => None
      | c :: rest =>
          if c =? 0x7B then
            match skipWs rest with
            | c2 :: rest2 =>
                if c2 =? 0x7D then Some (JObject [], rest2)
                else parseMembers fuel' rest []
            | [] => None
            end
          else if c =? 0x5B then
            match skipWs rest with
            | c2 :: rest2 =>
                if c2 =? 0x5D then Some (JArray [], rest2)
                else parseElements fuel' rest []
            | [] => None
            end
          else if c =? 0x22 then
            match parseStringBody rest with
            | Some (str, after) => Some (JString str, after)
            | None => None
            end
          else if startsWith (c :: rest) (lit "true") then Some (JBool true, skipn 4 (c :: rest))
          else if startsWith (c :: rest) (lit "false") then Some (JBool false, skipn 5 (c :: rest))
          else if startsWith (c :: rest) (lit "null") then Some (JNull, skipn 4 (c :: rest))
          else
            match parseNumber (c :: rest) with
            | Some (lexeme, after) => Some (JNumber lexeme, after)
            | None => None
            end
      end
  end

with parseElements (fuel : nat) (s : jsstring) (acc : list json)
  : option (json * jsstring) :=
  match fuel with
  | O => None
  | S fuel' =>
      match parseValue fuel' s with
      | Some (v, after) =>
          match skipWs after with
          | c :: rest =>
              if c =? 0x2C then parseElements fuel' rest (v :: acc)
              else if c =? 0x5D then Some (JArray (rev (v :: acc)), rest)
              else None
          | [] => None
          end
      | None => None
      end
  end

with parseMembers (fuel : nat) (s : jsstring) (acc : list (jsstring * json))
  : option (json * jsstring) :=
  match fuel with
  | O => None
  | S fuel' =>
      match skipWs s with
      | q :: r =>
          if q =? 0x22 then
            match parseStringBody r with
            | Some (key, r1) =>
                match skipWs r1 with
                | c :: r2 =>
                    if c =? 0x3A then
                      match parseValue fuel' r2 with
                      | Some (v, r3) =>
                          match skipWs r3 with
                          | c' :: r4 =>
                              if c' =? 0x2C then parseMembers fuel' r4 ((key, v) :: acc)
                              else if c' =? 0x7D then Some (JObject (rev ((key, v) :: acc)), r4)
                              else None
                          | [] => None
                          end
                      | None => None
                      end
                    else None
                | [] => None
                end
            | None => None
            end
          else None
      | [] => None
      end
  end.

(** [JSON.parse(text)]; [None] is the SyntaxError.  Every nested call comes
    after at least one character has been read, and a value inside an array
    or an object costs two calls, so this fuel is enough
    ([parseValue_fuel_enough] below). *)
Definition JSON_parse (text : jsstring) : option json :=
  match parseValue (2 * List.length text + 2) text with
  | Some (v, after) => if isEmpty (skipWs after) then Some v else None
  | None => None
  end.

(* ------------------------------------------------------------------ *)
(** *** Reading the parsed payload *)

(** [None] stands for [undefined]. *)
Definition lookupLast (name : jsstring) (members : list (jsstring * json)) : option json :=
  fold_left (fun found kv => if str_eqb (fst kv) name then Some (snd kv) else found)
            members None.

(** [v.name] on a value that is neither null nor undefined, for the names
    the client reads ([response], [choices], [delta], [content]): own
    properties of objects only. *)
Definition getMember (v : json) (name : jsstring) : option json :=
  match v with
  | JObject members => lookupLast name members
  | _ => None
  end.

(** [v[0]] on a value that is neither null nor undefined. *)
Definition getIndex0 (v : json) : option json :=
  match v with
  | JObject members => lookupLast [0x30] members
  | JArray (x :: _) => Some x
  | JString (c :: _) => Some (JString [c])
  | _ => None
  end.

(** One link of an optional chain [v?.p]. *)
Definition optChain (v : option json) (get : json -> option json) : option json :=
  match v with
  | None | Some JNull => None
  | Some x => get x
  end.

Fixpoint joinAll (sep : jsstring) (parts : list (option jsstring)) : option jsstring :=
  match parts with
  | [] => Some []
  | [p] => p
  | p :: rest =>
      match p, joinAll sep rest with
      | Some a, Some b => Some (a ++ sep ++ b)
      | _, _ => None
      end
  end.

(** What the client takes from the platform without modelling it: whether
    the double a number literal denotes is truthy (neither zero nor NaN),
    and its text. *)
Section Client.

Variable numberIsTruthy : jsstring -> bool.
Variable numberToString : jsstring -> jsstring.

Definition isTruthy (v : option json) : bool :=
  match v with
  | None | Some JNull | Some (JBool false) | Some (JString []) => false
  | Some (JNumber lexeme) => numberIsTruthy lexeme
  | Some _ => true
  end.

(** The string a value becomes when it is appended to a string; [None] when
    the conversion throws.  An array is joined with commas, null elements
    giving nothing; an object is [[object Object]] unless it has a property
    of its own named [toString], which is not callable. *)
Fixpoint ToString (v : json) : option jsstring :=
  match v with
  | JNull => Some (lit "null")
  | JBool true => Some (lit "true")
  | JBool false => Some (lit "false")
  | JNumber lexeme => Some (numberToString lexeme)
  | JString s => Some s
  | JArray items =>
      joinAll (lit ",")
        (List.map (fun x => match x with JNull => Some [] | _ => ToString x end) items)
  | JObject members =>
      match lookupLast (lit "toString") members with
      | Some _ => None
      | None => Some (lit "[object Object]")
      end
  end.

(** The body of the [try] block for one payload: the text it appends to
    [responseText], [None] when it appends nothing (an exception was caught,
    or the content is falsy). *)
Definition payloadContent (data : jsstring) : option jsstring :=
  match JSON_parse data with
  | None => None
  | Some JNull => None
  | Some jsonData =>
      let content :=
        match getMember jsonData (lit "response") with
        | Some (JString (c :: s)) => Some (JString (c :: s))
        | _ =>
            let viaChoices :=
              optChain (optChain (optChain (getMember jsonData (lit "choices")) getIndex0)
                          (fun x => getMember x (lit "delta")))
                       (fun x => getMember x (lit "content")) in
            if isTruthy viaChoices then viaChoices else Some (JString [])
        end in
      if isTruthy content then
        match content with
        | Some c => ToString c
        | None => None
        end
      else None
  end.

(** [for (const data of parsed.events) ...]: the response text after the
    loop, and whether it left through the [[DONE]] branch. *)
Fixpoint processEvents (responseText : jsstring) (events : list jsstring)
  : jsstring * bool :=
  match events with
  | [] => (responseText, false)
  | data :: rest =>
      if str_eqb data DONE then (responseText, true)
      else
        processEvents
          (match payloadContent data with
           | Some content => responseText ++ content
           | None => responseText
           end)
          rest
  end.

(* ------------------------------------------------------------------ *)
(** *** consumeSseEvents *)

(** The object [{ events, buffer }] that [consumeSseEvents] returns. *)
Record SseParse := mkSseParse { parsed_events : list jsstring; parsed_buffer : jsstring }.

(** [buffer.replace(/\r/g, "")] *)
Definition removeCR (buffer : jsstring) : jsstring :=
  filter (fun c => negb (c =? 0x0D)) buffer.

(** The [dataLines] of one raw event. *)
Definition dataLinesOf (rawEvent : jsstring) : list jsstring :=
  List.map (fun line => trimStart (skipn 5 line))
    (filter (fun line => startsWith line (lit "data:")) (split_char 0x0A rawEvent)).

(** The [while] loop; every turn removes at least two characters from
    [normalized], which bounds the number of turns. *)
Fixpoint consumeLoop (fuel : nat) (normalized : jsstring) (events : list jsstring)
  : SseParse :=
  match fuel with
  | O => mkSseParse events normalized
  | S fuel' =>
      let eventEndIndex := indexOf normalized [0x0A; 0x0A] in
      if eventEndIndex =? -1 then mkSseParse events normalized
      else
        let rawEvent := slice_to normalized eventEndIndex in
        let normalized' := slice_from normalized (eventEndIndex + 2) in
        let dataLines := dataLinesOf rawEvent in
        if Z.of_nat (List.length dataLines) =? 0 then consumeLoop fuel' normalized' events
        else consumeLoop fuel' normalized' (events ++ [join [0x0A] dataLines])
  end.

(** The first blank-line boundary of a text, by recursion on the text: what
    stands before it and what follows it. *)
Fixpoint splitBoundary (s : jsstring) : option (jsstring * jsstring) :=
  match s with
  | a :: s' =>
      match s' with
      | b :: rest =>
          if (a =? 0x0A) && (b =? 0x0A) then Some ([], rest)
          else match splitBoundary s' with
               | Some (pre, post) => Some (a :: pre, post)
               | None => None
               end
      | [] => None
      end
  | [] => None
  end.

(** One turn of the loop, seen from its result: the event of the data lines
    goes in front, unless there is no data line. *)
Definition withEvent (dataLines : list jsstring) (parsed : SseParse) : SseParse :=
  if Z.of_nat (List.length dataLines) =? 0 then parsed
  else mkSseParse (join [0x0A] dataLines :: parsed_events parsed) (parsed_buffer parsed).

Definition consumeSseEvents (buffer : jsstring) : SseParse :=
  let normalized := removeCR buffer in
  consumeLoop (List.length normalized) normalized [].

(* ------------------------------------------------------------------ *)
(** *** The read loop of sendMessage *)

(** How the loop ends: the response text (what the page shows), the
    carry-over buffer, whether the sentinel was seen, and the chunks of the
    stream that were never read. *)
Record StreamResult := mkStreamResult {
  responseText : jsstring;
  carryOver : jsstring;
  sawDone : bool;
  unread : list (list Z) }.

(** [while (true) { const { done, value } = await reader.read(); ... }] over
    the chunks the stream delivers before it ends. *)
Fixpoint readLoop (reads : list (list Z)) (decoder : TextDecoder)
    (responseText buffer : jsstring) : StreamResult :=
  match reads with
  | [] =>
      let parsed := consumeSseEvents (buffer ++ [0x0A; 0x0A]) in
      let '(responseText', _) := processEvents responseText (parsed_events parsed) in
      mkStreamResult responseText' buffer false []
  | value :: rest =>
      let '(decoder', text) := TextDecoder_decode_stream decoder value in
      let buffer := buffer ++ text in
      let parsed := consumeSseEvents buffer in
      let buffer := parsed_buffer parsed in
      let '(responseText', sawDone) := processEvents responseText (parsed_events parsed) in
      if sawDone then mkStreamResult responseText' [] true rest
      else readLoop rest decoder' responseText' buffer
  end.

(** The streaming part of [sendMessage] on a response body. *)
Definition sendMessage_stream (body : list (list Z)) : StreamResult :=
  readLoop body TextDecoder_new [] [].

(* ------------------------------------------------------------------ *)
(** *** buildCasusProfile *)

(** The profile the page sends with a request.  [modeSelect] and
    [universeInput] are the values of the two controls, [None] when the
    control is not in the page; [univers] is left out when it is empty, and
    the page never sends a style. *)
Definition buildCasusProfile (modeSelect universeInput : option jsstring)
  : CasusProfile :=
  let mode := if truthy modeSelect then orEmpty modeSelect else lit "mj" in
  let univers :=
    match universeInput with Some value => trim value | None => [] end in
  mkCasusProfile
    (Some (if str_eqb mode (lit "joueur") then lit "joueur" else lit "mj"))
    (if isEmpty univers then None else Some univers)
    None.

(* ------------------------------------------------------------------ *)
(** *** The chat state of the page *)

(** The two variables [sendMessage] and [resetChat] share.  The page itself
    (the bubbles of the messages, the input box, the typing indicator) is
    left out. *)
Record Session := mkSession { chatHistory : list ChatMessage; isProcessing : bool }.

(** The body [sendMessage] posts: [{ messages, casus }]. *)
Record ChatRequest := mkChatRequest {
  req_messages : list ChatMessage;
  req_casus : CasusProfile }.

(** [buildMessagesForApi()]: a copy of the history. *)
Definition buildMessagesForApi (s : Session) : list ChatMessage := chatHistory s.

(** [sendMessage] from its first line to [await fetch(...)]; nothing else
    runs in between.  [inputValue] is the text of the input box.  It returns
    at once when the text is empty once trimmed or when a request is
    pending; otherwise the message joins the history and the request is
    built from the history as it then stands. *)
Definition sendMessage_begin (inputValue : jsstring)
    (modeSelect universeInput : option jsstring) (s : Session)
  : Session * option ChatRequest :=
  let message := trim inputValue in
  if isEmpty message || isProcessing s then (s, None)
  else
    let s' := mkSession (chatHistory s ++ [mkChatMessage user message]) true in
    (s', Some (mkChatRequest (buildMessagesForApi s')
                 (buildCasusProfile modeSelect universeInput))).

(** What comes of the request: an exception ([fetch] rejects, the status is
    not ok, there is no body, or a read rejects), or the chunks the body
    delivers before it ends. *)
Inductive Reply :=
| Failed
| Body (chunks : list (list Z)).

(** [sendMessage] from the end of the read loop on: the response joins the
    history of that moment when it is not empty; an exception leaves the
    history alone (the apology is shown, not recorded); [finally] lets the
    next message in. *)
Definition sendMessage_end (reply : Reply) (s : Session) : Session :=
  match reply with
  | Body chunks =>
      let text := responseText (sendMessage_stream chunks) in
      mkSession
        (if 0 <? Z.of_nat (List.length text)
         then chatHistory s ++ [mkChatMessage assistant text]
         else chatHistory s)
        false
  | Failed => mkSession (chatHistory s) false
  end.

(** [resetChat()], as far as the chat state goes. *)
Definition resetChat (s : Session) : Session := mkSession [] (isProcessing s).

(** [boot()] on the state the script declares. *)
Definition boot : Session := resetChat (mkSession [] false).

(** [onQuickPromptClick]: [dataPrompt] is the attribute of the button that
    was hit, [None] when the click hit no such button or the button has no
    such attribute. *)
Definition onQuickPromptClick (dataPrompt : option jsstring)
    (modeSelect universeInput : option jsstring) (s : Session)
  : Session * option ChatRequest :=
  if truthy dataPrompt
  then sendMessage_begin (orEmpty dataPrompt) modeSelect universeInput s
  else (s, None).

(** What happens to the page, one event at a time: a message is submitted
    (Enter or the send button), a quick prompt is clicked, the pending
    [sendMessage] runs to its end, the chat is cleared. *)
Inductive ClientEvent :=
| Submit (inputValue : jsstring) (modeSelect universeInput : option jsstring)
| QuickPrompt (dataPrompt : option jsstring) (modeSelect universeInput : option jsstring)
| Settle (reply : Reply)
| Clear.

(** A [sendMessage] is pending exactly while [isProcessing] holds, so only
    then is there one to run to its end. *)
Definition step (s : Session) (e : ClientEvent) : Session :=
  match e with
  | Submit inputValue modeSelect universeInput =>
      fst (sendMessage_begin inputValue modeSelect universeInput s)
  | QuickPrompt dataPrompt modeSelect universeInput =>
      fst (onQuickPromptClick dataPrompt modeSelect universeInput s)
  | Settle reply => if isProcessing s then sendMessage_end reply s else s
  | Clear => resetChat s
  end.

(** The chat state after a sequence of events, from the loading of the
    page. *)
Definition run (events : list ClientEvent) : Session := fold_left step events boot.

End Client.

(* ------------------------------------------------------------------ *)
(** *** The body of the request *)

(** The role of a message as the string the objects hold. *)
Definition roleName (r : Role) : jsstring :=
  match r with
  | system => lit "system"
  | user => lit "user"
  | assistant => lit "assistant"
  end.

(** [JSON.stringify] on [{ role, content }]. *)
Definition JSON_stringify_message (m : ChatMessage) : jsstring :=
  [0x7B; 0x22] ++ lit "role" ++ [0x22; 0x3A] ++ QuoteJSONString (roleName (role m))
  ++ [0x2C; 0x22] ++ lit "content" ++ [0x22; 0x3A] ++ QuoteJSONString (content m)
  ++ [0x7D].

(** A property of an object in [JSON.stringify]: left out when its value is
    [undefined]. *)
Definition JSON_stringify_property (name : jsstring) (value : option jsstring)
  : list jsstring :=
  match value with
  | Some s => [QuoteJSONString name ++ [0x3A] ++ QuoteJSONString s]
  | None => []
  end.

(** [JSON.stringify] on [{ mode, univers, style }]. *)
Definition JSON_stringify_casus (c : CasusProfile) : jsstring :=
  [0x7B]
  ++ join [0x2C]
       (JSON_stringify_property (lit "mode") (mode c)
        ++ JSON_stringify_property (lit "univers") (univers c)
        ++ JSON_stringify_property (lit "style") (style c))
  ++ [0x7D].

(** [JSON.stringify({ messages: buildMessagesForApi(), casus: buildCasusProfile() })],
    the body [sendMessage] posts. *)
Definition JSON_stringify_request (r : ChatRequest) : jsstring :=
  [0x7B; 0x22] ++ lit "messages" ++ [0x22; 0x3A; 0x5B]
  ++ join [0x2C] (List.map JSON_stringify_message (req_messages r))
  ++ [0x5D; 0x2C; 0x22] ++ lit "casus" ++ [0x22; 0x3A]
  ++ JSON_stringify_casus (req_casus r) ++ [0x7D].

(** What the worker finds in the parsed body, for a body of the declared
    type: [messages] an array of objects with a role among the three and a
    string content (an absent [messages] is the empty list), [casus] absent
    or an object whose [mode], [univers] and [style] are strings or absent.
    [None] for any other body, which the embedding of the worker does not
    cover. *)
Definition readRole (s : jsstring) : option Role :=
  if str_eqb s (lit "system") then Some system
  else if str_eqb s (lit "user") then Some user
  else if str_eqb s (lit "assistant") then Some assistant
  else None.

Definition readMessage (v : json) : option ChatMessage :=
  match getMember v (lit "role"), getMember v (lit "content") with
  | Some (JString r), Some (JString c) =>
      match readRole r with
      | Some r' => Some (mkChatMessage r' c)
      | None => None
      end
  | _, _ => None
  end.

Fixpoint readMessages (items : list json) : option (list ChatMessage) :=
  match items with
  | [] => Some []
  | v :: rest =>
      match readMessage v, readMessages rest with
      | Some m, Some ms => Some (m :: ms)
      | _, _ => None
      end
  end.

(** A property that holds a string or is absent. *)
Definition readOptionalString (v : option json) : option (option jsstring) :=
  match v with
  | None => Some None
  | Some (JString s) => Some (Some s)
  | Some _ => None
  end.

Definition readCasus (v : option json) : option (option CasusProfile) :=
  match v with
  | None => Some None
  | Some (JObject members) =>
      match readOptionalString (lookupLast (lit "mode") members),
            readOptionalString (lookupLast (lit "univers") members),
            readOptionalString (lookupLast (lit "style") members) with
      | Some m, Some u, Some s => Some (Some (mkCasusProfile m u s))
      | _, _, _ => None
      end
  | Some _ => None
  end.

(** [const { messages = [], casus } = await request.json()] on the parsed
    body. *)
Definition readBody (v : json) : option (list ChatMessage * option CasusProfile) :=
  match v with
  | JObject members =>
      let messages :=
        match lookupLast (lit "messages") members with
        | None => Some []
        | Some (JArray items) => readMessages items
        | Some _ => None
        end in
      match messages, readCasus (lookupLast (lit "casus") members) with
      | Some ms, Some c => Some (ms, c)
      | _, _ => None
      end
  | _ => None
  end.

(* ================================================================== *)
(** ** The specification's normalization, for comparison *)
(* ================================================================== *)

(** Following the specification's words: each CR LF pair becomes LF, every
    other character stays, a CR that no LF follows included. *)
Fixpoint normalizeCRLF_spec (s : jsstring) : jsstring :=
  match s with
  | [] => []
  | c :: rest =>
      if c =? 0x0D then
        match rest with
        | d :: _ => if d =? 0x0A then normalizeCRLF_spec rest
                    else c :: normalizeCRLF_spec rest
        | [] => [c]
        end
      else c :: normalizeCRLF_spec rest
  end.

(** The last message of role user in a list, in the specification's words:
    a user message that no user message follows. *)
Definition lastUserIs (messages : list ChatMessage) (m : ChatMessage) : Prop :=
  exists before after,
    messages = before ++ m :: after
    /\ role m = user
    /\ Forall (fun x => role x <> user) after.

(** Notions the round trip of the event stream is stated with. *)

(** The code points a well-formed text holds: no surrogate. *)
Definition validScalar (cp : Z) : Prop := 0 <= cp < 0x110000 /\ ~ (0xD800 <= cp <= 0xDFFF).

(** Well-formed UTF-16: every surrogate is half of a pair. *)
Inductive WellFormed : jsstring -> Prop :=
| WellFormed_nil : WellFormed []
| WellFormed_unit (c : Z) (s : jsstring) :
    isCodeUnit c -> isHighSurrogate c = false -> isLowSurrogate c = false ->
    WellFormed s -> WellFormed (c :: s)
| WellFormed_pair (hi lo : Z) (s : jsstring) :
    isHighSurrogate hi = true -> isLowSurrogate lo = true ->
    WellFormed s -> WellFormed (hi :: lo :: s).

(** What [JSON.parse] reads back at the head of a string body. *)
Definition reads (u cs : jsstring) : Prop :=
  forall t, parseStringBody (u ++ t)
            = match parseStringBody t with
              | Some (str, after) => Some (cs ++ str, after)
              | None => None
              end.

(** A code unit that is no surrogate. *)
Definition plainUnit (c : Z) : Prop :=
  isCodeUnit c /\ isHighSurrogate c = false /\ isLowSurrogate c = false.

(** A quoted piece: [JSON.parse] reads [cs] back from it, it holds neither
    LF nor CR, and it is well formed in front of any well-formed text. *)
Definition quotes (u cs : jsstring) : Prop :=
  reads u cs
  /\ Forall (fun x => x <> 0x0A /\ x <> 0x0D) u
  /\ (forall t, WellFormed t -> WellFormed (u ++ t)).

(** The line of the first event: [data: ] and the JSON text. *)
Definition firstEvent (text : jsstring) : jsstring :=
  lit "data: " ++ JSON_stringify_response text.

(** The text of the stream [sseTextResponse] produces. *)
Definition streamText (text : jsstring) : jsstring :=
  (firstEvent text ++ [0x0A; 0x0A]) ++ (lit "data: " ++ DONE ++ [0x0A; 0x0A]).


(** Notions the properties of the page and of the streams are stated
    with. *)

(** A text that starts with a character [trim] keeps. *)
Definition keptHead (s : jsstring) : Prop :=
  match s with [] => True | c :: _ => isWhiteSpace c = false end.

(** What the history holds: messages of the user, trimmed and not empty, and
    answers, not empty. *)
Definition recorded (m : ChatMessage) : Prop :=
  content m <> []
  /\ (role m = user /\ trim (content m) = content m \/ role m = assistant).

(** [JSON.stringify({ choices: [{ delta: { content: text } }] })], the
    second payload the client reads. *)
Definition JSON_stringify_delta (text : jsstring) : jsstring :=
  [0x7B; 0x22] ++ lit "choices" ++ [0x22; 0x3A; 0x5B; 0x7B; 0x22] ++ lit "delta"
  ++ [0x22; 0x3A; 0x7B; 0x22] ++ lit "content" ++ [0x22; 0x3A]
  ++ QuoteJSONString text ++ [0x7D; 0x7D; 0x5D; 0x7D].

(** A payload of a stream, in one of the two formats, with the text it
    carries. *)
Inductive Payload :=
| ResponsePayload (text : jsstring)
| DeltaPayload (text : jsstring).

Definition payloadText (p : Payload) : jsstring :=
  match p with ResponsePayload text | DeltaPayload text => text end.

Definition payloadJson (p : Payload) : jsstring :=
  match p with
  | ResponsePayload text => JSON_stringify_response text
  | DeltaPayload text => JSON_stringify_delta text
  end.

(** The events of a stream, one per payload: [data: ], the JSON text, a
    blank line. *)
Definition eventsText (payloads : list Payload) : jsstring :=
  flat_map (fun p => lit "data: " ++ payloadJson p ++ [0x0A; 0x0A]) payloads.

(** Notions the round trip of the request body is stated with. *)

(** The texts of a request: the contents of its messages and the fields of
    its profile. *)
Definition requestTexts (r : ChatRequest) : list jsstring :=
  List.map content (req_messages r)
  ++ match mode (req_casus r) with Some s => [s] | None => [] end
  ++ match univers (req_casus r) with Some s => [s] | None => [] end
  ++ match style (req_casus r) with Some s => [s] | None => [] end.

Definition jsonOfMessage (m : ChatMessage) : json :=
  JObject [(lit "role", JString (roleName (role m))); (lit "content", JString (content m))].

(** The properties of a profile that [JSON.stringify] writes. *)
Definition propertiesOf (c : CasusProfile) : list (jsstring * jsstring) :=
  match mode c with Some s => [(lit "mode", s)] | None => [] end
  ++ match univers c with Some s => [(lit "univers", s)] | None => [] end
  ++ match style c with Some s => [(lit "style", s)] | None => [] end.

Definition propertyText (p : jsstring * jsstring) : jsstring :=
  QuoteJSONString (fst p) ++ [0x3A] ++ QuoteJSONString (snd p).

Definition jsonOfProperty (p : jsstring * jsstring) : jsstring * json :=
  (fst p, JString (snd p)).

Definition jsonOfRequest (r : ChatRequest) : json :=
  JObject [(lit "messages", JArray (List.map jsonOfMessage (req_messages r)));
           (lit "casus", JObject (List.map jsonOfProperty (propertiesOf (req_casus r))))].

(* ================================================================== *)
(** * Properties *)
(* ================================================================== *)

Ltac destr_if :=
  match goal with
  | |- context [if ?b then _ else _] => destruct b eqn:?
  end.

Ltac zbool :=
  repeat match goal with
  | H : (_ && _)%bool = true |- _ => apply andb_true_iff in H; destruct H
  | H : (_ || _)%bool = false |- _ => apply orb_false_iff in H; destruct H
  | H : (_ && _)%bool = false |- _ => apply andb_false_iff in H
  | H : (_ || _)%bool = true |- _ => apply orb_true_iff in H
  | H : negb _ = true |- _ => apply negb_true_iff in H
  | H : negb _ = false |- _ => apply negb_false_iff in H
  | H : (_ <? _) = true |- _ => apply Z.ltb_lt in H
  | H : (_ <? _) = false |- _ => apply Z.ltb_ge in H
  | H : (_ <=? _) = true |- _ => apply Z.leb_le in H
  | H : (_ <=? _) = false |- _ => apply Z.leb_gt in H
  | H : (_ =? _) = true |- _ => apply Z.eqb_eq in H
  | H : (_ =? _) = false |- _ => apply Z.eqb_neq in H
  end.

(* ------------------------------------------------------------------ *)
(** ** Rejection sampling *)

Lemma randLimit_multiple (r : Z) :
  0 < r -> maxUint32 - maxUint32 mod r = r * (maxUint32 / r).
Proof.
  intros Hr. pose proof (Z.div_mod maxUint32 r ltac:(lia)). lia.
Qed.

Lemma randLimit_bounds (r : Z) :
  2 <= r <= 1000 -> maxUint32 - 999 <= maxUint32 - maxUint32 mod r <= maxUint32.
Proof.
  intros Hr. pose proof (Z.mod_pos_bound maxUint32 r ltac:(lia)). lia.
Qed.

Lemma rejectionLoop_range (lo range limit : Z) (src : list Z) v src' :
  0 < range ->
  rejectionLoop lo range limit src = Returns v src' ->
  lo <= v < lo + range.
Proof.
  intros Hr. induction src as [|x src IH]; simpl; [discriminate|].
  destr_if; [|exact IH].
  intros H; injection H as <- _.
  pose proof (Z.mod_pos_bound (x mod 2 ^ 32) range Hr). lia.
Qed.

Lemma rejectionLoop_not_Throws (lo range limit : Z) (src : list Z) m :
  rejectionLoop lo range limit src <> Throws m.
Proof.
  induction src as [|x src IH]; simpl; [discriminate|].
  destr_if; [discriminate|exact IH].
Qed.

Lemma rejectionLoop_returns (lo range limit : Z) (src : list Z) :
  Exists (fun x => x mod 2 ^ 32 < limit) src ->
  exists v src', rejectionLoop lo range limit src = Returns v src'.
Proof.
  induction src as [|x src IH]; intros H; [inversion H|].
  simpl. destr_if; [eauto|].
  inversion H; subst; [zbool; lia|auto].
Qed.

(** C4. No modulo bias: for a range size [r] in [2,1000], the limit of
    [randIntInclusive(1, r)] is an exact multiple of [r]; the call accepts
    the first 32-bit draw below the limit and returns [1 + (x mod r)] for
    it; the accepted draws mapped to an outcome [v] of [1..r] are exactly
    the [limit / r] values [(v - 1) + k * r], [0 <= k < limit / r], each
    once; the returned value lies in [1..r], and the call never throws. *)
Theorem C4_randIntInclusive_no_modulo_bias (r : Z) (Hr : 2 <= r <= 1000) :
  let limit := maxUint32 - maxUint32 mod r in
  (limit mod r = 0 /\ 0 < limit <= maxUint32)
  /\ (forall x src,
        randIntInclusive 1 r (x :: src) =
        if x mod 2 ^ 32 <? limit then Returns (1 + (x mod 2 ^ 32) mod r) src
        else randIntInclusive 1 r src)
  /\ (forall v x, 1 <= v <= r -> 0 <= x < 2 ^ 32 ->
        (x < limit /\ 1 + x mod r = v)
        <-> (exists k, 0 <= k < limit / r /\ x = (v - 1) + k * r))
  /\ (forall v k k', (v - 1) + k * r = (v - 1) + k' * r -> k = k')
  /\ (forall src v src', randIntInclusive 1 r src = Returns v src' -> 1 <= v <= r)
  /\ (forall src, Exists (fun x => x mod 2 ^ 32 < limit) src ->
        exists v src', randIntInclusive 1 r src = Returns v src')
  /\ (forall src m, randIntInclusive 1 r src <> Throws m).
Proof.
  intros limit.
  assert (Hlim : limit = r * (maxUint32 / r)) by (apply randLimit_multiple; lia).
  assert (Hq : limit / r = maxUint32 / r).
  { rewrite Hlim, Z.mul_comm. apply Z.div_mul. lia. }
  pose proof (randLimit_bounds r Hr) as Hb. fold limit in Hb.
  assert (Hunf : forall src, randIntInclusive 1 r src = rejectionLoop 1 r limit src).
  { intros src. unfold randIntInclusive.
    replace (r <? 1) with false by (symmetry; apply Z.ltb_ge; lia).
    replace (r - 1 + 1) with r by lia. reflexivity. }
  repeat split.
  - rewrite Hlim, Z.mul_comm. apply Z.mod_mul. lia.
  - unfold maxUint32 in *. lia.
  - lia.
  - intros x src. rewrite !Hunf. reflexivity.
  - intros [Hx Hv]. exists (x / r).
    pose proof (Z.div_mod x r ltac:(lia)) as Hdm.
    pose proof (Z.mod_pos_bound x r ltac:(lia)).
    rewrite Hq. split; [split|].
    + apply Z.div_pos; lia.
    + apply Z.div_lt_upper_bound; lia.
    + lia.
  - destruct H1 as (k & Hk & ->). rewrite Hq in Hk.
    assert (maxUint32 / r * r <= limit) by lia. nia.
  - destruct H1 as (k & Hk & ->).
    rewrite Z.mod_add by lia. rewrite Z.mod_small by lia. lia.
  - intros v k k' H. nia.
  - rewrite Hunf in H. apply rejectionLoop_range in H; lia.
  - rewrite Hunf in H. apply rejectionLoop_range in H; lia.
  - intros src H. rewrite Hunf. apply rejectionLoop_returns. exact H.
  - intros src m. rewrite Hunf. apply rejectionLoop_not_Throws.
Qed.

Lemma C4_witness_d6 :
  2 <= 6 <= 1000
  /\ randIntInclusive 1 6 [4294967295; 4294967292; 4294967289; 7]
     = Returns 4 [7]
  /\ (maxUint32 - maxUint32 mod 6) mod 6 = 0.
Proof.
  assert (H : 2 <= 6 <= 1000) by lia.
  pose proof (C4_randIntInclusive_no_modulo_bias 6 H) as (Hm & Hstep & _).
  split; [exact H|]. split; [|exact (proj1 Hm)].
  rewrite !Hstep. reflexivity.
Defined.

(* ------------------------------------------------------------------ *)
(** ** Normalization of line ends *)

Lemma removeCR_app (a b : jsstring) : removeCR (a ++ b) = removeCR a ++ removeCR b.
Proof. unfold removeCR. apply filter_app. Qed.

Lemma removeCR_no_CR (s : jsstring) : ~ In 0x0D (removeCR s).
Proof.
  unfold removeCR. intros H. apply filter_In in H. destruct H as [_ H].
  discriminate.
Qed.

Lemma removeCR_id (s : jsstring) : ~ In 0x0D s -> removeCR s = s.
Proof.
  unfold removeCR. induction s as [|c s IH]; simpl; intros H; [reflexivity|].
  destruct (Z.eqb_spec c 0x0D) as [->|Hc]; simpl.
  - exfalso. apply H. now left.
  - f_equal. apply IH. intros Hin. apply H. now right.
Qed.

Lemma removeCR_idempotent (s : jsstring) : removeCR (removeCR s) = removeCR s.
Proof. apply removeCR_id, removeCR_no_CR. Qed.

Lemma removeCR_normalizeCRLF_spec (s : jsstring) :
  removeCR (normalizeCRLF_spec s) = removeCR s.
Proof.
  induction s as [|c s IH]; [reflexivity|].
  cbn [normalizeCRLF_spec].
  destruct (Z.eqb_spec c 0x0D) as [->|Hc].
  - destruct s as [|d s']; [reflexivity|].
    destruct (Z.eqb_spec d 0x0A) as [->|Hd].
    + rewrite IH. reflexivity.
    + change (removeCR (0x0D :: ?x)) with (removeCR x). exact IH.
  - unfold removeCR in *. simpl.
    destruct (Z.eqb_spec c 0x0D); [contradiction|]. simpl. now rewrite IH.
Qed.

(** C8, as the code has it.  The normalization [consumeSseEvents] applies to
    the buffer before it looks for blank-line boundaries deletes every CR:
    a CR LF pair becomes LF, a CR that no LF follows is deleted as well, and
    every other character stays where it is.  It is the specification's
    CR LF normalization followed by the deletion of the CRs that are left. *)
Theorem C8_normalization_deletes_every_CR (a b : jsstring) (c : Z) :
  removeCR (a ++ [0x0D; 0x0A] ++ b) = removeCR a ++ [0x0A] ++ removeCR b
  /\ removeCR (a ++ [0x0D] ++ b) = removeCR a ++ removeCR b
  /\ removeCR (a ++ [c] ++ b)
     = removeCR a ++ (if c =? 0x0D then [] else [c]) ++ removeCR b
  /\ removeCR a = removeCR (normalizeCRLF_spec a)
  /\ consumeSseEvents a
     = consumeLoop (List.length (removeCR a)) (removeCR a) [].
Proof.
  repeat split.
  - rewrite !removeCR_app. reflexivity.
  - rewrite !removeCR_app. reflexivity.
  - rewrite !removeCR_app. f_equal. f_equal.
    unfold removeCR. simpl. destruct (c =? 0x0D); reflexivity.
  - symmetry. apply removeCR_normalizeCRLF_spec.
Qed.

(** C8 as stated fails: a CR that no LF follows, inside a data payload, is
    deleted from the payload, where the stated normalization keeps it. *)
Lemma C8_lone_CR_is_deleted :
  let buffer := lit "data: a" ++ [0x0D] ++ lit "b" ++ [0x0A; 0x0A] in
  normalizeCRLF_spec buffer = buffer
  /\ removeCR buffer <> normalizeCRLF_spec buffer
  /\ parsed_events (consumeSseEvents buffer) = [lit "ab"]
  /\ parsed_events (consumeSseEvents buffer) <> [lit "a" ++ [0x0D] ++ lit "b"].
Proof.
  vm_compute. repeat split; discriminate.
Qed.

(* ------------------------------------------------------------------ *)
(** ** Strings *)

Lemma str_eqb_eq (a b : jsstring) : str_eqb a b = true <-> a = b.
Proof.
  revert b. induction a as [|x a IH]; intros [|y b]; simpl; split; intros H;
    try reflexivity; try discriminate.
  - zbool. subst. f_equal. now apply IH.
  - injection H as -> ->. rewrite Z.eqb_refl. now apply IH.
Qed.

Lemma str_eqb_refl (a : jsstring) : str_eqb a a = true.
Proof. now apply str_eqb_eq. Qed.

Lemma str_eqb_neq (a b : jsstring) : str_eqb a b = false <-> a <> b.
Proof.
  split; intros H.
  - intros ->. rewrite str_eqb_refl in H. discriminate.
  - destruct (str_eqb a b) eqn:E; [|reflexivity].
    apply str_eqb_eq in E. contradiction.
Qed.

Lemma startsWith_app (p s : jsstring) : startsWith (p ++ s) p = true.
Proof. induction p as [|x p IH]; simpl; [reflexivity|]. now rewrite Z.eqb_refl. Qed.

Lemma startsWith_iff (s p : jsstring) :
  startsWith s p = true <-> exists t, s = p ++ t.
Proof.
  revert s. induction p as [|x p IH]; intros s; simpl.
  - split; eauto.
  - destruct s as [|y s].
    + split; [discriminate|]. intros [t Ht]. discriminate.
    + split.
      * intros H. zbool. subst. apply IH in H0 as [t ->]. now exists t.
      * intros [t Ht]. injection Ht as -> ->. rewrite Z.eqb_refl. apply IH. eauto.
Qed.

(* ------------------------------------------------------------------ *)
(** ** The profile message *)

Lemma length_eqb_0 {A : Type} (ls : list A) :
  (Z.of_nat (List.length ls) =? 0) = match ls with [] => true | _ => false end.
Proof. destruct ls; reflexivity. Qed.

(** C9. [buildCasusProfileSystemMessage] returns null exactly when the
    profile is absent or none of mode, univers and style yields a line once
    trimmed (mode yields one when it is [mj] or [joueur], univers and style
    when they are not empty); otherwise it returns one message of role
    system whose body is the heading followed by the lines of the fields
    that yield one, in the order mode, univers, style. *)
Theorem C9_profile_message (casus : option CasusProfile) :
  let field (f : CasusProfile -> option jsstring) :=
    match casus with
    | Some p => match f p with Some s => trim s | None => [] end
    | None => []
    end in
  let modeLine :=
    if str_eqb (field mode) (lit "mj") then [LINE_MJ]
    else if str_eqb (field mode) (lit "joueur") then [LINE_JOUEUR]
    else [] in
  let universLine :=
    match field univers with [] => [] | u => [lit "Univers/ton: " ++ u] end in
  let styleLine :=
    match field style with [] => [] | s => [lit "Contraintes de style: " ++ s] end in
  (buildCasusProfileSystemMessage casus = None
   <-> casus = None \/ (modeLine = [] /\ universLine = [] /\ styleLine = []))
  /\ (forall msg, buildCasusProfileSystemMessage casus = Some msg ->
        role msg = system
        /\ content msg
           = lit "Contexte de partie:" ++ [0x0A]
             ++ join [0x0A] (modeLine ++ universLine ++ styleLine)).
Proof.
  intros field modeLine universLine styleLine.
  destruct casus as [p|].
  2:{ split; [split; auto|]. intros msg H. discriminate. }
  assert (Hlines : profileLines p = modeLine ++ universLine ++ styleLine).
  { unfold profileLines, modeLine, universLine, styleLine, field, strictEq, truthy, orEmpty.
    destruct (mode p) as [m|], (univers p) as [u|], (style p) as [s|]; simpl;
      repeat match goal with
      | |- context [str_eqb ?a ?b] =>
          let E := fresh "E" in destruct (str_eqb a b) eqn:E;
          [apply str_eqb_eq in E; try rewrite E in *|]
      | |- context [match trim ?x with _ => _ end] => destruct (trim x) eqn:?
      end; simpl; try reflexivity; try discriminate. }
  unfold buildCasusProfileSystemMessage. rewrite length_eqb_0.
  rewrite Hlines. split.
  - destruct (modeLine ++ universLine ++ styleLine) eqn:E.
    + split; [intros _; right|reflexivity].
      apply app_eq_nil in E as [? E]. apply app_eq_nil in E as [? ?]. auto.
    + split; [discriminate|]. intros [H|(H1 & H2 & H3)]; [discriminate|].
      rewrite H1, H2, H3 in E. discriminate.
  - intros msg H.
    destruct (modeLine ++ universLine ++ styleLine); [discriminate|].
    injection H as <-. split; reflexivity.
Qed.

(* ------------------------------------------------------------------ *)
(** ** Placement of the persona and of the profile *)

Lemma findIndex_from_shift {A : Type} (p : A -> bool) (l : list A) (i : Z) :
  findIndex_from i p l = -1 \/ i <= findIndex_from i p l.
Proof.
  revert i. induction l as [|x l IH]; intros i; simpl; [now left|].
  destruct (p x); [right; lia|].
  destruct (IH (i + 1)) as [H|H]; [now left|right; lia].
Qed.

(** The index at which [handleChatRequest] splices the profile in: 0 when
    the list starts with a message that is not a system message, 1
    otherwise. *)
Lemma profile_index (messages : list ChatMessage) :
  let insertAt :=
    Z.min 1 (findIndex (fun m => negb (Role_eqb (role m) system)) messages) in
  (if insertAt =? -1 then 1 else insertAt)
  = match messages with
    | m :: _ => if Role_eqb (role m) system then 1 else 0
    | [] => 1
    end.
Proof.
  destruct messages as [|m rest]; [reflexivity|].
  unfold findIndex. cbn [findIndex_from].
  destruct (Role_eqb (role m) system); cbn [negb]; [|reflexivity].
  destruct (findIndex_from_shift (fun m => negb (Role_eqb (role m) system)) rest (0 + 1))
    as [H|H].
  - rewrite H. reflexivity.
  - rewrite Z.min_l by lia. reflexivity.
Qed.

(** The persona goes first exactly when no incoming system message carries
    the marker phrase; nothing is inserted otherwise. *)
Lemma persona_inserted_iff (messages : list ChatMessage) :
  (existsb isCasusSystem messages = false
   -> composeMessages messages None = mkChatMessage system SYSTEM_PROMPT :: messages)
  /\ (existsb isCasusSystem messages = true
      -> composeMessages messages None = messages).
Proof.
  unfold composeMessages. cbn [buildCasusProfileSystemMessage].
  split; intros ->; reflexivity.
Qed.

(** When the handler inserts the persona itself, or when the incoming list
    starts with a system message, the profile lands at index 1. *)
Lemma profile_after_first_system (messages : list ChatMessage)
    (casus : option CasusProfile) (profile : ChatMessage) :
  buildCasusProfileSystemMessage casus = Some profile ->
  (existsb isCasusSystem messages = false ->
     composeMessages messages casus
     = mkChatMessage system SYSTEM_PROMPT :: profile :: messages)
  /\ (forall m rest, messages = m :: rest -> isCasusSystem m = true ->
        composeMessages messages casus = m :: profile :: rest).
Proof.
  intros Hp. unfold composeMessages. rewrite Hp. split.
  - intros ->. cbn [negb]. cbv zeta. rewrite profile_index. reflexivity.
  - intros m rest -> Hm. cbn [existsb]. rewrite Hm. cbn [orb negb]. cbv zeta.
    rewrite profile_index.
    unfold isCasusSystem in Hm. zbool. rewrite H. reflexivity.
Qed.

(** C3 at an input where the code departs from it.  The incoming list holds
    a user message followed by a system message carrying the marker phrase,
    and the request has a profile: no persona is added (as claimed), but the
    profile is spliced in at index 0, before the user message, and not right
    after the persona. *)
Lemma C3_profile_before_user_message :
  let hello := mkChatMessage user (lit "Bonjour") in
  let persona := mkChatMessage system (lit "Tu es Casus, version courte.") in
  let casus := Some (mkCasusProfile (Some (lit "mj")) None None) in
  let profile := mkChatMessage system (lit "Contexte de partie:" ++ [0x0A] ++ LINE_MJ) in
  buildCasusProfileSystemMessage casus = Some profile
  /\ composeMessages [hello; persona] casus = [profile; hello; persona]
  /\ composeMessages [hello; persona] casus <> [hello; persona; profile]
  /\ forall lowerNonAscii formatUnsafe src,
       handleChatRequest lowerNonAscii formatUnsafe [hello; persona] casus src
       = Returns (ModelStream [profile; hello; persona]) src.
Proof.
  cbv zeta. split; [reflexivity|]. split; [reflexivity|]. split.
  - discriminate.
  - intros. reflexivity.
Qed.

(* ------------------------------------------------------------------ *)
(** ** The dice grammar *)

Lemma takeWhile_dropWhile (f : Z -> bool) (s : jsstring) :
  takeWhile f s ++ dropWhile f s = s.
Proof.
  induction s as [|c s IH]; simpl; [reflexivity|].
  destruct (f c); simpl; [now rewrite IH|reflexivity].
Qed.

Lemma takeWhile_all (f : Z -> bool) (s : jsstring) :
  Forall (fun c => f c = true) (takeWhile f s).
Proof.
  induction s as [|c s IH]; simpl; [constructor|].
  destruct (f c) eqn:E; [constructor; assumption|constructor].
Qed.

Lemma dropWhile_head (f : Z -> bool) (s : jsstring) c rest :
  dropWhile f s = c :: rest -> f c = false.
Proof.
  induction s as [|x s IH]; simpl; [discriminate|].
  destruct (f x) eqn:E; [exact IH|].
  intros H. injection H as -> _. exact E.
Qed.

Lemma span_app (f : Z -> bool) (a b : jsstring) :
  Forall (fun c => f c = true) a ->
  match b with [] => True | c :: _ => f c = false end ->
  takeWhile f (a ++ b) = a /\ dropWhile f (a ++ b) = b.
Proof.
  intros Ha Hb. induction Ha as [|x a Hx Ha IH]; simpl.
  - destruct b as [|c b]; simpl; [auto|]. now rewrite Hb.
  - rewrite Hx. destruct IH as [-> ->]. auto.
Qed.

Lemma isEmpty_true (s : jsstring) : isEmpty s = true <-> s = [].
Proof. destruct s; simpl; split; congruence. Qed.

Lemma isEmpty_false (s : jsstring) : isEmpty s = false <-> s <> [].
Proof. destruct s; simpl; split; congruence. Qed.

Lemma asciiLower_d (d : Z) : asciiLower d = 0x64 <-> d = 0x64 \/ d = 0x44.
Proof.
  unfold asciiLower, isAsciiUpper.
  destruct ((0x41 <=? d) && (d <=? 0x5A)) eqn:E; zbool; lia.
Qed.

Lemma matchDiceExpr_sound (expr c f : jsstring) (m : option jsstring) :
  matchDiceExpr expr = Some (c, f, m) -> DiceExpr expr c f m.
Proof.
  unfold matchDiceExpr.
  pose proof (takeWhile_dropWhile isDigit expr) as He.
  pose proof (takeWhile_all isDigit expr) as Hc.
  remember (takeWhile isDigit expr) as c0 eqn:Hc0. clear Hc0.
  destruct (dropWhile isDigit expr) as [|d r2] eqn:E1; [discriminate|].
  destruct (Z.eqb_spec (asciiLower d) 0x64) as [Hd|]; [|discriminate].
  pose proof (takeWhile_dropWhile isDigit r2) as Hr2.
  pose proof (takeWhile_all isDigit r2) as Hf.
  remember (takeWhile isDigit r2) as f0 eqn:Hf0. clear Hf0.
  destruct (isEmpty f0) eqn:Ef; [discriminate|].
  apply isEmpty_false in Ef.
  destruct (dropWhile isDigit r2) as [|sign r4] eqn:E2.
  - intros H. injection H as <- <- <-.
    rewrite app_nil_r in Hr2. subst r2 expr. now constructor.
  - destruct ((sign =? 0x2B) || (sign =? 0x2D)) eqn:Es; [|discriminate].
    pose proof (takeWhile_dropWhile isDigit r4) as Hr4.
    pose proof (takeWhile_all isDigit r4) as Hg.
    remember (takeWhile isDigit r4) as g0 eqn:Hg0. clear Hg0.
    destruct (isEmpty g0) eqn:Eg; [discriminate|].
    destruct (isEmpty (dropWhile isDigit r4)) eqn:Er; [|discriminate].
    apply isEmpty_false in Eg. apply isEmpty_true in Er.
    cbn [negb andb]. intros H. injection H as <- <- <-.
    rewrite Er, app_nil_r in Hr4. subst r4 r2 expr.
    constructor; auto. zbool. destruct Es; zbool; auto.
Qed.

Lemma matchDiceExpr_complete (expr c f : jsstring) (m : option jsstring) :
  DiceExpr expr c f m -> matchDiceExpr expr = Some (c, f, m).
Proof.
  assert (Hnd : forall d, asciiLower d = 0x64 -> isDigit d = false).
  { intros d Hd. apply asciiLower_d in Hd. destruct Hd; subst; reflexivity. }
  intros H. destruct H as [c f d Hc Hd Hf Hne | c f g d sign Hc Hd Hf Hne Hs Hg Hge];
    unfold matchDiceExpr.
  - destruct (span_app isDigit c (d :: f) Hc (Hnd d Hd)) as [-> ->].
    rewrite Hd, Z.eqb_refl.
    destruct (span_app isDigit f [] Hf I) as [E1 E2].
    rewrite app_nil_r in E1, E2. rewrite E1, E2.
    apply isEmpty_false in Hne. rewrite Hne. reflexivity.
  - destruct (span_app isDigit c (d :: f ++ sign :: g) Hc (Hnd d Hd)) as [-> ->].
    rewrite Hd, Z.eqb_refl.
    assert (Hsd : isDigit sign = false) by (destruct Hs; subst; reflexivity).
    destruct (span_app isDigit f (sign :: g) Hf Hsd) as [-> ->].
    apply isEmpty_false in Hne. rewrite Hne.
    assert (Hsb : (sign =? 0x2B) || (sign =? 0x2D) = true)
      by (destruct Hs; subst; reflexivity).
    rewrite Hsb.
    destruct (span_app isDigit g [] Hg I) as [E1 E2].
    rewrite app_nil_r in E1, E2. rewrite E1, E2.
    apply isEmpty_false in Hge. rewrite Hge. reflexivity.
Qed.

Lemma matchDiceExpr_None (expr : jsstring) :
  matchDiceExpr expr = None <-> forall c f m, ~ DiceExpr expr c f m.
Proof.
  split.
  - intros H c f m HD. apply matchDiceExpr_complete in HD. congruence.
  - intros H. destruct (matchDiceExpr expr) as [[[c f] m]|] eqn:E; [|reflexivity].
    apply matchDiceExpr_sound in E. now apply H in E.
Qed.

Lemma DiceExpr_unique (expr c f c' f' : jsstring) (m m' : option jsstring) :
  DiceExpr expr c f m -> DiceExpr expr c' f' m' -> c = c' /\ f = f' /\ m = m'.
Proof.
  intros H H'. apply matchDiceExpr_complete in H, H'.
  rewrite H in H'. injection H' as -> -> ->. auto.
Qed.

(* ------------------------------------------------------------------ *)
(** ** Drawing the dice *)

Lemma randIntInclusive_loop (faces : Z) (src : list Z) :
  1 <= faces ->
  randIntInclusive 1 faces src
  = rejectionLoop 1 faces (maxUint32 - maxUint32 mod faces) src.
Proof.
  intros H. unfold randIntInclusive.
  replace (faces <? 1) with false by (symmetry; apply Z.ltb_ge; lia).
  replace (faces - 1 + 1) with faces by lia. reflexivity.
Qed.

(** One call skips the rejected draws and consumes the first accepted one;
    it is still looping when there is none. *)
Lemma randIntInclusive_spec (faces : Z) (src : list Z) :
  1 <= faces ->
  match filter (accepts faces) src with
  | [] => randIntInclusive 1 faces src = Starved
  | x :: later =>
      exists src', randIntInclusive 1 faces src = Returns (face faces x) src'
                   /\ filter (accepts faces) src' = later
  end.
Proof.
  intros H. rewrite randIntInclusive_loop by exact H.
  induction src as [|x src IH]; [reflexivity|].
  cbn [filter rejectionLoop]. unfold accepts at 1.
  destruct (x mod 2 ^ 32 <? maxUint32 - maxUint32 mod faces).
  - exists src. split; reflexivity.
  - exact IH.
Qed.

(** [n] calls in a row return the values of the first [n] accepted draws,
    and are waiting for a draw when fewer than [n] are accepted. *)
Lemma rollMany_spec (faces : Z) (n : nat) (src : list Z) :
  1 <= faces ->
  let accepted := filter (accepts faces) src in
  if (n <=? List.length accepted)%nat then
    exists src', rollMany n faces src
                 = Returns (List.map (face faces) (firstn n accepted)) src'
                 /\ filter (accepts faces) src' = skipn n accepted
  else rollMany n faces src = Starved.
Proof.
  intros H. revert src. induction n as [|n IH]; intros src accepted.
  - exists src. split; reflexivity.
  - cbn [rollMany]. pose proof (randIntInclusive_spec faces src H) as H1.
    fold accepted in H1. destruct accepted as [|x later] eqn:E.
    + rewrite H1. reflexivity.
    + destruct H1 as (src1 & -> & Hsrc1).
      specialize (IH src1). cbv zeta in IH. rewrite Hsrc1 in IH.
      change (S n <=? List.length (x :: later))%nat with (n <=? List.length later)%nat.
      destruct (n <=? List.length later)%nat.
      * destruct IH as (src2 & -> & Hsrc2). exists src2. split; [reflexivity|exact Hsrc2].
      * rewrite IH. reflexivity.
Qed.

Lemma rollMany_values (faces : Z) (n : nat) (src src' : list Z) (rolls : list Z) :
  1 <= faces ->
  rollMany n faces src = Returns rolls src' ->
  List.length rolls = n /\ Forall (fun v => 1 <= v <= faces) rolls.
Proof.
  intros H. revert src src' rolls.
  induction n as [|n IH]; intros src src' rolls; cbn [rollMany].
  - intros E. injection E as <- _. split; [reflexivity|constructor].
  - rewrite randIntInclusive_loop by exact H.
    destruct (rejectionLoop 1 faces _ src) as [v src1| |] eqn:E1; try discriminate.
    destruct (rollMany n faces src1) as [vs src2| |] eqn:E2; try discriminate.
    intros E. injection E as <- _. apply IH in E2 as [Hl Hv].
    apply rejectionLoop_range in E1; [|lia].
    split; [simpl; now rewrite Hl|constructor; [lia|exact Hv]].
Qed.

Lemma rollMany_not_Throws (faces : Z) (n : nat) (src : list Z) m :
  1 <= faces -> rollMany n faces src <> Throws m.
Proof.
  intros H. revert src. induction n as [|n IH]; intros src; cbn [rollMany]; [discriminate|].
  rewrite randIntInclusive_loop by exact H.
  destruct (rejectionLoop 1 faces _ src) as [v src1| |] eqn:E1.
  - specialize (IH src1). destruct (rollMany n faces src1); congruence.
  - now apply rejectionLoop_not_Throws in E1.
  - discriminate.
Qed.

(** A draw below [2^32 - 1000] is accepted whatever the number of faces,
    from 1 to 1000. *)
Lemma accepts_small (faces x : Z) :
  1 <= faces <= 1000 -> (x mod 2 ^ 32 <? 2 ^ 32 - 1000) = true -> accepts faces x = true.
Proof.
  intros H Hx. unfold accepts. zbool. apply Z.ltb_lt.
  pose proof (Z.mod_pos_bound maxUint32 faces ltac:(lia)). unfold maxUint32 in *. lia.
Qed.

Lemma filter_length_le {A : Type} (p q : A -> bool) (l : list A) :
  (forall x, p x = true -> q x = true) ->
  (List.length (filter p l) <= List.length (filter q l))%nat.
Proof.
  intros H. induction l as [|x l IH]; simpl; [lia|].
  destruct (p x) eqn:E.
  - rewrite (H x E). simpl. lia.
  - destruct (q x); simpl; lia.
Qed.

Lemma plentiful_accepted (faces : Z) (src : list Z) :
  1 <= faces <= 1000 -> plentiful src ->
  (50 <= List.length (filter (accepts faces) src))%nat.
Proof.
  intros H Hp. unfold plentiful in Hp.
  pose proof (filter_length_le (fun x => x mod 2 ^ 32 <? 2 ^ 32 - 1000) (accepts faces) src
                (fun x => accepts_small faces x H)).
  lia.
Qed.

(* ------------------------------------------------------------------ *)
(** ** The rejection policy of rollDiceCommand *)

Lemma rejectionMessage_head (rj : Rejection) :
  exists c t, rejectionMessage rj = c :: t /\ c <> 0xD83C.
Proof.
  destruct rj; vm_compute; do 2 eexists; (split; [reflexivity|discriminate]).
Qed.

Lemma rejectionMessage_inj (a b : Rejection) :
  rejectionMessage a = rejectionMessage b -> a = b.
Proof.
  destruct a, b; try reflexivity; intros H; exfalso; revert H;
    apply str_eqb_neq; vm_compute; reflexivity.
Qed.

Section DiceProperties.

Variable lowerNonAscii : jsstring -> nat -> jsstring.
Variable formatUnsafe : Z -> jsstring.

Lemma rollText_head (n faces md : Z) (rolls : list Z) :
  exists t, rollText formatUnsafe n faces md rolls = 0xD83C :: t.
Proof. eexists. unfold rollText. cbn [join]. reflexivity. Qed.

Lemma advRollText_head (wantAdv : bool) (a b md : Z) :
  exists t, advRollText formatUnsafe wantAdv a b md = 0xD83C :: t.
Proof. eexists. unfold advRollText. cbn [join]. reflexivity. Qed.

(** The two throws of a roll with advantage are the values of the first two
    accepted draws. *)
Lemma rollAdvantage_spec (wantAdv : bool) (md : Z) (src : list Z) :
  match filter (accepts 20) src with
  | x1 :: x2 :: later =>
      exists src',
        rollAdvantage formatUnsafe wantAdv md src
        = Returns (advRollText formatUnsafe wantAdv (face 20 x1) (face 20 x2) md) src'
        /\ filter (accepts 20) src' = later
  | _ => rollAdvantage formatUnsafe wantAdv md src = Starved
  end.
Proof.
  unfold rollAdvantage.
  pose proof (randIntInclusive_spec 20 src ltac:(lia)) as H1.
  destruct (filter (accepts 20) src) as [|x1 later1]; [now rewrite H1|].
  destruct H1 as (src1 & -> & Hs1).
  pose proof (randIntInclusive_spec 20 src1 ltac:(lia)) as H2.
  rewrite Hs1 in H2.
  destruct later1 as [|x2 later]; [now rewrite H2|].
  destruct H2 as (src2 & -> & Hs2). exists src2. auto.
Qed.

(** The throws of a plain roll are the values of the first [n] accepted
    draws. *)
Lemma rollPlain_spec (n faces md : Z) (src : list Z) :
  1 <= faces ->
  let accepted := filter (accepts faces) src in
  if (Z.to_nat n <=? List.length accepted)%nat then
    exists src',
      rollPlain formatUnsafe n faces md src
      = Returns (rollText formatUnsafe n faces md
                   (List.map (face faces) (firstn (Z.to_nat n) accepted))) src'
      /\ filter (accepts faces) src' = skipn (Z.to_nat n) accepted
  else rollPlain formatUnsafe n faces md src = Starved.
Proof.
  intros H accepted. unfold rollPlain.
  pose proof (rollMany_spec faces (Z.to_nat n) src H) as Hs. cbv zeta in Hs.
  fold accepted in Hs.
  destruct (Z.to_nat n <=? List.length accepted)%nat.
  - destruct Hs as (src' & -> & Hf). exists src'. auto.
  - now rewrite Hs.
Qed.

(** Every command is either rejected, for the reason the policy gives and
    with the random source untouched, or a validated roll that goes to one
    of the two rolling branches. *)
Lemma rollDiceCommand_verdict (input : jsstring) (src : list Z) :
  (exists rj, rejects lowerNonAscii input rj
     /\ rollDiceCommand lowerNonAscii formatUnsafe input src
        = Returns (rejectionMessage rj) src)
  \/ (exists n faces md, validated lowerNonAscii input n faces md
        /\ rollDiceCommand lowerNonAscii formatUnsafe input src
           = if wantsAdvDis lowerNonAscii input
             then rollAdvantage formatUnsafe
                    (testWord (lit "adv") (rollMode lowerNonAscii input)) md src
             else rollPlain formatUnsafe n faces md src).
Proof.
  unfold rollDiceCommand. cbv zeta.
  destruct (isEmpty (rollRest input)) eqn:Er.
  { left. exists Usage. split; [constructor; now apply isEmpty_true|reflexivity]. }
  apply isEmpty_false in Er.
  destruct (matchDiceExpr (rollExpr input)) as [[[c f] m]|] eqn:Em.
  2:{ left. exists BadFormat. split; [|reflexivity].
      constructor; [exact Er|now apply matchDiceExpr_None]. }
  apply matchDiceExpr_sound in Em.
  destruct (countOf c) as [n|] eqn:En, (Number_digits f) as [fc|] eqn:Ef,
           (modifierOf m) as [md|] eqn:Emd;
    try (left; exists NotFinite; split; [|reflexivity];
         eapply rejects_notFinite; [exact Er|exact Em|];
         rewrite En, Ef, Emd; reflexivity).
  assert (Hp : parsesAs input n fc md).
  { split; [exact Er|]. exists c, f, m. auto. }
  unfold rollValidated.
  destruct ((n <? 1) || (50 <? n)) eqn:E1.
  { left. exists CountOutOfRange. split; [|reflexivity].
    eapply rejects_count; [exact Hp|]. zbool. destruct E1; zbool; lia. }
  destruct ((fc <? 2) || (1000 <? fc)) eqn:E2.
  { left. exists FacesOutOfRange. split; [|reflexivity]. zbool.
    eapply rejects_faces; [exact Hp|lia|]. destruct E2; zbool; lia. }
  zbool. cbv zeta. fold (wantsAdvDis lowerNonAscii input).
  destruct (wantsAdvDis lowerNonAscii input) eqn:Ew; cbn [andb].
  - destruct ((n =? 1) && (fc =? 20)) eqn:E3; cbn [negb].
    + right. exists n, fc, md. split; [|reflexivity].
      zbool. split; [exact Hp|]. split; [lia|]. split; [lia|]. right. lia.
    + left. exists AdvDisUnsupported. split; [|reflexivity].
      eapply rejects_advDis; [exact Hp|lia|lia|exact Ew|].
      intros [-> ->]. discriminate.
  - right. exists n, fc, md. split; [|reflexivity].
    split; [exact Hp|]. split; [lia|]. split; [lia|]. left. exact Ew.
Qed.

Lemma parsesAs_unique (input : jsstring) (n faces md n' faces' md' : Z) :
  parsesAs input n faces md -> parsesAs input n' faces' md' ->
  n = n' /\ faces = faces' /\ md = md'.
Proof.
  intros (_ & c & f & m & HD & Hn & Hf & Hm) (_ & c' & f' & m' & HD' & Hn' & Hf' & Hm').
  destruct (DiceExpr_unique _ _ _ _ _ _ _ HD HD') as (-> & -> & ->).
  rewrite Hn in Hn'. rewrite Hf in Hf'. rewrite Hm in Hm'.
  injection Hn' as ->. injection Hf' as ->. injection Hm' as ->. auto.
Qed.

(** A command is rejected for one reason at most, and a validated roll for
    none. *)
Lemma rejects_functional (input : jsstring) (a b : Rejection) :
  rejects lowerNonAscii input a -> rejects lowerNonAscii input b -> a = b.
Proof.
  assert (Hnf : forall c f m n faces md,
             DiceExpr (rollExpr input) c f m -> parsesAs input n faces md ->
             isFinite (countOf c) && isFinite (Number_digits f) && isFinite (modifierOf m)
             = false -> False).
  { intros c f m n faces md HD (_ & c' & f' & m' & HD' & Hn & Hf & Hm) H.
    destruct (DiceExpr_unique _ _ _ _ _ _ _ HD HD') as (-> & -> & ->).
    rewrite Hn, Hf, Hm in H. discriminate. }
  assert (Hfm : forall n faces md,
             parsesAs input n faces md ->
             (forall c f m, ~ DiceExpr (rollExpr input) c f m) -> False).
  { intros n faces md (_ & c & f & m & HD & _) H. exact (H c f m HD). }
  assert (Hus : forall n faces md, parsesAs input n faces md -> rollRest input = [] -> False).
  { intros n faces md (H & _) E. contradiction. }
  intros Ha Hb.
  destruct Ha; destruct Hb; try reflexivity; try contradiction; exfalso;
    repeat match goal with
    | H : DiceExpr _ ?c ?f ?m, H' : forall c f m, ~ DiceExpr _ c f m |- _ =>
        exact (H' c f m H)
    | H : parsesAs input _ _ _, H' : forall c f m, ~ DiceExpr _ c f m |- _ =>
        exact (Hfm _ _ _ H H')
    | H : parsesAs input _ _ _, H' : rollRest input = [] |- _ =>
        exact (Hus _ _ _ H H')
    | H : DiceExpr _ _ _ _, H' : parsesAs input _ _ _,
      H'' : isFinite _ && _ && _ = false |- _ =>
        exact (Hnf _ _ _ _ _ _ H H' H'')
    | H : parsesAs input ?n ?f ?m, H' : parsesAs input ?n' ?f' ?m' |- _ =>
        destruct (parsesAs_unique _ _ _ _ _ _ _ H H') as (? & ? & ?); subst;
        clear H'
    end; try lia; try congruence; tauto.
Qed.

Lemma validated_not_rejected (input : jsstring) (n faces md : Z) (rj : Rejection) :
  validated lowerNonAscii input n faces md -> rejects lowerNonAscii input rj -> False.
Proof.
  intros (Hp & Hn & Hf & Hw) Hr.
  destruct Hr as [E|_ H|c f m _ HD Hfin|n' f' m' Hp' ?|n' f' m' Hp' ? ?|n' f' m' Hp' ? ? ? ?].
  - destruct Hp as (Hp & _). contradiction.
  - destruct Hp as (_ & c & f & m & HD & _). exact (H c f m HD).
  - destruct Hp as (_ & c' & f' & m' & HD' & En & Ef & Em).
    destruct (DiceExpr_unique _ _ _ _ _ _ _ HD HD') as (-> & -> & ->).
    rewrite En, Ef, Em in Hfin. discriminate.
  - destruct (parsesAs_unique _ _ _ _ _ _ _ Hp Hp') as (? & ? & ?); subst. lia.
  - destruct (parsesAs_unique _ _ _ _ _ _ _ Hp Hp') as (? & ? & ?); subst. lia.
  - destruct (parsesAs_unique _ _ _ _ _ _ _ Hp Hp') as (? & ? & ?); subst.
    destruct Hw as [Hw|Hw]; [congruence|tauto].
Qed.

(** The result of a validated roll: never an exception, either a text that
    starts with the die or the wait for a draw; a text when the source is
    plentiful. *)
Lemma validated_roll_result (input : jsstring) (src : list Z) (n faces md : Z) :
  validated lowerNonAscii input n faces md ->
  let result :=
    if wantsAdvDis lowerNonAscii input
    then rollAdvantage formatUnsafe
           (testWord (lit "adv") (rollMode lowerNonAscii input)) md src
    else rollPlain formatUnsafe n faces md src in
  (result = Starved \/ exists t src', result = Returns (0xD83C :: t) src')
  /\ (plentiful src -> exists t src', result = Returns (0xD83C :: t) src').
Proof.
  intros (Hp & Hn & Hf & Hw) result. subst result.
  destruct (wantsAdvDis lowerNonAscii input).
  - pose proof (rollAdvantage_spec
                  (testWord (lit "adv") (rollMode lowerNonAscii input)) md src) as Hs.
    pose proof (fun Hpl => plentiful_accepted 20 src ltac:(lia) Hpl) as Hlen.
    destruct (filter (accepts 20) src) as [|x1 [|x2 later]].
    + split; [now left|]. intros Hpl. apply Hlen in Hpl. simpl in Hpl. lia.
    + split; [now left|]. intros Hpl. apply Hlen in Hpl. simpl in Hpl. lia.
    + destruct Hs as (src' & -> & _).
      destruct (advRollText_head (testWord (lit "adv") (rollMode lowerNonAscii input))
                  (face 20 x1) (face 20 x2) md) as [t ->].
      split; [right|intros _]; eauto.
  - pose proof (rollPlain_spec n faces md src ltac:(lia)) as Hs. cbv zeta in Hs.
    pose proof (fun Hpl => plentiful_accepted faces src ltac:(lia) Hpl) as Hlen.
    destruct (Z.to_nat n <=? List.length (filter (accepts faces) src))%nat eqn:E.
    + destruct Hs as (src' & -> & _).
      destruct (rollText_head n faces md
                  (List.map (face faces)
                     (firstn (Z.to_nat n) (filter (accepts faces) src)))) as [t ->].
      split; [right|intros _]; eauto.
    + split; [now left|]. intros Hpl. apply Hlen in Hpl.
      apply Nat.leb_gt in E. lia.
Qed.

(** C7, as the code has it.  [rollDiceCommand] never throws (the exception
    of [randIntInclusive] is unreachable), and with a plentiful random
    source it returns a text for every input.  It returns a rejection
    message exactly when the policy rejects the input for that reason, the
    checks applying in order: usage (nothing after [/roll]), format (the
    expression is not in the grammar), invalid expression (a number is not
    finite), dice count outside [1,50], faces outside [2,1000], [adv] or
    [dis] on anything but 1d20. *)
Theorem C7_rejection_policy (input : jsstring) (src : list Z) :
  let result := rollDiceCommand lowerNonAscii formatUnsafe input src in
  (forall m, result <> Throws m)
  /\ (forall rj, result = Returns (rejectionMessage rj) src
                 <-> rejects lowerNonAscii input rj)
  /\ (result = Starved -> exists n faces md, validated lowerNonAscii input n faces md)
  /\ (plentiful src -> exists text src', result = Returns text src' /\ text <> []).
Proof.
  intros result.
  destruct (rollDiceCommand_verdict input src) as [(rj & Hrj & E)|(n & faces & md & Hv & E)];
    fold result in E.
  - repeat split.
    + intros m. rewrite E. discriminate.
    + intros H. rewrite E in H. injection H as H.
      apply rejectionMessage_inj in H. now subst.
    + intros H. rewrite E. f_equal. f_equal. exact (rejects_functional _ _ _ Hrj H).
    + rewrite E. discriminate.
    + intros _. exists (rejectionMessage rj), src. split; [exact E|].
      destruct (rejectionMessage_head rj) as (c & t & -> & _). discriminate.
  - destruct (validated_roll_result input src n faces md Hv) as [Hres Hpl].
    cbv zeta in Hres, Hpl. rewrite <- E in Hres, Hpl.
    repeat split.
    + intros m. destruct Hres as [->|(t & src' & ->)]; discriminate.
    + intros H. exfalso.
      destruct Hres as [Hr|(t & src' & Hr)]; rewrite Hr in H; [discriminate|].
      injection H as H _.
      destruct (rejectionMessage_head rj) as (c & t' & Hc & Hne).
      rewrite Hc in H. injection H as H _. congruence.
    + intros H. exfalso. exact (validated_not_rejected _ _ _ _ _ Hv H).
    + intros _. eauto.
    + intros H. destruct (Hpl H) as (t & src' & ->).
      exists (0xD83C :: t), src'. split; [reflexivity|discriminate].
Qed.

(* ------------------------------------------------------------------ *)
(** ** What a roll reports *)

Lemma roundToDouble_exact (v : Z) : Z.abs v < 2 ^ 53 -> roundToDouble v = Finite v.
Proof.
  intros H. unfold roundToDouble. cbv zeta.
  replace (Z.abs v <? 2 ^ 53) with true by (symmetry; apply Z.ltb_lt; exact H).
  reflexivity.
Qed.

Lemma number_add_exact (a b : Z) :
  Z.abs (a + b) < 2 ^ 53 -> number_add (Finite a) (Finite b) = Finite (a + b).
Proof. intros H. unfold number_add. now apply roundToDouble_exact. Qed.

Lemma face_range (faces x : Z) : 1 <= faces -> 1 <= face faces x <= faces.
Proof.
  intros H. unfold face.
  pose proof (Z.mod_pos_bound (x mod 2 ^ 32) faces ltac:(lia)). lia.
Qed.

Lemma sum_bounds (faces : Z) (rolls : list Z) (acc : Z) :
  Forall (fun v => 1 <= v <= faces) rolls ->
  acc + Z.of_nat (List.length rolls) <= fold_left Z.add rolls acc
  <= acc + Z.of_nat (List.length rolls) * faces.
Proof.
  intros H. revert acc. induction H as [|v rolls Hv H IH]; intros acc.
  - simpl. lia.
  - cbn [fold_left List.length]. specialize (IH (acc + v)).
    rewrite Nat2Z.inj_succ. nia.
Qed.

(** A validated command goes to the branch its mode selects. *)
Lemma rollDiceCommand_validated (input : jsstring) (src : list Z) (n faces md : Z) :
  validated lowerNonAscii input n faces md ->
  rollDiceCommand lowerNonAscii formatUnsafe input src
  = if wantsAdvDis lowerNonAscii input
    then rollAdvantage formatUnsafe
           (testWord (lit "adv") (rollMode lowerNonAscii input)) md src
    else rollPlain formatUnsafe n faces md src.
Proof.
  intros Hv.
  destruct (rollDiceCommand_verdict input src)
    as [(rj & Hrj & _)|(n' & faces' & md' & Hv' & E)].
  - exfalso. exact (validated_not_rejected _ _ _ _ _ Hv Hrj).
  - destruct Hv as (Hp & _), Hv' as (Hp' & _).
    destruct (parsesAs_unique _ _ _ _ _ _ _ Hp Hp') as (-> & -> & ->). exact E.
Qed.

(** C2, as the code has it.  For a valid command [/roll NdM+K] without
    [adv] or [dis], [N] in [1,50], [M] in [2,1000] and a modifier [K] small
    enough for the arithmetic on doubles to be exact, the interpreter takes
    the first [N] draws the die accepts, each giving a value in [1,M], and
    reports as total the sum of these [N] values plus [K]; it waits for a
    draw as long as fewer than [N] draws are accepted. *)
Theorem C2_roll_total (input : jsstring) (src : list Z) (N M K : Z) :
  parsesAs input N M K ->
  wantsAdvDis lowerNonAscii input = false ->
  1 <= N <= 50 -> 2 <= M <= 1000 -> Z.abs K + 50000 < 2 ^ 53 ->
  let accepted := filter (accepts M) src in
  let rolls := List.map (face M) (firstn (Z.to_nat N) accepted) in
  let sum := fold_left Z.add rolls 0 in
  ((Z.to_nat N <= List.length accepted)%nat ->
     Z.of_nat (List.length rolls) = N
     /\ Forall (fun v => 1 <= v <= M) rolls
     /\ exists src',
          rollDiceCommand lowerNonAscii formatUnsafe input src
          = Returns
              (join [0x0A] [
                 lit "🎲 /roll " ++ Number_toString formatUnsafe (Finite N) ++ lit "d"
                   ++ Number_toString formatUnsafe (Finite M) ++ modStr formatUnsafe K;
                 lit "Jets: "
                   ++ join (lit ", ")
                        (List.map (fun v => Number_toString formatUnsafe (Finite v)) rolls)
                   ++ modNote formatUnsafe K;
                 lit "Total: " ++ Number_toString formatUnsafe (Finite (sum + K)) ])
              src'
          /\ filter (accepts M) src' = skipn (Z.to_nat N) accepted)
  /\ ((List.length accepted < Z.to_nat N)%nat ->
        rollDiceCommand lowerNonAscii formatUnsafe input src = Starved).
Proof.
  intros Hp Hw HN HM HK accepted rolls sum.
  assert (Hv : validated lowerNonAscii input N M K).
  { split; [exact Hp|]. split; [lia|]. split; [lia|]. now left. }
  rewrite (rollDiceCommand_validated input src N M K Hv), Hw.
  pose proof (rollPlain_spec N M K src ltac:(lia)) as Hs. cbv zeta in Hs.
  fold accepted in Hs. fold rolls in Hs.
  split.
  - intros Hlen.
    replace (Z.to_nat N <=? List.length accepted)%nat with true in Hs
      by (symmetry; apply Nat.leb_le; exact Hlen).
    assert (Hl : List.length rolls = Z.to_nat N).
    { unfold rolls. rewrite length_map. apply firstn_length_le. exact Hlen. }
    assert (Hr : Forall (fun v => 1 <= v <= M) rolls).
    { unfold rolls. apply Forall_map, Forall_forall. intros x _.
      apply face_range. lia. }
    split; [rewrite Hl; lia|]. split; [exact Hr|].
    destruct Hs as (src' & -> & Hf). exists src'. split; [|exact Hf].
    unfold rollText. cbv zeta. fold sum.
    rewrite number_add_exact; [reflexivity|].
    pose proof (sum_bounds M rolls 0 Hr) as Hb. fold sum in Hb.
    rewrite Hl in Hb. nia.
  - intros Hlen.
    replace (Z.to_nat N <=? List.length accepted)%nat with false in Hs
      by (symmetry; apply Nat.leb_gt; exact Hlen).
    exact Hs.
Qed.

(** C6, as the code has it.  For a valid [1d20] command whose mode holds
    [adv] or [dis] as a word, and a modifier [K] small enough for the
    arithmetic on doubles to be exact, the interpreter takes the first two
    draws the d20 accepts, [a] and [b] in [1,20], keeps [max(a,b)] when
    [adv] is there and [min(a,b)] otherwise, and reports the kept value and
    the total kept + [K]; it waits for a draw as long as fewer than two
    draws are accepted. *)
Theorem C6_advantage_disadvantage (input : jsstring) (src : list Z) (K : Z) :
  parsesAs input 1 20 K ->
  wantsAdvDis lowerNonAscii input = true ->
  Z.abs K + 20 < 2 ^ 53 ->
  let wantAdv := testWord (lit "adv") (rollMode lowerNonAscii input) in
  match filter (accepts 20) src with
  | x1 :: x2 :: later =>
      let a := face 20 x1 in
      let b := face 20 x2 in
      let kept := if wantAdv then Z.max a b else Z.min a b in
      1 <= a <= 20 /\ 1 <= b <= 20
      /\ exists src',
           rollDiceCommand lowerNonAscii formatUnsafe input src
           = Returns
               (join [0x0A] [
                  lit "🎲 /roll 1d20 " ++ (if wantAdv then lit "adv" else lit "dis")
                    ++ modStr formatUnsafe K;
                  lit "Jets: " ++ Number_toString formatUnsafe (Finite a) ++ lit ", "
                    ++ Number_toString formatUnsafe (Finite b) ++ lit " → gardé: "
                    ++ Number_toString formatUnsafe (Finite kept)
                    ++ modNote formatUnsafe K;
                  lit "Total: " ++ Number_toString formatUnsafe (Finite (kept + K)) ])
               src'
           /\ filter (accepts 20) src' = later
  | _ => rollDiceCommand lowerNonAscii formatUnsafe input src = Starved
  end.
Proof.
  intros Hp Hw HK wantAdv.
  assert (Hv : validated lowerNonAscii input 1 20 K).
  { split; [exact Hp|]. split; [lia|]. split; [lia|]. right. lia. }
  rewrite (rollDiceCommand_validated input src 1 20 K Hv), Hw. fold wantAdv.
  pose proof (rollAdvantage_spec wantAdv K src) as Hs.
  destruct (filter (accepts 20) src) as [|x1 [|x2 later]]; try exact Hs.
  cbv zeta.
  pose proof (face_range 20 x1 ltac:(lia)) as Ha.
  pose proof (face_range 20 x2 ltac:(lia)) as Hb.
  split; [exact Ha|]. split; [exact Hb|].
  destruct Hs as (src' & -> & Hf). exists src'. split; [|exact Hf].
  unfold advRollText. cbv zeta.
  rewrite number_add_exact; [reflexivity|].
  destruct wantAdv; lia.
Qed.

End DiceProperties.

(* ------------------------------------------------------------------ *)
(** ** Commands as they are typed *)

Lemma trimStart_all_kept (s : jsstring) :
  Forall (fun c => isWhiteSpace c = false) s -> trimStart s = s.
Proof. intros H. destruct H as [|c s Hc _]; simpl; [reflexivity|now rewrite Hc]. Qed.

Lemma trim_all_kept (s : jsstring) :
  Forall (fun c => isWhiteSpace c = false) s -> trim s = s.
Proof.
  intros H. unfold trim, trimEnd. rewrite (trimStart_all_kept s H).
  rewrite trimStart_all_kept by (apply Forall_rev; exact H).
  apply rev_involutive.
Qed.

Lemma split_ws_one_token (s : jsstring) :
  Forall (fun c => isWhiteSpace c = false) s -> split_ws s = [s].
Proof.
  unfold split_ws. intros H. induction H as [|c s Hc _ IH]; simpl; [reflexivity|].
  now rewrite Hc, IH.
Qed.

Lemma printable_not_white (c : Z) : 0x21 <= c <= 0x7E -> isWhiteSpace c = false.
Proof.
  intros H. destruct (isWhiteSpace c) eqn:E; [exfalso|reflexivity].
  unfold isWhiteSpace in E.
  repeat (apply orb_true_iff in E; destruct E as [E|E]); zbool; lia.
Qed.

Lemma DiceExpr_no_white (expr c f : jsstring) (m : option jsstring) :
  DiceExpr expr c f m ->
  expr <> [] /\ Forall (fun x => isWhiteSpace x = false) expr.
Proof.
  assert (Hd : forall s, isDigits s -> Forall (fun x => isWhiteSpace x = false) s).
  { intros s H. eapply Forall_impl; [|exact H]. intros x Hx.
    unfold isDigit in Hx. zbool. apply printable_not_white. lia. }
  assert (Hl : forall d, asciiLower d = 0x64 -> isWhiteSpace d = false).
  { intros d H. apply asciiLower_d in H. apply printable_not_white. lia. }
  intros H. destruct H as [c f d Hc Hdd Hf Hne | c f g d sign Hc Hdd Hf Hne Hs Hg Hge].
  - split; [destruct c; discriminate|].
    apply Forall_app. split; [auto|]. constructor; auto.
  - split; [destruct c; discriminate|].
    apply Forall_app. split; [auto|]. constructor; [auto|].
    apply Forall_app. split; [auto|]. constructor; [|auto].
    apply printable_not_white. lia.
Qed.

(** [/roll], a space and an expression of the grammar: the command parses as
    that expression and asks for neither [adv] nor [dis]. *)
Lemma typed_command_parses (expr c f : jsstring) (m : option jsstring) (N M K : Z) :
  DiceExpr expr c f m ->
  countOf c = Finite N -> Number_digits f = Finite M -> modifierOf m = Finite K ->
  parsesAs (lit "/roll " ++ expr) N M K
  /\ forall lowerNonAscii, wantsAdvDis lowerNonAscii (lit "/roll " ++ expr) = false.
Proof.
  intros HD HN HM HK.
  destruct (DiceExpr_no_white _ _ _ _ HD) as [Hne Hw].
  assert (Hrest : rollRest (lit "/roll " ++ expr) = expr).
  { unfold rollRest.
    change (lit "/roll " ++ expr) with (0x2F :: 0x72 :: 0x6F :: 0x6C :: 0x6C :: 0x20 :: expr).
    change (startsWith_ci _ (lit "/roll")) with true. cbn [skipn].
    unfold trim. change (trimStart (0x20 :: expr)) with (trimStart expr).
    apply (trim_all_kept expr Hw). }
  split.
  - split; [now rewrite Hrest|]. exists c, f, m.
    unfold rollExpr. rewrite Hrest, (split_ws_one_token expr Hw). auto.
  - intros lowerNonAscii. unfold wantsAdvDis, rollMode.
    rewrite Hrest, (split_ws_one_token expr Hw). reflexivity.
Qed.

(** C2 at [/roll 2d6+1], the oracle giving 0, 7 and 3. *)
Lemma C2_witness_2d6_plus_1 :
  parsesAs (lit "/roll 2d6+1") 2 6 1
  /\ exists src',
       rollDiceCommand (fun _ _ => []) (fun _ => []) (lit "/roll 2d6+1") [0; 7; 3]
       = Returns (lit "🎲 /roll 2d6+1
Jets: 1, 2 (+1)
Total: 4") src'.
Proof.
  assert (Hp : parsesAs (lit "/roll 2d6+1") 2 6 1).
  { split; [vm_compute; discriminate|].
    exists (lit "2"), (lit "6"), (Some (lit "+1")).
    split; [apply matchDiceExpr_sound; vm_compute; reflexivity|].
    repeat split; reflexivity. }
  split; [exact Hp|].
  destruct (C2_roll_total (fun _ _ => []) (fun _ => []) (lit "/roll 2d6+1") [0; 7; 3]
              2 6 1 Hp eq_refl ltac:(lia) ltac:(lia) ltac:(reflexivity)) as [H _].
  destruct (H ltac:(vm_compute; lia)) as (_ & _ & src' & E & _).
  exists src'. rewrite E. vm_compute. reflexivity.
Defined.

(** C2 as stated fails for a modifier that is not a double: it is rounded
    when it is read, and the total reported is the sum plus the rounded
    modifier. *)
Lemma C2_modifier_is_rounded :
  let K := -9007199254740993 in
  (forall lowerNonAscii formatUnsafe,
     rollDiceCommand lowerNonAscii formatUnsafe
       (lit "/roll 1d2-9007199254740993") [0]
     = Returns (lit "🎲 /roll 1d2-9007199254740992
Jets: 1 (-9007199254740992)
Total: -9007199254740991") [])
  /\ 1 + K = -9007199254740992
  /\ 1 + K <> -9007199254740991.
Proof.
  cbv zeta. split; [|split; [reflexivity|discriminate]].
  intros. vm_compute. reflexivity.
Qed.

(** C6 at [/roll 1d20+3 adv], the oracle giving 4 and 18. *)
Lemma C6_witness_adv :
  parsesAs (lit "/roll 1d20+3 adv") 1 20 3
  /\ (exists src',
        rollDiceCommand (fun _ _ => []) (fun _ => []) (lit "/roll 1d20+3 adv") [4; 18]
        = Returns (lit "🎲 /roll 1d20 adv+3
Jets: 5, 19 → gardé: 19 (+3)
Total: 22") src').
Proof.
  assert (Hp : parsesAs (lit "/roll 1d20+3 adv") 1 20 3).
  { split; [vm_compute; discriminate|].
    exists (lit "1"), (lit "20"), (Some (lit "+3")).
    split; [apply matchDiceExpr_sound; vm_compute; reflexivity|].
    repeat split; reflexivity. }
  split; [exact Hp|].
  pose proof (C6_advantage_disadvantage (fun _ _ => []) (fun _ => [])
                (lit "/roll 1d20+3 adv") [4; 18] 3 Hp eq_refl ltac:(reflexivity)) as H.
  cbv zeta in H.
  change (filter (accepts 20) [4; 18]) with [4; 18] in H.
  destruct H as (_ & _ & src' & E & _).
  exists src'. rewrite E. vm_compute. reflexivity.
Defined.

(** C6 as stated fails for a modifier that is not a double: the total
    reported is the kept value plus the rounded modifier. *)
Lemma C6_modifier_is_rounded :
  let K := -9007199254740993 in
  (forall lowerNonAscii formatUnsafe,
     rollDiceCommand lowerNonAscii formatUnsafe
       (lit "/roll 1d20-9007199254740993 adv") [0; 0]
     = Returns (lit "🎲 /roll 1d20 adv-9007199254740992
Jets: 1, 1 → gardé: 1 (-9007199254740992)
Total: -9007199254740991") [])
  /\ Z.max 1 1 + K = -9007199254740992
  /\ Z.max 1 1 + K <> -9007199254740991.
Proof.
  cbv zeta. split; [|split; [reflexivity|discriminate]].
  intros. vm_compute. reflexivity.
Qed.

(** C7 as stated fails where an earlier check decides: a dice count that is
    not finite gets the invalid-expression message, not a range error, and
    [adv] on [0d6] gets the range error of the count, not the
    unsupported-combination message. *)
Lemma C7_earlier_check_decides :
  let huge := lit "1" ++ repeat 0x30 309 in
  (forall lowerNonAscii formatUnsafe src,
     rollDiceCommand lowerNonAscii formatUnsafe (lit "/roll " ++ huge ++ lit "d6") src
     = Returns MSG_INVALID src)
  /\ digitsValue huge = 10 ^ 309
  /\ MSG_INVALID <> MSG_COUNT_RANGE
  /\ (forall lowerNonAscii formatUnsafe src,
        rollDiceCommand lowerNonAscii formatUnsafe (lit "/roll 0d6 adv") src
        = Returns MSG_COUNT_RANGE src)
  /\ (forall lowerNonAscii, wantsAdvDis lowerNonAscii (lit "/roll 0d6 adv") = true)
  /\ MSG_COUNT_RANGE <> MSG_ADV_UNSUPPORTED.
Proof.
  cbv zeta. repeat split;
    try (intros; vm_compute; reflexivity);
    apply str_eqb_neq; vm_compute; reflexivity.
Qed.

(* ------------------------------------------------------------------ *)
(** ** Interception of commands *)

Lemma isUser_iff (m : ChatMessage) : isUser m = true <-> role m = user.
Proof. unfold isUser. destruct (role m); simpl; split; congruence. Qed.

Lemma find_last_user (messages : list ChatMessage) :
  match find isUser (rev messages) with
  | Some m => lastUserIs messages m
  | None => Forall (fun x => role x <> user) messages
  end.
Proof.
  induction messages as [|x messages IH] using rev_ind; [constructor|].
  rewrite rev_app_distr. cbn [rev app find].
  destruct (isUser x) eqn:Ex.
  - exists messages, []. split; [reflexivity|]. split; [now apply isUser_iff|constructor].
  - assert (Hx : role x <> user).
    { intros H. apply isUser_iff in H. congruence. }
    destruct (find isUser (rev messages)) as [m|].
    + destruct IH as (before & after & -> & Hm & Ha).
      exists before, (after ++ [x]). split; [now rewrite <- app_assoc|].
      split; [exact Hm|]. apply Forall_app. split; [exact Ha|]. constructor; auto.
    + apply Forall_app. split; [exact IH|]. constructor; auto.
Qed.

Lemma lastUserIs_unique (messages : list ChatMessage) (m m' : ChatMessage) :
  lastUserIs messages m -> lastUserIs messages m' -> m = m'.
Proof.
  intros (b & a & E & Hm & Ha) (b' & a' & E' & Hm' & Ha').
  rewrite E in E'. clear E. revert b' E'.
  induction b as [|x b IH]; intros [|x' b'] E'; cbn [app] in E'.
  - now injection E'.
  - injection E' as -> ->. exfalso.
    apply Forall_app in Ha as [_ Ha]. inversion Ha; subst. contradiction.
  - injection E' as -> <-. exfalso.
    apply Forall_app in Ha' as [_ Ha']. inversion Ha'; subst. contradiction.
  - injection E' as -> E'. exact (IH b' E').
Qed.

Section ChatProperties.

Variable lowerNonAscii : jsstring -> nat -> jsstring.
Variable formatUnsafe : Z -> jsstring.

(** [rollDiceCommand] gives a text that is not empty, or waits for a draw;
    with a plentiful source it gives a text. *)
Lemma rollDiceCommand_result (input : jsstring) (src : list Z) :
  let result := rollDiceCommand lowerNonAscii formatUnsafe input src in
  (result = Starved \/ exists c t src', result = Returns (c :: t) src')
  /\ (plentiful src -> exists c t src', result = Returns (c :: t) src').
Proof.
  intros result.
  destruct (rollDiceCommand_verdict lowerNonAscii formatUnsafe input src)
    as [(rj & _ & E)|(n & faces & md & Hv & E)]; fold result in E.
  - destruct (rejectionMessage_head rj) as (c & t & Hc & _). rewrite Hc in E.
    split; [right|intros _]; eauto.
  - destruct (validated_roll_result lowerNonAscii formatUnsafe input src n faces md Hv)
      as [Hres Hpl].
    cbv zeta in Hres, Hpl. rewrite <- E in Hres, Hpl.
    split.
    + destruct Hres as [?|(t & src' & ?)]; [now left|right; eauto].
    + intros H. destruct (Hpl H) as (t & src' & ?). eauto.
Qed.

Lemma handleCommand_spec (raw : jsstring) (src : list Z) :
  let result := handleCommand lowerNonAscii formatUnsafe raw src in
  if isCommand lowerNonAscii raw then
    (result = Starved \/ exists c t src', result = Returns (Some (c :: t)) src')
    /\ (plentiful src -> exists c t src', result = Returns (Some (c :: t)) src')
  else result = Returns None src.
Proof.
  unfold handleCommand, isCommand. cbv zeta.
  destruct (str_eqb (toLowerCase lowerNonAscii (trim raw)) (lit "/help")); cbn [orb].
  - split; [right|intros _]; exists 0x43; eexists; eexists; reflexivity.
  - destruct (startsWith (toLowerCase lowerNonAscii (trim raw)) (lit "/roll"));
      [|reflexivity].
    destruct (rollDiceCommand_result (trim raw) src) as [Hres Hpl].
    cbv zeta in Hres, Hpl. split.
    + destruct Hres as [->|(c & t & src' & ->)]; [now left|right; eauto].
    + intros H. destruct (Hpl H) as (c & t & src' & ->). eauto.
Qed.

(** C10.  The handler looks at the last message of role user only.  The
    request goes to the model exactly when that message is not a command
    (and when there is no user message at all); it is answered with the
    local event stream only when that message is a command, and is so
    answered whenever it is and the random source is plentiful; commands in
    earlier messages change nothing, and no command ends in the error
    response. *)
Theorem C10_last_user_message_decides (messages : list ChatMessage)
    (casus : option CasusProfile) (src : list Z) :
  let result := handleChatRequest lowerNonAscii formatUnsafe messages casus src in
  let lastUserIsCommand :=
    exists m, lastUserIs messages m /\ isCommand lowerNonAscii (content m) = true in
  ((exists ms src', result = Returns (ModelStream ms) src') <-> ~ lastUserIsCommand)
  /\ (~ lastUserIsCommand ->
        result = Returns (ModelStream (composeMessages messages casus)) src)
  /\ ((exists text src', result = Returns (SseText text) src') -> lastUserIsCommand)
  /\ (lastUserIsCommand -> plentiful src ->
        exists text src', result = Returns (SseText text) src')
  /\ (forall src', result <> Returns Error500 src')
  /\ ((forall m, In m messages -> role m <> user) ->
        result = Returns (ModelStream (composeMessages messages casus)) src).
Proof.
  intros result lastUserIsCommand.
  pose proof (find_last_user messages) as Hfind.
  unfold handleChatRequest in result.
  destruct (find isUser (rev messages)) as [m|] eqn:Ef.
  - pose proof (handleCommand_spec (content m) src) as Hc. cbv zeta in Hc.
    destruct (isCommand lowerNonAscii (content m)) eqn:Ecmd.
    + assert (Hyes : lastUserIsCommand) by (exists m; auto).
      destruct Hc as [Hres Hpl].
      assert (Hcases : result = Starved
                       \/ exists c t src', result = Returns (SseText (c :: t)) src').
      { subst result. destruct Hres as [->|(c & t & src' & ->)]; [now left|right; eauto]. }
      repeat split.
      * intros (ms & src' & E). exfalso.
        destruct Hcases as [H|(c & t & s' & H)]; rewrite H in E; discriminate.
      * intros H. contradiction.
      * intros H. contradiction.
      * intros _. exact Hyes.
      * intros _ Hp. destruct (Hpl Hp) as (c & t & src' & E).
        exists (c :: t), src'. subst result. now rewrite E.
      * intros src' E.
        destruct Hcases as [H|(c & t & s' & H)]; rewrite H in E; discriminate.
      * intros Hno. exfalso. destruct Hfind as (b & a & -> & Hm & _).
        apply (Hno m); [apply in_elt|exact Hm].
    + assert (Hno : ~ lastUserIsCommand).
      { intros (m' & Hm' & Hc'). rewrite (lastUserIs_unique _ _ _ Hm' Hfind) in Hc'.
        congruence. }
      assert (E : result = Returns (ModelStream (composeMessages messages casus)) src).
      { subst result. now rewrite Hc. }
      repeat split; try (intros; exact E); try contradiction.
      * intros _. exact Hno.
      * intros _. eauto.
      * intros (text & src' & E'). rewrite E in E'. discriminate.
      * intros src'. rewrite E. discriminate.
  - assert (Hno : ~ lastUserIsCommand).
    { intros (m' & (b & a & -> & Hm' & _) & _).
      apply Forall_app in Hfind as [_ Hfind]. inversion Hfind; subst. contradiction. }
    assert (E : result = Returns (ModelStream (composeMessages messages casus)) src)
      by reflexivity.
    repeat split; try (intros; exact E); try contradiction.
    + intros _. exact Hno.
    + intros _. eauto.
    + intros (text & src' & E'). rewrite E in E'. discriminate.
    + intros src'. rewrite E. discriminate.
Qed.

End ChatProperties.

(* ------------------------------------------------------------------ *)
(** ** Blank-line boundaries *)

Lemma startsWith_app_l (a b p : jsstring) :
  startsWith a p = true -> startsWith (a ++ b) p = true.
Proof.
  intros H. apply startsWith_iff in H as [t ->]. rewrite <- app_assoc.
  apply startsWith_app.
Qed.

(** [indexOf] and the slices of [consumeSseEvents] find the first boundary. *)
Lemma indexOf_splitBoundary (s : jsstring) (k : Z) :
  match splitBoundary s with
  | None => indexOf_from k s [0x0A; 0x0A] = -1
  | Some (pre, post) =>
      indexOf_from k s [0x0A; 0x0A] = k + Z.of_nat (List.length pre)
      /\ s = pre ++ [0x0A; 0x0A] ++ post
  end.
Proof.
  revert k. induction s as [|a s IH]; intros k; [reflexivity|].
  destruct s as [|b rest].
  - cbn [splitBoundary indexOf_from startsWith]. now rewrite andb_false_r.
  - change (splitBoundary (a :: b :: rest))
      with (if (a =? 0x0A) && (b =? 0x0A) then Some ([], rest)
            else match splitBoundary (b :: rest) with
                 | Some (pre, post) => Some (a :: pre, post)
                 | None => None
                 end).
    change (indexOf_from k (a :: b :: rest) [0x0A; 0x0A])
      with (if (0x0A =? a) && ((0x0A =? b) && true) then k
            else indexOf_from (k + 1) (b :: rest) [0x0A; 0x0A]).
    rewrite (Z.eqb_sym 0x0A a), (Z.eqb_sym 0x0A b), andb_true_r.
    destruct ((a =? 0x0A) && (b =? 0x0A)) eqn:E.
    + zbool. subst. split; [simpl; lia|reflexivity].
    + specialize (IH (k + 1)).
      destruct (splitBoundary (b :: rest)) as [[pre post]|].
      * destruct IH as [-> ->]. split; [cbn [List.length]; lia|reflexivity].
      * exact IH.
Qed.

Lemma slices_at_boundary (pre post : jsstring) :
  slice_to (pre ++ [0x0A; 0x0A] ++ post) (0 + Z.of_nat (List.length pre)) = pre
  /\ slice_from (pre ++ [0x0A; 0x0A] ++ post) (0 + Z.of_nat (List.length pre) + 2) = post.
Proof.
  unfold slice_to, slice_from. split.
  - rewrite Z.add_0_l, Nat2Z.id. rewrite firstn_app, Nat.sub_diag, firstn_all.
    simpl. apply app_nil_r.
  - replace (Z.to_nat (0 + Z.of_nat (List.length pre) + 2))
      with (List.length pre + 2)%nat by lia.
    rewrite skipn_app. rewrite skipn_all2 by lia.
    replace (List.length pre + 2 - List.length pre)%nat with 2%nat by lia.
    reflexivity.
Qed.

Lemma splitBoundary_shorter (s pre post : jsstring) :
  splitBoundary s = Some (pre, post) ->
  (List.length post + 2 <= List.length s)%nat.
Proof.
  intros H. pose proof (indexOf_splitBoundary s 0) as Hs. rewrite H in Hs.
  destruct Hs as [_ ->]. rewrite !length_app. simpl. lia.
Qed.

(** One turn of the loop of [consumeSseEvents]. *)
Lemma consumeLoop_step (fuel : nat) (n : jsstring) (evs : list jsstring) :
  consumeLoop (S fuel) n evs
  = match splitBoundary n with
    | None => mkSseParse evs n
    | Some (pre, post) =>
        consumeLoop fuel post
          (if Z.of_nat (List.length (dataLinesOf pre)) =? 0 then evs
           else evs ++ [join [0x0A] (dataLinesOf pre)])
    end.
Proof.
  cbn [consumeLoop]. unfold indexOf.
  pose proof (indexOf_splitBoundary n 0) as Hs.
  destruct (splitBoundary n) as [[pre post]|].
  - destruct Hs as [Hi Hn]. rewrite Hi.
    replace (0 + Z.of_nat (List.length pre) =? -1) with false
      by (symmetry; apply Z.eqb_neq; lia).
    subst n.
    destruct (slices_at_boundary pre post) as [-> ->].
    destruct (Z.of_nat (List.length (dataLinesOf pre)) =? 0); reflexivity.
  - rewrite Hs. reflexivity.
Qed.

Lemma consumeLoop_events (fuel : nat) (n : jsstring) (evs : list jsstring) :
  consumeLoop fuel n evs
  = mkSseParse (evs ++ parsed_events (consumeLoop fuel n []))
               (parsed_buffer (consumeLoop fuel n [])).
Proof.
  revert n evs. induction fuel as [|fuel IH]; intros n evs.
  - simpl. now rewrite app_nil_r.
  - rewrite !consumeLoop_step.
    destruct (splitBoundary n) as [[pre post]|]; [|simpl; now rewrite app_nil_r].
    destruct (Z.of_nat (List.length (dataLinesOf pre)) =? 0).
    + apply IH.
    + rewrite (IH post (evs ++ _)), (IH post ([] ++ _)).
      cbn [parsed_events parsed_buffer]. now rewrite <- !app_assoc.
Qed.

(** The fuel [consumeSseEvents] gives the loop is enough: more changes
    nothing. *)
Lemma consumeLoop_fuel (fuel : nat) (n : jsstring) (evs : list jsstring) :
  (List.length n <= fuel)%nat ->
  consumeLoop fuel n evs = consumeLoop (List.length n) n evs.
Proof.
  revert n evs.
  induction fuel as [fuel IH] using (well_founded_induction lt_wf). intros n evs Hf.
  destruct (splitBoundary n) as [[pre post]|] eqn:E.
  - pose proof (splitBoundary_shorter n pre post E) as Hl.
    destruct fuel as [|fuel]; [lia|].
    destruct (List.length n) as [|ln] eqn:El; [lia|].
    rewrite !consumeLoop_step, E.
    rewrite (IH fuel) by lia. symmetry. rewrite (IH ln) by lia. reflexivity.
  - destruct fuel as [|fuel], (List.length n) as [|ln];
      rewrite ?consumeLoop_step, ?E; reflexivity.
Qed.

(** [consumeSseEvents] on a text without CR, one boundary at a time. *)
Lemma consumeSseEvents_unfold (n : jsstring) :
  removeCR n = n ->
  consumeSseEvents n
  = match splitBoundary n with
    | None => mkSseParse [] n
    | Some (pre, post) => withEvent (dataLinesOf pre) (consumeSseEvents post)
    end.
Proof.
  intros Hn. unfold consumeSseEvents. rewrite Hn.
  destruct (splitBoundary n) as [[pre post]|] eqn:E.
  - pose proof (splitBoundary_shorter n pre post E) as Hl.
    assert (Hpost : removeCR post = post).
    { pose proof (indexOf_splitBoundary n 0) as Hs. rewrite E in Hs.
      destruct Hs as [_ Hs]. rewrite Hs, !removeCR_app in Hn.
      apply removeCR_id. intros Hin.
      pose proof (removeCR_no_CR (pre ++ [0x0A; 0x0A] ++ post)) as Hno.
      rewrite !removeCR_app, Hn in Hno. apply Hno.
      apply in_or_app. right. apply in_or_app. now right. }
    rewrite Hpost.
    destruct (List.length n) as [|ln] eqn:El; [lia|].
    rewrite consumeLoop_step, E. unfold withEvent.
    destruct (Z.of_nat (List.length (dataLinesOf pre)) =? 0).
    + apply consumeLoop_fuel. lia.
    + rewrite consumeLoop_events. rewrite (consumeLoop_fuel ln post []) by lia.
      reflexivity.
  - destruct (List.length n); [reflexivity|]. now rewrite consumeLoop_step, E.
Qed.

Lemma splitBoundary_app (a b pre post : jsstring) :
  splitBoundary a = Some (pre, post) ->
  splitBoundary (a ++ b) = Some (pre, post ++ b).
Proof.
  revert pre. induction a as [|x a IH]; intros pre H; [discriminate|].
  destruct a as [|y a]; [discriminate|].
  change (splitBoundary (x :: y :: a))
    with (if (x =? 0x0A) && (y =? 0x0A) then Some ([], a)
          else match splitBoundary (y :: a) with
               | Some (pre, post) => Some (x :: pre, post)
               | None => None
               end) in H.
  change (splitBoundary ((x :: y :: a) ++ b))
    with (if (x =? 0x0A) && (y =? 0x0A) then Some ([], a ++ b)
          else match splitBoundary ((y :: a) ++ b) with
               | Some (pre, post) => Some (x :: pre, post)
               | None => None
               end).
  destruct ((x =? 0x0A) && (y =? 0x0A)).
  - injection H as <- <-. reflexivity.
  - destruct (splitBoundary (y :: a)) as [[pre' post']|]; [|discriminate].
    injection H as <- <-. now rewrite (IH pre' eq_refl).
Qed.

Lemma splitBoundary_parts (n pre post : jsstring) :
  splitBoundary n = Some (pre, post) -> n = pre ++ [0x0A; 0x0A] ++ post.
Proof.
  intros H. pose proof (indexOf_splitBoundary n 0) as Hs. rewrite H in Hs. apply Hs.
Qed.

Lemma removeCR_fixed_app (a b : jsstring) :
  removeCR (a ++ b) = a ++ b <-> removeCR a = a /\ removeCR b = b.
Proof.
  split.
  - intros H.
    assert (Hno : ~ In 0x0D (a ++ b)) by (rewrite <- H; apply removeCR_no_CR).
    split; apply removeCR_id; intros Hin; apply Hno, in_or_app; auto.
  - intros [Ha Hb]. now rewrite removeCR_app, Ha, Hb.
Qed.

Lemma consumeSseEvents_removeCR (x : jsstring) :
  consumeSseEvents (removeCR x) = consumeSseEvents x.
Proof. unfold consumeSseEvents. now rewrite removeCR_idempotent. Qed.

Lemma withEvent_events (dl : list jsstring) (p : SseParse) :
  parsed_buffer (withEvent dl p) = parsed_buffer p
  /\ exists ev, parsed_events (withEvent dl p) = ev ++ parsed_events p
                /\ withEvent dl p = mkSseParse (ev ++ parsed_events p) (parsed_buffer p).
Proof.
  unfold withEvent. destruct (Z.of_nat (List.length dl) =? 0).
  - split; [reflexivity|]. exists []. destruct p; auto.
  - split; [reflexivity|]. exists [join [0x0A] dl]. auto.
Qed.

(** What stays in the buffer holds no CR and no boundary. *)
Lemma consumeSseEvents_buffer (x : jsstring) :
  let b := parsed_buffer (consumeSseEvents x) in
  removeCR b = b /\ splitBoundary b = None.
Proof.
  rewrite <- consumeSseEvents_removeCR.
  pose proof (removeCR_idempotent x) as Hn.
  remember (removeCR x) as n eqn:E. clear E x.
  remember (List.length n) as k eqn:Hk.
  revert n Hn Hk. induction k as [k IH] using (well_founded_induction lt_wf).
  intros n Hn Hk. rewrite (consumeSseEvents_unfold n Hn).
  destruct (splitBoundary n) as [[pre post]|] eqn:E.
  - destruct (withEvent_events (dataLinesOf pre) (consumeSseEvents post)) as [-> _].
    pose proof (splitBoundary_shorter n pre post E).
    apply (IH (List.length post)); [lia| |reflexivity].
    rewrite (splitBoundary_parts n pre post E) in Hn.
    apply removeCR_fixed_app in Hn as [_ Hn]. apply removeCR_fixed_app in Hn as [_ Hn].
    exact Hn.
  - cbn [parsed_buffer]. auto.
Qed.

(** Reading a text in two pieces gives the events of the whole: the events
    of the first piece, then those of what it left followed by the second
    piece. *)
Lemma consumeSseEvents_app (a b : jsstring) :
  let p1 := consumeSseEvents a in
  let p2 := consumeSseEvents (parsed_buffer p1 ++ b) in
  consumeSseEvents (a ++ b)
  = mkSseParse (parsed_events p1 ++ parsed_events p2) (parsed_buffer p2).
Proof.
  cbv zeta.
  rewrite <- (consumeSseEvents_removeCR (a ++ b)), <- (consumeSseEvents_removeCR a).
  rewrite <- (consumeSseEvents_removeCR (_ ++ b)).
  rewrite !removeCR_app.
  destruct (consumeSseEvents_buffer (removeCR a)) as [-> _].
  pose proof (removeCR_idempotent a) as Ha. pose proof (removeCR_idempotent b) as Hb.
  remember (removeCR a) as n eqn:E. clear E a.
  remember (removeCR b) as m eqn:E. clear E b.
  remember (List.length n) as k eqn:Hk.
  revert n Ha Hk. induction k as [k IH] using (well_founded_induction lt_wf).
  intros n Ha Hk.
  rewrite (consumeSseEvents_unfold n Ha).
  destruct (splitBoundary n) as [[pre post]|] eqn:E.
  - rewrite (consumeSseEvents_unfold (n ++ m)) by (apply removeCR_fixed_app; auto).
    rewrite (splitBoundary_app n m pre post E).
    pose proof (splitBoundary_shorter n pre post E).
    assert (Hpost : removeCR post = post).
    { rewrite (splitBoundary_parts n pre post E) in Ha.
      apply removeCR_fixed_app in Ha as [_ Ha]. now apply removeCR_fixed_app in Ha. }
    rewrite (IH (List.length post) ltac:(lia) post Hpost eq_refl).
    destruct (withEvent_events (dataLinesOf pre) (consumeSseEvents post))
      as [Hb' (ev & He & _)].
    rewrite Hb', He. unfold withEvent.
    destruct (Z.of_nat (List.length (dataLinesOf pre)) =? 0) eqn:Ed.
    + unfold withEvent in He. rewrite Ed in He.
      assert (ev = []) as ->.
      { apply (app_inv_tail (parsed_events (consumeSseEvents post))). exact (eq_sym He). }
      reflexivity.
    + unfold withEvent in He. rewrite Ed in He. cbn [parsed_events] in He.
      assert (ev = [join [0x0A] (dataLinesOf pre)]) as ->.
      { apply (app_inv_tail (parsed_events (consumeSseEvents post))). exact (eq_sym He). }
      cbn [parsed_events parsed_buffer]. now rewrite <- app_assoc.
  - cbn [parsed_events parsed_buffer app]. now destruct (consumeSseEvents (n ++ m)).
Qed.

(** *** Where the first blank line is *)

Lemma splitBoundary_none_noLF (s : jsstring) :
  Forall (fun c => c <> 0x0A) s -> splitBoundary s = None.
Proof.
  intros H. induction H as [|a s Ha Hs IH]; [reflexivity|].
  destruct s as [|b r]; [reflexivity|].
  change (splitBoundary (a :: b :: r))
    with (if (a =? 0x0A) && (b =? 0x0A) then Some ([], r)
          else match splitBoundary (b :: r) with
               | Some (pre, post) => Some (a :: pre, post)
               | None => None
               end).
  replace (a =? 0x0A) with false by (symmetry; apply Z.eqb_neq; exact Ha).
  cbn [andb]. now rewrite IH.
Qed.

(** A text with no blank line in it that does not end on LF: the first
    blank line of what is appended to it is the first of the whole. *)
Lemma splitBoundary_first (e rest : jsstring) :
  splitBoundary e = None -> last e 0 <> 0x0A ->
  splitBoundary (e ++ 0x0A :: 0x0A :: rest) = Some (e, rest).
Proof.
  induction e as [|a e IH]; intros Hn Hl; [reflexivity|].
  destruct e as [|b r].
  - cbn [last] in Hl. cbn [app].
    change (splitBoundary (a :: 0x0A :: 0x0A :: rest))
      with (if (a =? 0x0A) && (0x0A =? 0x0A) then Some ([], 0x0A :: rest)
            else match splitBoundary (0x0A :: 0x0A :: rest) with
                 | Some (pre, post) => Some (a :: pre, post)
                 | None => None
                 end).
    replace (a =? 0x0A) with false by (symmetry; apply Z.eqb_neq; exact Hl).
    reflexivity.
  - change (splitBoundary (a :: b :: r))
      with (if (a =? 0x0A) && (b =? 0x0A) then Some ([], r)
            else match splitBoundary (b :: r) with
                 | Some (pre, post) => Some (a :: pre, post)
                 | None => None
                 end) in Hn.
    change (splitBoundary ((a :: b :: r) ++ 0x0A :: 0x0A :: rest))
      with (if (a =? 0x0A) && (b =? 0x0A) then Some ([], r ++ 0x0A :: 0x0A :: rest)
            else match splitBoundary ((b :: r) ++ 0x0A :: 0x0A :: rest) with
                 | Some (pre, post) => Some (a :: pre, post)
                 | None => None
                 end).
    destruct ((a =? 0x0A) && (b =? 0x0A)); [discriminate|].
    destruct (splitBoundary (b :: r)) as [[pre post]|] eqn:E; [discriminate|].
    rewrite IH; [reflexivity|reflexivity|exact Hl].
Qed.

Lemma last_app_cons {A : Type} (l t : list A) (x d : A) :
  last (l ++ x :: t) d = last (x :: t) d.
Proof.
  induction l as [|a l IH]; [reflexivity|].
  cbn [app]. destruct (l ++ x :: t) eqn:E; [destruct l; discriminate|].
  cbn [last]. exact IH.
Qed.

(** Where two texts meet without making a blank line, the first blank line
    of the second is the first of the whole. *)
Lemma splitBoundary_junction (p s : jsstring) :
  splitBoundary p = None -> last p 0 <> 0x0A \/ hd 0 s <> 0x0A ->
  splitBoundary (p ++ s)
  = match splitBoundary s with
    | Some (pre, post) => Some (p ++ pre, post)
    | None => None
    end.
Proof.
  induction p as [|a p IH]; intros Hp Hj.
  - cbn [app]. now destruct (splitBoundary s) as [[pre post]|].
  - destruct p as [|b r].
    + cbn [app]. destruct s as [|c s']; [reflexivity|].
      change (splitBoundary (a :: c :: s'))
        with (if (a =? 0x0A) && (c =? 0x0A) then Some ([], s')
              else match splitBoundary (c :: s') with
                   | Some (pre, post) => Some (a :: pre, post)
                   | None => None
                   end).
      cbn [last hd] in Hj.
      replace ((a =? 0x0A) && (c =? 0x0A)) with false; [reflexivity|].
      symmetry. apply andb_false_iff. destruct Hj as [Hj|Hj]; [left|right];
        now apply Z.eqb_neq.
    + change (splitBoundary (a :: b :: r))
        with (if (a =? 0x0A) && (b =? 0x0A) then Some ([], r)
              else match splitBoundary (b :: r) with
                   | Some (pre, post) => Some (a :: pre, post)
                   | None => None
                   end) in Hp.
      change (splitBoundary ((a :: b :: r) ++ s))
        with (if (a =? 0x0A) && (b =? 0x0A) then Some ([], r ++ s)
              else match splitBoundary ((b :: r) ++ s) with
                   | Some (pre, post) => Some (a :: pre, post)
                   | None => None
                   end).
      destruct ((a =? 0x0A) && (b =? 0x0A)); [discriminate|].
      destruct (splitBoundary (b :: r)) as [[pre post]|] eqn:E; [discriminate|].
      rewrite IH; [|reflexivity|exact Hj].
      now destruct (splitBoundary s) as [[pre post]|].
Qed.

Lemma splitBoundary_blank_line (x y : jsstring) :
  splitBoundary (x ++ 0x0A :: 0x0A :: y) <> None.
Proof.
  induction x as [|a x IH]; [discriminate|].
  cbn [app]. destruct (x ++ 0x0A :: 0x0A :: y) as [|b r] eqn:E.
  - destruct x; discriminate.
  - change (splitBoundary (a :: b :: r))
      with (if (a =? 0x0A) && (b =? 0x0A) then Some ([], r)
            else match splitBoundary (b :: r) with
                 | Some (pre, post) => Some (a :: pre, post)
                 | None => None
                 end).
    destruct ((a =? 0x0A) && (b =? 0x0A)); [discriminate|].
    destruct (splitBoundary (b :: r)) as [[pre post]|]; [discriminate|contradiction].
Qed.

(** A text without blank line that ends on LF: what stands before that LF
    has no blank line and does not end on LF. *)
Lemma splitBoundary_none_snoc (a : jsstring) :
  splitBoundary (a ++ [0x0A]) = None ->
  splitBoundary a = None /\ last a 0 <> 0x0A.
Proof.
  intros H. split.
  - destruct (splitBoundary a) as [[pre post]|] eqn:E; [|reflexivity].
    now rewrite (splitBoundary_app a [0x0A] pre post E) in H.
  - intros Hl. destruct a as [|c a'] using rev_ind; [discriminate|]. clear IHa'.
    rewrite last_last in Hl. subst c. rewrite <- app_assoc in H.
    now apply (splitBoundary_blank_line a' []) in H.
Qed.

(* ------------------------------------------------------------------ *)
(** ** The streaming decoder *)

Lemma utf8_run_app (st : Utf8State) (a b : list Z) :
  utf8_run st (a ++ b)
  = let '(st1, out1) := utf8_run st a in
    let '(st2, out2) := utf8_run st1 b in
    (st2, out1 ++ out2).
Proof.
  revert st. induction a as [|x a IH]; intros st.
  - cbn [app utf8_run]. now destruct (utf8_run st b).
  - cbn [app utf8_run]. destruct (utf8_step st x) as [st1 o1].
    rewrite IH. destruct (utf8_run st1 a) as [st2 o2].
    destruct (utf8_run st2 b) as [st3 o3]. now rewrite app_assoc.
Qed.

Lemma stripBOM_app (seen : bool) (a b : list Z) :
  stripBOM seen (a ++ b)
  = let '(s1, o1) := stripBOM seen a in
    let '(s2, o2) := stripBOM s1 b in
    (s2, o1 ++ o2).
Proof.
  destruct seen; [reflexivity|].
  destruct a as [|x a].
  - change (stripBOM false []) with (false, @nil Z). cbn [app].
    now destruct (stripBOM false b).
  - cbn [app stripBOM]. destruct (x =? 0xFEFF); reflexivity.
Qed.

(** Decoding chunk after chunk gives, put together, what decoding their
    concatenation gives. *)
Lemma TextDecoder_decode_stream_app (d : TextDecoder) (a b : list Z) :
  TextDecoder_decode_stream d (a ++ b)
  = let '(d1, t1) := TextDecoder_decode_stream d a in
    let '(d2, t2) := TextDecoder_decode_stream d1 b in
    (d2, t1 ++ t2).
Proof.
  unfold TextDecoder_decode_stream. rewrite utf8_run_app.
  destruct (utf8_run (td_state d) a) as [st1 o1]. cbn [td_state].
  destruct (stripBOM (td_bomSeen d) o1) as [s1 c1] eqn:E1. cbn [td_state td_bomSeen].
  destruct (utf8_run st1 b) as [st2 o2].
  rewrite stripBOM_app, E1.
  destruct (stripBOM s1 o2) as [s2 c2]. now rewrite flat_map_app.
Qed.

Lemma TextDecoder_decode_stream_nil (d : TextDecoder) :
  snd (TextDecoder_decode_stream d []) = [].
Proof.
  unfold TextDecoder_decode_stream. cbn [utf8_run].
  destruct (td_bomSeen d); reflexivity.
Qed.

(* ------------------------------------------------------------------ *)
(** ** UTF-8 encoding read back by the decoder *)

Ltac dm := Z.div_mod_to_equations; lia.

Ltac cmp_true c := replace c with true by (symmetry; first [apply Z.leb_le | apply Z.ltb_lt | apply Z.eqb_eq]; dm).
Ltac cmp_false c := replace c with false by (symmetry; first [apply Z.leb_gt | apply Z.ltb_ge | apply Z.eqb_neq]; dm).
Ltac settle :=
  repeat (match goal with
  | |- context [?a <=? ?b] => first [cmp_true (a <=? b) | cmp_false (a <=? b)]
  | |- context [?a <? ?b] => first [cmp_true (a <? b) | cmp_false (a <? b)]
  | |- context [?a =? ?b] => first [cmp_true (a =? b) | cmp_false (a =? b)]
  | |- context [?a =? ?b] => destruct (Z.eqb_spec a b)
  end; cbn [andb orb negb u_needed u_cp u_seen u_lower u_upper app]).

Ltac bytes :=
  cbn [utf8_run]; unfold utf8_step, utf8_lead;
  cbn [u_needed u_cp u_seen u_lower u_upper]; settle.

Ltac fin := apply f_equal2; [reflexivity|]; apply f_equal2; [|reflexivity]; dm.

Lemma utf8_roundtrip_cp (cp : Z) (rest : list Z) :
  validScalar cp ->
  utf8_run utf8_init (utf8_encode_cp cp ++ rest)
  = (fst (utf8_run utf8_init rest), cp :: snd (utf8_run utf8_init rest)).
Proof.
  intros [Hr Hs]. unfold utf8_encode_cp.
  destruct (Z.ltb_spec cp 0x80); [|destruct (Z.ltb_spec cp 0x800); [|destruct (Z.ltb_spec cp 0x10000)]];
    cbn [app]; unfold utf8_init.
  - bytes. destruct (utf8_run _ rest). reflexivity.
  - bytes. all: destruct (utf8_run _ rest); cbn [app fst snd]; fin.
  - bytes. all: destruct (utf8_run _ rest); cbn [app fst snd]; fin.
  - bytes. all: destruct (utf8_run _ rest); cbn [app fst snd]; fin.
Qed.

Lemma WellFormed_app (a b : jsstring) :
  WellFormed a -> WellFormed b -> WellFormed (a ++ b).
Proof.
  intros Ha Hb. induction Ha; cbn [app];
    [exact Hb|apply WellFormed_unit; auto|apply WellFormed_pair; auto].
Qed.

Lemma toScalarValues_WellFormed (a b : jsstring) :
  WellFormed a ->
  exists cps, Forall validScalar cps
    /\ toScalarValues (a ++ b) = cps ++ toScalarValues b
    /\ flat_map utf16_of_cp cps = a.
Proof.
  intros Ha. induction Ha as [|c s Hc Hh Hl Hs IH|hi lo s Hh Hl Hs IH].
  - exists []. auto.
  - destruct IH as (cps & Hv & Ht & Hf). exists (c :: cps).
    cbn [app toScalarValues]. rewrite Hh, Hl, Ht. split; [|split].
    + constructor; [|exact Hv]. unfold isCodeUnit in Hc.
      unfold isHighSurrogate, isLowSurrogate in Hh, Hl. split; [lia|].
      apply andb_false_iff in Hh, Hl.
      destruct Hh as [Hh|Hh], Hl as [Hl|Hl]; zbool; lia.
    + reflexivity.
    + cbn [flat_map]. unfold utf16_of_cp at 1.
      replace (c <? 0x10000) with true
        by (symmetry; apply Z.ltb_lt; unfold isCodeUnit in Hc; lia).
      cbn [app]. now rewrite Hf.
  - destruct IH as (cps & Hv & Ht & Hf).
    exists ((0x10000 + (hi - 0xD800) * 1024 + (lo - 0xDC00)) :: cps).
    cbn [app toScalarValues]. rewrite Hh, Hl, Ht.
    unfold isHighSurrogate, isLowSurrogate in *. zbool. split; [|split].
    + constructor; [|exact Hv]. split; lia.
    + reflexivity.
    + cbn [flat_map]. unfold utf16_of_cp at 1.
      replace (0x10000 + (hi - 0xD800) * 1024 + (lo - 0xDC00) <? 0x10000) with false
        by (symmetry; apply Z.ltb_ge; lia).
      cbn [app]. rewrite Hf. f_equal; [dm|]. f_equal. dm.
Qed.

Lemma utf8_roundtrip (cps rest : list Z) :
  Forall validScalar cps ->
  utf8_run utf8_init (flat_map utf8_encode_cp cps ++ rest)
  = (fst (utf8_run utf8_init rest), cps ++ snd (utf8_run utf8_init rest)).
Proof.
  intros H. induction H as [|cp cps Hcp _ IH].
  - cbn [flat_map app]. now destruct (utf8_run utf8_init rest).
  - cbn [flat_map]. rewrite <- app_assoc, (utf8_roundtrip_cp cp _ Hcp), IH. reflexivity.
Qed.

(** What the decoder makes of the encoding of well-formed texts. *)
Lemma decode_encode (a b : jsstring) (c : Z) (a' : jsstring) :
  a = c :: a' -> c <> 0xFEFF ->
  WellFormed a -> WellFormed b ->
  TextDecoder_decode_stream TextDecoder_new (TextEncoder_encode a ++ TextEncoder_encode b)
  = (mkTextDecoder utf8_init true, a ++ b).
Proof.
  intros Ea Hc Ha Hb.
  destruct (toScalarValues_WellFormed a [] Ha) as (ca & Hva & Hta & Hfa).
  destruct (toScalarValues_WellFormed b [] Hb) as (cb & Hvb & Htb & Hfb).
  rewrite app_nil_r in Hta, Htb. cbn [toScalarValues] in Hta, Htb.
  rewrite app_nil_r in Hta, Htb.
  unfold TextDecoder_decode_stream, TextEncoder_encode, TextDecoder_new.
  cbn [td_state td_bomSeen]. rewrite Hta, Htb.
  rewrite (utf8_roundtrip ca _ Hva).
  rewrite <- (app_nil_r (flat_map utf8_encode_cp cb)).
  rewrite (utf8_roundtrip cb [] Hvb). cbn [utf8_run fst snd]. rewrite app_nil_r.
  assert (Hs : stripBOM false (ca ++ cb) = (true, ca ++ cb)).
  { destruct ca as [|x ca].
    - cbn [flat_map] in Hfa. congruence.
    - cbn [app stripBOM].
      destruct (Z.eqb_spec x 0xFEFF) as [->|]; [|reflexivity].
      exfalso. cbn [flat_map] in Hfa. rewrite Ea in Hfa.
      change (utf16_of_cp 0xFEFF) with [0xFEFF] in Hfa. cbn [app] in Hfa. congruence. }
  rewrite Hs, flat_map_app, Hfa, Hfb. reflexivity.
Qed.

(* ------------------------------------------------------------------ *)
(** ** JSON.stringify read back by JSON.parse *)

Lemma hexValue_hexDigit (d : Z) : 0 <= d < 16 -> hexValue (hexDigit d) = Some d.
Proof.
  intros H.
  assert (E : d = 0 \/ d = 1 \/ d = 2 \/ d = 3 \/ d = 4 \/ d = 5 \/ d = 6 \/ d = 7
              \/ d = 8 \/ d = 9 \/ d = 10 \/ d = 11 \/ d = 12 \/ d = 13 \/ d = 14
              \/ d = 15) by lia.
  repeat (destruct E as [->|E]; [reflexivity|]). subst. reflexivity.
Qed.

Lemma hexDigit_ascii (d : Z) :
  0 <= d < 16 -> 0x30 <= hexDigit d <= 0x66.
Proof. intros H. unfold hexDigit. destruct (d <? 10) eqn:E; zbool; lia. Qed.

Lemma quotes_nil : quotes [] [].
Proof.
  split; [|split; [constructor|auto]].
  intros t. cbn [app]. destruct (parseStringBody t) as [[str after]|]; reflexivity.
Qed.

Lemma quotes_app (u v cs ds : jsstring) :
  quotes u cs -> quotes v ds -> quotes (u ++ v) (cs ++ ds).
Proof.
  intros (Hr1 & Hn1 & Hw1) (Hr2 & Hn2 & Hw2). split; [|split].
  - intros t. rewrite <- app_assoc, Hr1, Hr2.
    destruct (parseStringBody t) as [[str after]|]; [|reflexivity].
    now rewrite app_assoc.
  - apply Forall_app. auto.
  - intros t Ht. rewrite <- app_assoc. auto.
Qed.

Lemma parseStringBody_plain (c : Z) (t : jsstring) :
  c <> 0x22 -> c <> 0x5C -> 0x20 <= c ->
  parseStringBody (c :: t)
  = match parseStringBody t with
    | Some (str, after) => Some (c :: str, after)
    | None => None
    end.
Proof.
  intros H1 H2 H3. cbn [parseStringBody].
  replace (c =? 0x22) with false by (symmetry; apply Z.eqb_neq; exact H1).
  replace (c =? 0x5C) with false by (symmetry; apply Z.eqb_neq; exact H2).
  replace (c <? 0x20) with false by (symmetry; apply Z.ltb_ge; exact H3).
  reflexivity.
Qed.

Lemma parseStringBody_escape_u (h1 h2 h3 h4 : Z) (t : jsstring) :
  parseStringBody (0x5C :: 0x75 :: h1 :: h2 :: h3 :: h4 :: t)
  = match hexValue h1, hexValue h2, hexValue h3, hexValue h4 with
    | Some a, Some b, Some c, Some d =>
        match parseStringBody t with
        | Some (str, after) => Some ((((a * 16 + b) * 16 + c) * 16 + d) :: str, after)
        | None => None
        end
    | _, _, _, _ => None
    end.
Proof. reflexivity. Qed.

Lemma plain_WellFormed (c : Z) (t : jsstring) :
  plainUnit c -> WellFormed t -> WellFormed (c :: t).
Proof. intros (H1 & H2 & H3) Ht. now apply WellFormed_unit. Qed.

Lemma ascii_plainUnit (c : Z) : 0 <= c < 128 -> plainUnit c.
Proof.
  intros H. unfold plainUnit, isCodeUnit, isHighSurrogate, isLowSurrogate.
  split; [lia|]. split; apply andb_false_iff; left; apply Z.leb_gt; lia.
Qed.

Lemma quotes_unicodeEscape (c : Z) : isCodeUnit c -> quotes (unicodeEscape c) [c].
Proof.
  intros Hc. unfold isCodeUnit in Hc.
  assert (H1 : 0 <= c / 4096 < 16) by dm.
  assert (H2 : 0 <= c / 256 mod 16 < 16) by dm.
  assert (H3 : 0 <= c / 16 mod 16 < 16) by dm.
  assert (H4 : 0 <= c mod 16 < 16) by dm.
  pose proof (hexDigit_ascii _ H1). pose proof (hexDigit_ascii _ H2).
  pose proof (hexDigit_ascii _ H3). pose proof (hexDigit_ascii _ H4).
  unfold unicodeEscape. split; [|split].
  - intros t. cbn [app].
    rewrite parseStringBody_escape_u.
    rewrite !hexValue_hexDigit by assumption.
    replace (((c / 4096 * 16 + c / 256 mod 16) * 16 + c / 16 mod 16) * 16 + c mod 16)
      with c by dm.
    reflexivity.
  - repeat constructor; lia.
  - intros t Ht. cbn [app].
    repeat (apply plain_WellFormed; [apply ascii_plainUnit; lia|]). exact Ht.
Qed.

Lemma quotes_quoteUnit (c : Z) : plainUnit c -> quotes (quoteUnit c) [c].
Proof.
  intros Hp. pose proof Hp as (Hc & Hh & Hl). unfold isCodeUnit in Hc.
  assert (Hesc : forall e,
            0 <= e < 128 -> e <> 0x75 -> simpleEscape e = Some c ->
            quotes [0x5C; e] [c]).
  { intros e He Hu Hs. split; [|split].
    - intros t. cbn [app parseStringBody].
      replace (e =? 0x75) with false by (symmetry; apply Z.eqb_neq; exact Hu).
      change (0x5C =? 0x22) with false. change (0x5C =? 0x5C) with true.
      cbn match. rewrite Hs. reflexivity.
    - repeat constructor; try lia.
      + intros ->. vm_compute in Hs. discriminate.
      + intros ->. vm_compute in Hs. discriminate.
    - intros t Ht. cbn [app].
      repeat (apply plain_WellFormed; [apply ascii_plainUnit; lia|]). exact Ht. }
  unfold quoteUnit.
  repeat match goal with
  | |- context [if ?x =? ?y then _ else _] =>
      destruct (Z.eqb_spec x y) as [->|];
      [apply Hesc; [lia|lia|reflexivity]|]
  end.
  destruct (Z.ltb_spec c 0x20).
  - apply quotes_unicodeEscape. unfold isCodeUnit. lia.
  - split; [|split].
    + intros t. cbn [app]. now apply parseStringBody_plain.
    + repeat constructor; lia.
    + intros t Ht. cbn [app]. now apply plain_WellFormed.
Qed.

Lemma quotes_pair (hi lo : Z) :
  isHighSurrogate hi = true -> isLowSurrogate lo = true -> quotes [hi; lo] [hi; lo].
Proof.
  intros Hh Hl. pose proof Hh as Hh'. pose proof Hl as Hl'.
  unfold isHighSurrogate in Hh'. unfold isLowSurrogate in Hl'. zbool.
  split; [|split].
  - intros t. cbn [app]. rewrite !parseStringBody_plain by lia.
    destruct (parseStringBody t) as [[str after]|]; reflexivity.
  - repeat constructor; lia.
  - intros t Ht. cbn [app]. now apply WellFormed_pair.
Qed.

Lemma pairs_ind (P : jsstring -> Prop) :
  P [] -> (forall c, P [c]) ->
  (forall c d s, P s -> P (d :: s) -> P (c :: d :: s)) ->
  forall s, P s.
Proof.
  intros H0 H1 H2 s.
  assert (H : P s /\ forall c, P (c :: s)).
  { induction s as [|d s [IHs IHc]]; [auto|]. split; [apply IHc|]. intros c. now apply H2. }
  apply H.
Qed.

Lemma quotes_quoteBody (text : jsstring) :
  Forall isCodeUnit text -> quotes (quoteBody text) text.
Proof.
  assert (Hone : forall c, isCodeUnit c -> isHighSurrogate c = false ->
                           quotes (if isLowSurrogate c then unicodeEscape c else quoteUnit c) [c]).
  { intros c Hc Hh. destruct (isLowSurrogate c) eqn:Hl.
    - now apply quotes_unicodeEscape.
    - apply quotes_quoteUnit. now split. }
  induction text as [|c|c d s IHs IHd] using pairs_ind; intros Hv.
  - apply quotes_nil.
  - inversion Hv as [|? ? Hc _]; subst. cbn [quoteBody].
    destruct (isHighSurrogate c) eqn:Hh.
    + now apply quotes_unicodeEscape.
    + specialize (Hone c Hc Hh). destruct (isLowSurrogate c);
        rewrite app_nil_r; exact Hone.
  - inversion Hv as [|? ? Hc Hv']; subst. inversion Hv' as [|? ? Hd Hv'']; subst.
    change (quoteBody (c :: d :: s))
      with (if isHighSurrogate c then
              if isLowSurrogate d then c :: d :: quoteBody s
              else unicodeEscape c ++ quoteBody (d :: s)
            else if isLowSurrogate c then unicodeEscape c ++ quoteBody (d :: s)
            else quoteUnit c ++ quoteBody (d :: s)).
    destruct (isHighSurrogate c) eqn:Hh.
    + destruct (isLowSurrogate d) eqn:Hl.
      * apply (quotes_app [c; d] (quoteBody s) [c; d] s); [now apply quotes_pair|auto].
      * apply (quotes_app (unicodeEscape c) _ [c] (d :: s));
          [now apply quotes_unicodeEscape|auto].
    + specialize (Hone c Hc Hh). destruct (isLowSurrogate c);
        apply (quotes_app _ _ [c] (d :: s)); auto.
Qed.

Lemma parseStringBody_quoted (text after : jsstring) :
  Forall isCodeUnit text ->
  parseStringBody (quoteBody text ++ 0x22 :: after) = Some (text, after).
Proof.
  intros H. destruct (quotes_quoteBody text H) as (Hr & _).
  rewrite Hr. cbn [parseStringBody]. change (0x22 =? 0x22) with true. cbn match.
  now rewrite app_nil_r.
Qed.

Lemma JSON_stringify_response_shape (text : jsstring) :
  JSON_stringify_response text
  = [0x7B; 0x22; 0x72; 0x65; 0x73; 0x70; 0x6F; 0x6E; 0x73; 0x65; 0x22; 0x3A; 0x22]
    ++ quoteBody text ++ [0x22; 0x7D].
Proof.
  unfold JSON_stringify_response, QuoteJSONString.
  change (lit "response") with [0x72; 0x65; 0x73; 0x70; 0x6F; 0x6E; 0x73; 0x65].
  cbn [app]. now rewrite <- app_assoc.
Qed.

(** [JSON.parse(JSON.stringify({ response: text }))] is the object with the
    one property [response] holding [text]. *)
Lemma JSON_parse_stringify (text : jsstring) :
  Forall isCodeUnit text ->
  JSON_parse (JSON_stringify_response text)
  = Some (JObject [(lit "response", JString text)]).
Proof.
  intros H. unfold JSON_parse.
  remember (2 * List.length (JSON_stringify_response text) + 2)%nat as fuel eqn:Hf.
  assert (Hlen : (13 <= List.length (JSON_stringify_response text))%nat).
  { rewrite JSON_stringify_response_shape, length_app. simpl. lia. }
  destruct fuel as [|[|[|fuel]]]; try lia. clear Hf Hlen.
  rewrite JSON_stringify_response_shape.
  pose proof (parseStringBody_quoted text [0x7D] H) as Hq.
  change (quoteBody text ++ [0x22; 0x7D]) with (quoteBody text ++ 0x22 :: [0x7D]).
  remember (quoteBody text ++ 0x22 :: [0x7D]) as q eqn:Eq. clear Eq.
  cbn [app]. simpl. rewrite Hq. simpl. reflexivity.
Qed.

(** ** The fuel of the JSON parser

    The parsers only ever return a remainder shorter than their input, so
    the recursion depth is bounded by the length of the text. *)

Lemma dropWhile_length (f : Z -> bool) (s : jsstring) :
  (List.length (dropWhile f s) <= List.length s)%nat.
Proof.
  induction s as [|c s IH]; simpl; [lia|]. destruct (f c); simpl; lia.
Qed.

Lemma skipWs_cons_length (s rest : jsstring) (c : Z) :
  skipWs s = c :: rest -> (List.length rest < List.length s)%nat.
Proof.
  intros H. pose proof (dropWhile_length isJsonWs s) as Hl.
  unfold skipWs in H. rewrite H in Hl. simpl in Hl. lia.
Qed.

Lemma parseStringBody_shorter (s str after : jsstring) :
  parseStringBody s = Some (str, after) ->
  (List.length after < List.length s)%nat.
Proof.
  remember (List.length s) as n eqn:Hn. revert s str after Hn.
  induction n as [n IH] using (well_founded_induction lt_wf).
  intros s str after Hn H. destruct s as [|c rest]; [discriminate|].
  cbn [parseStringBody] in H. cbn [List.length] in Hn.
  destruct (c =? 0x22).
  { injection H as <- <-. lia. }
  destruct (c =? 0x5C).
  - destruct rest as [|e rest2]; [discriminate|].
    destruct (e =? 0x75).
    + destruct rest2 as [|h1 [|h2 [|h3 [|h4 rest3]]]]; try discriminate.
      destruct (hexValue h1), (hexValue h2), (hexValue h3), (hexValue h4);
        try discriminate.
      destruct (parseStringBody rest3) as [[str' after']|] eqn:E; [|discriminate].
      injection H as <- <-.
      apply (IH (List.length rest3)) in E; [|subst n; cbn [List.length]; lia|reflexivity].
      subst n. cbn [List.length]. lia.
    + destruct (simpleEscape e); [|discriminate].
      destruct (parseStringBody rest2) as [[str' after']|] eqn:E; [|discriminate].
      injection H as <- <-.
      apply (IH (List.length rest2)) in E; [|subst n; cbn [List.length]; lia|reflexivity].
      subst n. cbn [List.length]. lia.
  - destruct (c <? 0x20); [discriminate|].
    destruct (parseStringBody rest) as [[str' after']|] eqn:E; [|discriminate].
    injection H as <- <-.
    apply (IH (List.length rest)) in E; [|subst n; lia|reflexivity].
    subst n. lia.
Qed.

Lemma parseIntPart_shorter (s ip after : jsstring) :
  parseIntPart s = Some (ip, after) ->
  (List.length after < List.length s)%nat.
Proof.
  destruct s as [|c r]; [discriminate|]. unfold parseIntPart.
  pose proof (dropWhile_length isDigit r) as Hd.
  destruct (c =? 0x30); [|destruct (isDigit c); [|discriminate]];
    intros H; injection H as <- <-; cbn [List.length]; lia.
Qed.

Lemma parseFracPart_shorter (s fp after : jsstring) :
  parseFracPart s = Some (fp, after) ->
  (List.length after <= List.length s)%nat.
Proof.
  destruct s as [|p r]; unfold parseFracPart.
  - intros H; injection H as <- <-; lia.
  - pose proof (dropWhile_length isDigit r) as Hd.
    destruct (p =? 0x2E).
    + destruct (isEmpty (takeWhile isDigit r)); [discriminate|].
      intros H; injection H as <- <-; cbn [List.length]; lia.
    + intros H; injection H as <- <-; lia.
Qed.

Lemma parseExpPart_shorter (s ep after : jsstring) :
  parseExpPart s = Some (ep, after) ->
  (List.length after <= List.length s)%nat.
Proof.
  destruct s as [|e r]; unfold parseExpPart.
  - intros H; injection H as <- <-; lia.
  - destruct ((e =? 0x65) || (e =? 0x45)).
    + destruct r as [|g r'].
      * cbn. discriminate.
      * pose proof (dropWhile_length isDigit r') as Hd.
        pose proof (dropWhile_length isDigit (g :: r')) as Hd'.
        destruct ((g =? 0x2B) || (g =? 0x2D)).
        -- destruct (isEmpty (takeWhile isDigit r')); [discriminate|].
           intros H; injection H as <- <-; cbn [List.length] in *; lia.
        -- destruct (isEmpty (takeWhile isDigit (g :: r'))); [discriminate|].
           intros H; injection H as <- <-.
           change (if isDigit g then dropWhile isDigit r' else g :: r')
             with (dropWhile isDigit (g :: r')).
           cbn [List.length] in *; lia.
    + intros H; injection H as <- <-; lia.
Qed.

Lemma parseNumber_shorter (s lexeme after : jsstring) :
  parseNumber s = Some (lexeme, after) ->
  (List.length after < List.length s)%nat.
Proof.
  unfold parseNumber.
  assert (Hs : exists sign s1,
             match s with
             | c :: r => if c =? 0x2D then ([c], r) else ([], s)
             | [] => ([], s)
             end = (sign, s1) /\ (List.length s1 <= List.length s)%nat).
  { destruct s as [|c r]; [exists [], []; split; [reflexivity|lia]|].
    destruct (c =? 0x2D); eexists _, _; (split; [reflexivity|]);
      cbn [List.length]; lia. }
  destruct Hs as (sign & s1 & -> & Hl). cbv beta iota zeta.
  destruct (parseIntPart s1) as [[ip s2]|] eqn:E1; [|discriminate].
  destruct (parseFracPart s2) as [[fp s3]|] eqn:E2; [|discriminate].
  destruct (parseExpPart s3) as [[ep s4]|] eqn:E3; [|discriminate].
  intros H; injection H as _ Hafter; subst after.
  apply parseIntPart_shorter in E1. apply parseFracPart_shorter in E2.
  apply parseExpPart_shorter in E3. lia.
Qed.

Lemma startsWith_length (s p : jsstring) :
  startsWith s p = true -> (List.length p <= List.length s)%nat.
Proof.
  revert s; induction p as [|a p IH]; intros s H; [cbn; lia|].
  destruct s as [|c s]; [cbn in H; discriminate H|]. cbn [startsWith] in H.
  apply andb_prop in H as [_ H]. apply IH in H. cbn [List.length]. lia.
Qed.

Lemma skipWs_length (s : jsstring) :
  (List.length (skipWs s) <= List.length s)%nat.
Proof. apply dropWhile_length. Qed.

(** Every parser returns a remainder strictly shorter than its input. *)
Lemma parse_shorter (fuel : nat) :
  (forall s v after, parseValue fuel s = Some (v, after) ->
     (List.length after < List.length s)%nat) /\
  (forall s acc v after, parseElements fuel s acc = Some (v, after) ->
     (List.length after < List.length s)%nat) /\
  (forall s acc v after, parseMembers fuel s acc = Some (v, after) ->
     (List.length after < List.length s)%nat).
Proof.
  induction fuel as [|fuel (IHv & IHe & IHm)];
    [repeat split; intros; discriminate|].
  repeat split.
  - intros s v after H. cbn [parseValue] in H.
    pose proof (skipWs_length s) as Hs.
    destruct (skipWs s) as [|c rest] eqn:Es; [discriminate|].
    cbn [List.length] in Hs.
    destruct (c =? 0x7B).
    { pose proof (skipWs_length rest) as Hr.
      destruct (skipWs rest) as [|c2 rest2] eqn:Er; [discriminate|].
      cbn [List.length] in Hr.
      destruct (c2 =? 0x7D); [injection H as _ Hafter; subst after; lia|].
      apply IHm in H. lia. }
    destruct (c =? 0x5B).
    { pose proof (skipWs_length rest) as Hr.
      destruct (skipWs rest) as [|c2 rest2] eqn:Er; [discriminate|].
      cbn [List.length] in Hr.
      destruct (c2 =? 0x5D); [injection H as _ Hafter; subst after; lia|].
      apply IHe in H. lia. }
    destruct (c =? 0x22).
    { destruct (parseStringBody rest) as [[str a]|] eqn:E; [|discriminate].
      injection H as _ Hafter; subst after. apply parseStringBody_shorter in E. lia. }
    pose proof (length_skipn 4 (c :: rest)) as K4.
    pose proof (length_skipn 5 (c :: rest)) as K5.
    set (k4 := skipn 4 (c :: rest)) in *. set (k5 := skipn 5 (c :: rest)) in *.
    clearbody k4 k5. cbn [List.length] in K4, K5.
    destruct (startsWith (c :: rest) (lit "true")) eqn:E1.
    { injection H as _ Hafter; subst after. apply startsWith_length in E1.
      change (List.length (lit "true")) with 4%nat in E1.
      cbn [List.length] in E1. lia. }
    destruct (startsWith (c :: rest) (lit "false")) eqn:E2.
    { injection H as _ Hafter; subst after. apply startsWith_length in E2.
      change (List.length (lit "false")) with 5%nat in E2.
      cbn [List.length] in E2. lia. }
    destruct (startsWith (c :: rest) (lit "null")) eqn:E3.
    { injection H as _ Hafter; subst after. apply startsWith_length in E3.
      change (List.length (lit "null")) with 4%nat in E3.
      cbn [List.length] in E3. lia. }
    destruct (parseNumber (c :: rest)) as [[lx a]|] eqn:E; [|discriminate].
    injection H as _ Hafter; subst after. apply parseNumber_shorter in E.
    cbn [List.length] in *. lia.
  - intros s acc v after H. cbn [parseElements] in H.
    destruct (parseValue fuel s) as [[v1 a1]|] eqn:E; [|discriminate].
    apply IHv in E. pose proof (skipWs_length a1) as Ha.
    destruct (skipWs a1) as [|c rest] eqn:Ea; [discriminate|].
    cbn [List.length] in Ha.
    destruct (c =? 0x2C); [apply IHe in H; lia|].
    destruct (c =? 0x5D); [|discriminate]. injection H as _ Hafter; subst after. lia.
  - intros s acc v after H. cbn [parseMembers] in H.
    pose proof (skipWs_length s) as Hs.
    destruct (skipWs s) as [|q r] eqn:Es; [discriminate|].
    cbn [List.length] in Hs.
    destruct (q =? 0x22); [|discriminate].
    destruct (parseStringBody r) as [[key r1]|] eqn:Ek; [|discriminate].
    apply parseStringBody_shorter in Ek.
    pose proof (skipWs_length r1) as H1.
    destruct (skipWs r1) as [|c r2] eqn:E1; [discriminate|].
    cbn [List.length] in H1.
    destruct (c =? 0x3A); [|discriminate].
    destruct (parseValue fuel r2) as [[v1 r3]|] eqn:Ev; [|discriminate].
    apply IHv in Ev. pose proof (skipWs_length r3) as H3.
    destruct (skipWs r3) as [|c' r4] eqn:E3; [discriminate|].
    cbn [List.length] in H3.
    destruct (c' =? 0x2C); [apply IHm in H; lia|].
    destruct (c' =? 0x7D); [|discriminate]. injection H as _ Hafter; subst after. lia.
Qed.

(** Past the bound, one more unit of fuel changes nothing. *)
Lemma parse_fuel_step (fuel : nat) :
  (forall s, (2 * List.length s + 1 <= fuel)%nat ->
     parseValue (S fuel) s = parseValue fuel s) /\
  (forall s acc, (2 * List.length s + 2 <= fuel)%nat ->
     parseElements (S fuel) s acc = parseElements fuel s acc) /\
  (forall s acc, (2 * List.length s + 1 <= fuel)%nat ->
     parseMembers (S fuel) s acc = parseMembers fuel s acc).
Proof.
  induction fuel as [|fuel (IHv & IHe & IHm)];
    [repeat split; intros; lia|].
  repeat split.
  - intros s Hf.
    change (parseValue (S (S fuel)) s) with
      (match skipWs s with
       | [] => None
       | c :: rest =>
           if c =? 0x7B then
             match skipWs rest with
             | c2 :: rest2 =>
                 if c2 =? 0x7D then Some (JObject [], rest2)
                 else parseMembers (S fuel) rest []
             | [] => None
             end
           else if c =? 0x5B then
             match skipWs rest with
             | c2 :: rest2 =>
                 if c2 =? 0x5D then Some (JArray [], rest2)
                 else parseElements (S fuel) rest []
             | [] => None
             end
           else if c =? 0x22 then
             match parseStringBody rest with
             | Some (str, after) => Some (JString str, after)
             | None => None
             end
           else if startsWith (c :: rest) (lit "true") then Some (JBool true, skipn 4 (c :: rest))
           else if startsWith (c :: rest) (lit "false") then Some (JBool false, skipn 5 (c :: rest))
           else if startsWith (c :: rest) (lit "null") then Some (JNull, skipn 4 (c :: rest))
           else
             match parseNumber (c :: rest) with
             | Some (lexeme, after) => Some (JNumber lexeme, after)
             | None => None
             end
       end).
    change (parseValue (S fuel) s) with
      (match skipWs s with
       | [] => None
       | c :: rest =>
           if c =? 0x7B then
             match skipWs rest with
             | c2 :: rest2 =>
                 if c2 =? 0x7D then Some (JObject [], rest2)
                 else parseMembers fuel rest []
             | [] => None
             end
           else if c =? 0x5B then
             match skipWs rest with
             | c2 :: rest2 =>
                 if c2 =? 0x5D then Some (JArray [], rest2)
                 else parseElements fuel rest []
             | [] => None
             end
           else if c =? 0x22 then
             match parseStringBody rest with
             | Some (str, after) => Some (JString str, after)
             | None => None
             end
           else if startsWith (c :: rest) (lit "true") then Some (JBool true, skipn 4 (c :: rest))
           else if startsWith (c :: rest) (lit "false") then Some (JBool false, skipn 5 (c :: rest))
           else if startsWith (c :: rest) (lit "null") then Some (JNull, skipn 4 (c :: rest))
           else
             match parseNumber (c :: rest) with
             | Some (lexeme, after) => Some (JNumber lexeme, after)
             | None => None
             end
       end).
    pose proof (skipWs_length s) as Hs.
    destruct (skipWs s) as [|c rest] eqn:Es; [reflexivity|].
    cbn [List.length] in Hs.
    rewrite (IHm rest []) by lia. rewrite (IHe rest []) by lia. reflexivity.
  - intros s acc Hf.
    change (parseElements (S (S fuel)) s acc) with
      (match parseValue (S fuel) s with
       | Some (v, after) =>
           match skipWs after with
           | c :: rest =>
               if c =? 0x2C then parseElements (S fuel) rest (v :: acc)
               else if c =? 0x5D then Some (JArray (rev (v :: acc)), rest)
               else None
           | [] => None
           end
       | None => None
       end).
    change (parseElements (S fuel) s acc) with
      (match parseValue fuel s with
       | Some (v, after) =>
           match skipWs after with
           | c :: rest =>
               if c =? 0x2C then parseElements fuel rest (v :: acc)
               else if c =? 0x5D then Some (JArray (rev (v :: acc)), rest)
               else None
           | [] => None
           end
       | None => None
       end).
    rewrite (IHv s) by lia.
    destruct (parseValue fuel s) as [[v after]|] eqn:E; [|reflexivity].
    apply (proj1 (parse_shorter fuel)) in E.
    pose proof (skipWs_length after) as Ha.
    destruct (skipWs after) as [|c rest]; [reflexivity|].
    cbn [List.length] in Ha.
    rewrite (IHe rest (v :: acc)) by lia. reflexivity.
  - intros s acc Hf.
    change (parseMembers (S (S fuel)) s acc) with
      (match skipWs s with
       | q :: r =>
           if q =? 0x22 then
             match parseStringBody r with
             | Some (key, r1) =>
                 match skipWs r1 with
                 | c :: r2 =>
                     if c =? 0x3A then
                       match parseValue (S fuel) r2 with
                       | Some (v, r3) =>
                           match skipWs r3 with
                           | c' :: r4 =>
                               if c' =? 0x2C then parseMembers (S fuel) r4 ((key, v) :: acc)
                               else if c' =? 0x7D then Some (JObject (rev ((key, v) :: acc)), r4)
                               else None
                           | [] => None
                           end
                       | None => None
                       end
                     else None
                 | [] => None
                 end
             | None => None
             end
           else None
       | [] => None
       end).
    change (parseMembers (S fuel) s acc) with
      (match skipWs s with
       | q :: r =>
           if q =? 0x22 then
             match parseStringBody r with
             | Some (key, r1) =>
                 match skipWs r1 with
                 | c :: r2 =>
                     if c =? 0x3A then
                       match parseValue fuel r2 with
                       | Some (v, r3) =>
                           match skipWs r3 with
                           | c' :: r4 =>
                               if c' =? 0x2C then parseMembers fuel r4 ((key, v) :: acc)
                               else if c' =? 0x7D then Some (JObject (rev ((key, v) :: acc)), r4)
                               else None
                           | [] => None
                           end
                       | None => None
                       end
                     else None
                 | [] => None
                 end
             | None => None
             end
           else None
       | [] => None
       end).
    pose proof (skipWs_length s) as Hs.
    destruct (skipWs s) as [|q r]; [reflexivity|].
    cbn [List.length] in Hs.
    destruct (q =? 0x22); [|reflexivity].
    destruct (parseStringBody r) as [[key r1]|] eqn:Ek; [|reflexivity].
    apply parseStringBody_shorter in Ek.
    pose proof (skipWs_length r1) as H1.
    destruct (skipWs r1) as [|c r2]; [reflexivity|].
    cbn [List.length] in H1.
    destruct (c =? 0x3A); [|reflexivity].
    rewrite (IHv r2) by lia.
    destruct (parseValue fuel r2) as [[v r3]|] eqn:Ev; [|reflexivity].
    apply (proj1 (parse_shorter fuel)) in Ev.
    pose proof (skipWs_length r3) as H3.
    destruct (skipWs r3) as [|c' r4]; [reflexivity|].
    cbn [List.length] in H3.
    rewrite (IHm r4 ((key, v) :: acc)) by lia. reflexivity.
Qed.

(** The fuel of [JSON_parse] is enough: more fuel gives the same result, so
    a [None] is a syntax error of the text and never a lack of fuel. *)
Lemma parseValue_fuel_enough (text : jsstring) (fuel : nat) :
  (2 * List.length text + 2 <= fuel)%nat ->
  parseValue fuel text = parseValue (2 * List.length text + 2) text.
Proof.
  intros H. induction H as [|fuel H IH]; [reflexivity|].
  rewrite <- IH. apply (proj1 (parse_fuel_step fuel)). lia.
Qed.

Lemma splitBoundary_noLF (e r : jsstring) :
  Forall (fun x => x <> 0x0A) e ->
  splitBoundary (e ++ 0x0A :: 0x0A :: r) = Some (e, r).
Proof.
  intros H. induction H as [|a e Ha He IH]; [reflexivity|].
  cbn [app]. destruct (e ++ 0x0A :: 0x0A :: r) as [|b rest] eqn:E.
  - destruct e; discriminate.
  - change (splitBoundary (a :: b :: rest))
      with (if (a =? 0x0A) && (b =? 0x0A) then Some ([], rest)
            else match splitBoundary (b :: rest) with
                 | Some (pre, post) => Some (a :: pre, post)
                 | None => None
                 end).
    replace (a =? 0x0A) with false by (symmetry; apply Z.eqb_neq; exact Ha).
    cbn [andb]. now rewrite IH.
Qed.

Lemma split_char_noLF (e : jsstring) :
  Forall (fun x => x <> 0x0A) e -> split_char 0x0A e = [e].
Proof.
  intros H. induction H as [|a e Ha He IH]; [reflexivity|].
  cbn [split_char].
  replace (a =? 0x0A) with false by (symmetry; apply Z.eqb_neq; exact Ha).
  now rewrite IH.
Qed.

Section Stream.

Variable numberIsTruthy : jsstring -> bool.
Variable numberToString : jsstring -> jsstring.

Lemma payloadContent_response (text : jsstring) :
  Forall isCodeUnit text ->
  payloadContent numberIsTruthy numberToString (JSON_stringify_response text)
  = match text with [] => None | _ :: _ => Some text end.
Proof.
  intros H. unfold payloadContent. rewrite (JSON_parse_stringify text H).
  destruct text; reflexivity.
Qed.

Lemma firstEvent_clean (text : jsstring) :
  Forall isCodeUnit text ->
  Forall (fun x => x <> 0x0A /\ x <> 0x0D) (firstEvent text)
  /\ WellFormed (firstEvent text).
Proof.
  intros H. destruct (quotes_quoteBody text H) as (_ & Hn & Hw).
  unfold firstEvent. rewrite JSON_stringify_response_shape.
  change (lit "data: ") with [0x64; 0x61; 0x74; 0x61; 0x3A; 0x20]. cbn [app].
  split.
  - repeat (constructor; [lia|]). apply Forall_app. split; [exact Hn|].
    repeat constructor; lia.
  - repeat (apply plain_WellFormed; [apply ascii_plainUnit; lia|]).
    apply Hw. repeat (apply plain_WellFormed; [apply ascii_plainUnit; lia|]).
    constructor.
Qed.

Lemma dataLinesOf_firstEvent (text : jsstring) :
  Forall isCodeUnit text ->
  dataLinesOf (firstEvent text) = [JSON_stringify_response text].
Proof.
  intros H. destruct (firstEvent_clean text H) as [Hc _].
  unfold dataLinesOf. rewrite split_char_noLF.
  2:{ eapply Forall_impl; [|exact Hc]. intros x [Hx _]. exact Hx. }
  unfold firstEvent. rewrite JSON_stringify_response_shape. reflexivity.
Qed.

Lemma streamText_no_CR (text tail : jsstring) :
  Forall isCodeUnit text -> removeCR tail = tail ->
  removeCR (streamText text ++ tail) = streamText text ++ tail.
Proof.
  intros H Ht. destruct (firstEvent_clean text H) as [Hc _].
  unfold streamText. rewrite !removeCR_app, Ht.
  rewrite (removeCR_id (firstEvent text)); [reflexivity|].
  intros Hin. rewrite Forall_forall in Hc. destruct (Hc _ Hin) as [_ Hx]. now apply Hx.
Qed.

Lemma consumeSseEvents_streamText (text tail : jsstring) :
  Forall isCodeUnit text -> removeCR tail = tail ->
  consumeSseEvents (streamText text ++ tail)
  = withEvent [JSON_stringify_response text]
      (consumeSseEvents ((lit "data: " ++ DONE ++ [0x0A; 0x0A]) ++ tail)).
Proof.
  intros H Ht. rewrite consumeSseEvents_unfold by now apply streamText_no_CR.
  destruct (firstEvent_clean text H) as [Hc _].
  unfold streamText. rewrite <- !app_assoc.
  change ([0x0A; 0x0A] ++ ?x) with (0x0A :: 0x0A :: x).
  rewrite splitBoundary_noLF.
  2:{ eapply Forall_impl; [|exact Hc]. intros x [Hx _]. exact Hx. }
  rewrite (dataLinesOf_firstEvent text H). reflexivity.
Qed.

Lemma stringify_not_DONE (text : jsstring) :
  str_eqb (JSON_stringify_response text) DONE = false.
Proof. rewrite JSON_stringify_response_shape. reflexivity. Qed.

Lemma processEvents_stream (text : jsstring) (later : list jsstring) :
  Forall isCodeUnit text ->
  processEvents numberIsTruthy numberToString []
    (JSON_stringify_response text :: DONE :: later)
  = (text, true).
Proof.
  intros H. cbn [processEvents]. rewrite stringify_not_DONE.
  rewrite (payloadContent_response text H).
  change (str_eqb DONE DONE) with true.
  destruct text; reflexivity.
Qed.

End Stream.

(* ------------------------------------------------------------------ *)
(** ** The read loop *)

Section ClientProperties.

Variable numberIsTruthy : jsstring -> bool.
Variable numberToString : jsstring -> jsstring.

Lemma processEvents_app (rt : jsstring) (evs1 evs2 : list jsstring) :
  processEvents numberIsTruthy numberToString rt (evs1 ++ evs2)
  = let '(rt1, done1) := processEvents numberIsTruthy numberToString rt evs1 in
    if done1 then (rt1, true) else processEvents numberIsTruthy numberToString rt1 evs2.
Proof.
  revert rt. induction evs1 as [|e evs1 IH]; intros rt; [reflexivity|].
  cbn [app processEvents]. destruct (str_eqb e DONE); [reflexivity|apply IH].
Qed.

(** The events before the sentinel decide; what follows it is not looked
    at. *)
Lemma processEvents_sentinel (rt : jsstring) (evs1 evs2 : list jsstring) :
  ~ In DONE evs1 ->
  processEvents numberIsTruthy numberToString rt (evs1 ++ DONE :: evs2) = (fst (processEvents numberIsTruthy numberToString rt evs1), true)
  /\ snd (processEvents numberIsTruthy numberToString rt evs1) = false.
Proof.
  revert rt. induction evs1 as [|e evs1 IH]; intros rt Hno.
  - cbn [app processEvents]. rewrite str_eqb_refl. auto.
  - cbn [app processEvents].
    destruct (str_eqb e DONE) eqn:E.
    + apply str_eqb_eq in E. exfalso. apply Hno. now left.
    + apply IH. intros H. apply Hno. now right.
Qed.

(** Split-invariance for every stream: the text shown at the end is the one
    the events of the whole decoded stream give, a blank line closing it,
    however the stream was cut into chunks. *)
Lemma readLoop_batch (reads : list (list Z)) (decoder : TextDecoder)
    (rt buffer : jsstring) :
  removeCR buffer = buffer ->
  responseText (readLoop numberIsTruthy numberToString reads decoder rt buffer)
  = fst (processEvents numberIsTruthy numberToString rt
           (parsed_events
              (consumeSseEvents
                 (buffer ++ snd (TextDecoder_decode_stream decoder (List.concat reads))
                  ++ [0x0A; 0x0A])))).
Proof.
  revert decoder rt buffer. induction reads as [|value rest IH]; intros decoder rt buffer Hb.
  - cbn [List.concat readLoop]. rewrite TextDecoder_decode_stream_nil. cbn [app].
    destruct (processEvents numberIsTruthy numberToString rt _); reflexivity.
  - cbn [List.concat readLoop]. rewrite TextDecoder_decode_stream_app.
    destruct (TextDecoder_decode_stream decoder value) as [d1 t1].
    destruct (TextDecoder_decode_stream d1 (List.concat rest)) as [d2 t2] eqn:E2.
    cbn [snd]. rewrite <- app_assoc.
    rewrite (app_assoc buffer t1).
    rewrite (consumeSseEvents_app (buffer ++ t1) (t2 ++ [0x0A; 0x0A])). cbv zeta.
    cbn [parsed_events]. rewrite processEvents_app.
    destruct (processEvents numberIsTruthy numberToString rt (parsed_events (consumeSseEvents (buffer ++ t1))))
      as [rt1 done1].
    destruct done1; [reflexivity|].
    rewrite IH by apply consumeSseEvents_buffer. now rewrite E2.
Qed.

(** Whether the loop ended on the sentinel is decided by the events of the
    whole decoded stream as well. *)
Lemma readLoop_sawDone (reads : list (list Z)) (decoder : TextDecoder)
    (rt buffer : jsstring) :
  removeCR buffer = buffer -> splitBoundary buffer = None ->
  sawDone (readLoop numberIsTruthy numberToString reads decoder rt buffer)
  = snd (processEvents numberIsTruthy numberToString rt
           (parsed_events
              (consumeSseEvents
                 (buffer ++ snd (TextDecoder_decode_stream decoder (List.concat reads)))))).
Proof.
  revert decoder rt buffer.
  induction reads as [|value rest IH]; intros decoder rt buffer Hb Hs.
  - cbn [List.concat readLoop]. rewrite TextDecoder_decode_stream_nil, app_nil_r.
    rewrite (consumeSseEvents_unfold buffer Hb), Hs.
    destruct (processEvents numberIsTruthy numberToString rt _); reflexivity.
  - cbn [List.concat readLoop]. rewrite TextDecoder_decode_stream_app.
    destruct (TextDecoder_decode_stream decoder value) as [d1 t1].
    destruct (TextDecoder_decode_stream d1 (List.concat rest)) as [d2 t2] eqn:E2.
    cbn [snd]. rewrite (app_assoc buffer t1).
    rewrite (consumeSseEvents_app (buffer ++ t1) t2). cbv zeta.
    cbn [parsed_events]. rewrite processEvents_app.
    destruct (processEvents numberIsTruthy numberToString rt
                (parsed_events (consumeSseEvents (buffer ++ t1)))) as [rt1 done1].
    destruct done1; [reflexivity|].
    destruct (consumeSseEvents_buffer (buffer ++ t1)) as [H1 H2].
    rewrite (IH d1 rt1 _ H1 H2). now rewrite E2.
Qed.

Lemma split_char_app (p s : jsstring) :
  Forall (fun x => x <> 0x0A) p ->
  split_char 0x0A (p ++ 0x0A :: s) = p :: split_char 0x0A s.
Proof.
  intros H. induction H as [|a p Ha Hp IH]; [reflexivity|].
  cbn [app split_char].
  replace (a =? 0x0A) with false by (symmetry; apply Z.eqb_neq; exact Ha).
  now rewrite IH.
Qed.

Lemma split_char_join (ls : list jsstring) :
  ls <> [] -> Forall (Forall (fun x => x <> 0x0A)) ls ->
  split_char 0x0A (join [0x0A] ls) = ls.
Proof.
  intros Hne H. induction H as [|p ls Hp Hls IH]; [contradiction|].
  destruct ls as [|q ls].
  - cbn [join]. now apply split_char_noLF.
  - change (join [0x0A] (p :: q :: ls)) with (p ++ 0x0A :: join [0x0A] (q :: ls)).
    rewrite (split_char_app p _ Hp). f_equal. apply IH. discriminate.
Qed.

(** The data lines of an event made of lines are those of its lines that
    start with [data:]. *)
Lemma dataLinesOf_join (ls : list jsstring) :
  Forall (Forall (fun x => x <> 0x0A)) ls ->
  dataLinesOf (join [0x0A] ls)
  = List.map (fun line => trimStart (skipn 5 line))
      (filter (fun line => startsWith line (lit "data:")) ls).
Proof.
  intros H. destruct ls as [|p ls]; [reflexivity|].
  unfold dataLinesOf. rewrite split_char_join; [reflexivity|discriminate|exact H].
Qed.

(** The text is cut at every LF. *)
Lemma split_char_not_nil (s : jsstring) : split_char 0x0A s <> [].
Proof.
  destruct s as [|c s]; [discriminate|]. cbn [split_char].
  destruct (c =? 0x0A); [discriminate|].
  destruct (split_char 0x0A s); discriminate.
Qed.

Lemma split_char_cut (x y : jsstring) :
  split_char 0x0A (x ++ 0x0A :: y) = split_char 0x0A x ++ split_char 0x0A y.
Proof.
  induction x as [|c x IH]; [reflexivity|].
  cbn [app split_char]. rewrite IH.
  destruct (c =? 0x0A); [reflexivity|].
  pose proof (split_char_not_nil x) as Hx.
  destruct (split_char 0x0A x); [contradiction|reflexivity].
Qed.

Lemma dataLinesOf_cut (x y : jsstring) :
  dataLinesOf (x ++ 0x0A :: y) = dataLinesOf x ++ dataLinesOf y.
Proof.
  unfold dataLinesOf. now rewrite split_char_cut, filter_app, map_app.
Qed.

Lemma dataLinesOf_other_line (l : jsstring) :
  Forall (fun x => x <> 0x0A) l -> startsWith l (lit "data:") = false ->
  dataLinesOf l = [].
Proof.
  intros Hl Hd. unfold dataLinesOf. rewrite (split_char_noLF l Hl).
  cbn [filter]. now rewrite Hd.
Qed.

(** A line that is no data line, between the lines of a raw event. *)
Lemma dataLinesOf_line_dropped (a l y : jsstring) :
  a = [] \/ last a 0 = 0x0A ->
  Forall (fun x => x <> 0x0A) l -> startsWith l (lit "data:") = false ->
  dataLinesOf (a ++ l ++ 0x0A :: y) = dataLinesOf (a ++ y)
  /\ dataLinesOf (a ++ l) = dataLinesOf (removelast a).
Proof.
  intros Ha Hl Hd. destruct Ha as [->|Ha].
  - cbn [app removelast]. rewrite dataLinesOf_cut, (dataLinesOf_other_line l Hl Hd).
    auto.
  - destruct a as [|c a'] using rev_ind; [discriminate|]. clear IHa'.
    rewrite last_last in Ha. subst c. rewrite removelast_last, <- !app_assoc.
    cbn [app]. rewrite !dataLinesOf_cut, (dataLinesOf_other_line l Hl Hd).
    cbn [app]. now rewrite app_nil_r.
Qed.

Lemma withEvent_nil (p : SseParse) : withEvent [] p = p.
Proof. reflexivity. Qed.

(** An LF in front of a text changes no event. *)
Lemma events_leading_LF (x : jsstring) :
  removeCR x = x ->
  parsed_events (consumeSseEvents (0x0A :: x)) = parsed_events (consumeSseEvents x).
Proof.
  induction x as [|c y IH]; intros Hx; [reflexivity|].
  assert (Hy : removeCR y = y).
  { change (c :: y) with ([c] ++ y) in Hx. now apply removeCR_fixed_app in Hx. }
  rewrite (consumeSseEvents_unfold (0x0A :: c :: y)).
  2:{ change (0x0A :: c :: y) with ([0x0A] ++ c :: y).
      apply removeCR_fixed_app. split; [reflexivity|exact Hx]. }
  change (splitBoundary (0x0A :: c :: y))
    with (if (0x0A =? 0x0A) && (c =? 0x0A) then Some ([], y)
          else match splitBoundary (c :: y) with
               | Some (pre, post) => Some (0x0A :: pre, post)
               | None => None
               end).
  cbn [Z.eqb Pos.eqb andb].
  destruct (c =? 0x0A) eqn:Ec.
  - apply Z.eqb_eq in Ec. subst c. change (dataLinesOf []) with (@nil jsstring).
    rewrite withEvent_nil. symmetry. now apply IH.
  - rewrite (consumeSseEvents_unfold (c :: y) Hx).
    destruct (splitBoundary (c :: y)) as [[pre post]|]; [|reflexivity].
    pose proof (dataLinesOf_cut [] pre) as Hc. cbn [app] in Hc.
    change (dataLinesOf []) with (@nil jsstring) in Hc. cbn [app] in Hc.
    now rewrite Hc.
Qed.

(** A line that is no data line and not empty, taken out of a text without
    CR together with the LF that ends it: the events stay the same. *)
Lemma events_line_dropped (a l b : jsstring) :
  removeCR a = a -> removeCR l = l -> removeCR b = b ->
  a = [] \/ last a 0 = 0x0A ->
  l <> [] -> Forall (fun x => x <> 0x0A) l -> startsWith l (lit "data:") = false ->
  parsed_events (consumeSseEvents (a ++ l ++ 0x0A :: b))
  = parsed_events (consumeSseEvents (a ++ b)).
Proof.
  intros Ha Hl Hb Hstart Hne Hlf Hd.
  assert (Hlb : removeCR (l ++ 0x0A :: b) = l ++ 0x0A :: b).
  { apply removeCR_fixed_app. split; [exact Hl|].
    change (0x0A :: b) with ([0x0A] ++ b). apply removeCR_fixed_app. now split. }
  remember (List.length a) as k eqn:Hk.
  revert a Ha Hstart Hk. induction k as [k IH] using (well_founded_induction lt_wf).
  intros a Ha Hstart Hk.
  assert (H1 : removeCR (a ++ l ++ 0x0A :: b) = a ++ l ++ 0x0A :: b)
    by (apply removeCR_fixed_app; now split).
  assert (H2 : removeCR (a ++ b) = a ++ b) by (apply removeCR_fixed_app; now split).
  destruct (splitBoundary a) as [[pre post]|] eqn:E.
  - (* a blank line above the line *)
    rewrite (consumeSseEvents_unfold _ H1), (consumeSseEvents_unfold _ H2).
    rewrite (splitBoundary_app a _ pre post E), (splitBoundary_app a _ pre post E).
    pose proof (splitBoundary_shorter a pre post E) as Hlen.
    pose proof (splitBoundary_parts a pre post E) as Hparts.
    assert (Hpost : removeCR post = post).
    { rewrite Hparts in Ha. apply removeCR_fixed_app in Ha as [_ Ha].
      now apply removeCR_fixed_app in Ha. }
    assert (Hstart' : post = [] \/ last post 0 = 0x0A).
    { destruct post as [|c post']; [now left|right].
      destruct Hstart as [->|Hstart]; [discriminate|].
      rewrite Hparts in Hstart. cbn [app] in Hstart.
      rewrite last_app_cons in Hstart. exact Hstart. }
    specialize (IH (List.length post) ltac:(lia) post Hpost Hstart' eq_refl).
    unfold withEvent.
    destruct (Z.of_nat (List.length (dataLinesOf pre)) =? 0); cbn [parsed_events];
      [exact IH|now rewrite IH].
  - (* the line stands in the first event of the text, or in what is left *)
    clear IH.
    assert (Hhd : hd 0 l <> 0x0A).
    { destruct l as [|x l']; [contradiction|]. now inversion Hlf. }
    assert (Hal : splitBoundary (a ++ l) = None).
    { rewrite (splitBoundary_junction a l E) by now right.
      now rewrite (splitBoundary_none_noLF l Hlf). }
    assert (Hlast : last (a ++ l) 0 <> 0x0A).
    { destruct (exists_last Hne) as (l' & x & ->).
      rewrite app_assoc, last_last. apply Forall_app in Hlf as [_ Hx].
      now inversion Hx. }
    destruct (dataLinesOf_line_dropped a l [] Hstart Hlf Hd) as [_ Hend].
    assert (Hother : hd 0 b <> 0x0A ->
              parsed_events (consumeSseEvents (a ++ l ++ 0x0A :: b))
              = parsed_events (consumeSseEvents (a ++ b))).
    { intros Hb0.
      rewrite (consumeSseEvents_unfold _ H1), (consumeSseEvents_unfold _ H2).
      assert (Hall : splitBoundary ((a ++ l) ++ [0x0A]) = None)
        by (rewrite (splitBoundary_junction _ [0x0A] Hal); [reflexivity|now left]).
      replace (a ++ l ++ 0x0A :: b) with (((a ++ l) ++ [0x0A]) ++ b)
        by (now rewrite <- !app_assoc).
      rewrite (splitBoundary_junction _ b Hall) by now right.
      rewrite (splitBoundary_junction a b E) by now right.
      destruct (splitBoundary b) as [[pre post]|]; [|reflexivity].
      replace (((a ++ l) ++ [0x0A]) ++ pre) with (a ++ l ++ 0x0A :: pre)
        by (now rewrite <- !app_assoc).
      destruct (dataLinesOf_line_dropped a l pre Hstart Hlf Hd) as [-> _].
      reflexivity. }
    destruct b as [|c b1]; [apply Hother; discriminate|].
    destruct (Z.eq_dec c 0x0A) as [->|Hc]; [|apply Hother; exact Hc].
    (* a blank line right under the line *)
    assert (Hb1 : removeCR b1 = b1).
    { change (0x0A :: b1) with ([0x0A] ++ b1) in Hb. now apply removeCR_fixed_app in Hb. }
    rewrite (consumeSseEvents_unfold _ H1).
    replace (a ++ l ++ 0x0A :: 0x0A :: b1) with ((a ++ l) ++ 0x0A :: 0x0A :: b1)
      by (now rewrite <- app_assoc).
    rewrite (splitBoundary_first _ b1 Hal Hlast), Hend.
    destruct Hstart as [->|Hstart].
    + cbn [app removelast]. change (dataLinesOf []) with (@nil jsstring).
      rewrite withEvent_nil. symmetry. now apply events_leading_LF.
    + destruct a as [|x a0] using rev_ind; [discriminate|]. clear IHa0.
      rewrite last_last in Hstart. subst x. rewrite removelast_last.
      destruct (splitBoundary_none_snoc a0 E) as [E0 Hl0].
      rewrite (consumeSseEvents_unfold _ H2), <- app_assoc. cbn [app].
      now rewrite (splitBoundary_first a0 b1 E0 Hl0).
Qed.

Lemma removeCR_noLF (l : jsstring) :
  Forall (fun x => x <> 0x0A) l -> Forall (fun x => x <> 0x0A) (removeCR l).
Proof.
  intros H. apply Forall_forall. intros x Hx. apply filter_In in Hx as [Hx _].
  rewrite Forall_forall in H. now apply H.
Qed.

(** C5.  As soon as a read yields an event whose payload is [[DONE]], the
    loop ends: the response text is what the events before the sentinel
    gave, the events after it in the same chunk add nothing, the carry-over
    buffer is emptied, and the chunks still to come are never read; the
    same events decide when the sentinel only shows at the end of the
    stream.  A line that is no data line counts for nothing.  Take a line
    that starts the text or follows an LF, holds no LF, is not empty once
    its CRs are deleted and then does not start with [data:]: the text
    without that line and the LF that ends it gives [consumeSseEvents] the
    same events, and a stream that decodes to the one text shows the same
    response and ends the same way as a stream that decodes to the other,
    however the two are cut into chunks.  The test is made on the line
    after its CRs are deleted, as [consumeSseEvents] makes it, and an empty
    line is left out because it ends the event.  Within one raw event, a
    line that does not start with [data:] adds nothing to the data lines. *)
Theorem C5_sentinel_ends_the_stream
    (decoder : TextDecoder) (rt buffer : jsstring)
    (value : list Z) (rest : list (list Z)) (before after : list jsstring)
    (lines1 lines2 : list jsstring) (line above below : jsstring)
    (chunks1 chunks2 : list (list Z)) :
  let text := snd (TextDecoder_decode_stream decoder value) in
  (parsed_events (consumeSseEvents (buffer ++ text)) = before ++ DONE :: after ->
   ~ In DONE before ->
   readLoop numberIsTruthy numberToString (value :: rest) decoder rt buffer
   = mkStreamResult
       (fst (processEvents numberIsTruthy numberToString rt before)) [] true rest)
  /\ (parsed_events (consumeSseEvents (buffer ++ [0x0A; 0x0A])) = before ++ DONE :: after ->
      ~ In DONE before ->
      responseText (readLoop numberIsTruthy numberToString [] decoder rt buffer)
      = fst (processEvents numberIsTruthy numberToString rt before)
      /\ unread (readLoop numberIsTruthy numberToString [] decoder rt buffer) = [])
  /\ (removeCR above = [] \/ last (removeCR above) 0 = 0x0A ->
      Forall (fun x => x <> 0x0A) line ->
      removeCR line <> [] ->
      startsWith (removeCR line) (lit "data:") = false ->
      parsed_events (consumeSseEvents (above ++ line ++ 0x0A :: below))
      = parsed_events (consumeSseEvents (above ++ below))
      /\ (snd (TextDecoder_decode_stream TextDecoder_new (List.concat chunks1))
          = above ++ line ++ 0x0A :: below ->
          snd (TextDecoder_decode_stream TextDecoder_new (List.concat chunks2))
          = above ++ below ->
          responseText (sendMessage_stream numberIsTruthy numberToString chunks1)
          = responseText (sendMessage_stream numberIsTruthy numberToString chunks2)
          /\ sawDone (sendMessage_stream numberIsTruthy numberToString chunks1)
             = sawDone (sendMessage_stream numberIsTruthy numberToString chunks2)))
  /\ (Forall (Forall (fun x => x <> 0x0A)) (lines1 ++ line :: lines2) ->
      startsWith line (lit "data:") = false ->
      dataLinesOf (join [0x0A] (lines1 ++ line :: lines2))
      = dataLinesOf (join [0x0A] (lines1 ++ lines2))).
Proof.
  intros text. split; [|split; [|split]].
  - intros He Hno. cbn [readLoop]. subst text.
    destruct (TextDecoder_decode_stream decoder value) as [d1 t1]. cbn [snd] in He.
    rewrite He.
    destruct (processEvents_sentinel rt before after Hno) as [-> _]. reflexivity.
  - intros He Hno. cbn [readLoop]. rewrite He.
    destruct (processEvents_sentinel rt before after Hno) as [-> _]. auto.
  - intros Hstart Hlf Hne Hd.
    assert (Hev : forall under,
               parsed_events (consumeSseEvents (above ++ line ++ 0x0A :: under))
               = parsed_events (consumeSseEvents (above ++ under))).
    { intros under.
      rewrite <- (consumeSseEvents_removeCR (above ++ line ++ 0x0A :: under)).
      rewrite <- (consumeSseEvents_removeCR (above ++ under)).
      rewrite !removeCR_app.
      change (removeCR (0x0A :: under)) with (0x0A :: removeCR under).
      apply events_line_dropped; try apply removeCR_idempotent; try assumption.
      now apply removeCR_noLF. }
    split; [apply Hev|]. intros H1 H2. unfold sendMessage_stream. split.
    + rewrite !readLoop_batch by reflexivity. rewrite H1, H2. cbn [app].
      rewrite <- !app_assoc. cbn [app]. now rewrite Hev.
    + rewrite !readLoop_sawDone by reflexivity. rewrite H1, H2. cbn [app].
      now rewrite Hev.
  - intros Hl Hd. rewrite !dataLinesOf_join.
    + rewrite !filter_app. cbn [filter]. now rewrite Hd.
    + apply Forall_app in Hl as [H1 H2]. inversion H2; subst.
      apply Forall_app. auto.
    + exact Hl.
Qed.

(** C1.  Whatever the text (any sequence of UTF-16 code units) and however
    the bytes [sseTextResponse] produces for it are cut into chunks, the
    read loop of the client ends on the sentinel with that very text as the
    accumulated response. *)
Theorem C1_round_trip_split_invariant (text : jsstring) (chunks : list (list Z)) :
  Forall isCodeUnit text ->
  List.concat chunks = List.concat (sseTextResponse text) ->
  responseText (sendMessage_stream numberIsTruthy numberToString chunks) = text
  /\ sawDone (sendMessage_stream numberIsTruthy numberToString chunks) = true.
Proof.
  intros Htext Hchunks.
  destruct (firstEvent_clean text Htext) as [_ Hwf].
  assert (Hdec : TextDecoder_decode_stream TextDecoder_new (List.concat chunks)
                 = (mkTextDecoder utf8_init true, streamText text)).
  { rewrite Hchunks. unfold sseTextResponse. cbn [List.concat]. rewrite app_nil_r.
    rewrite (app_assoc (lit "data: ") (JSON_stringify_response text) [0x0A; 0x0A]).
    fold (firstEvent text).
    apply (decode_encode _ _ 0x64
             ([0x61; 0x74; 0x61; 0x3A; 0x20] ++ JSON_stringify_response text
              ++ [0x0A; 0x0A])).
    - unfold firstEvent. rewrite <- app_assoc. reflexivity.
    - discriminate.
    - apply WellFormed_app; [exact Hwf|].
      repeat (apply plain_WellFormed; [apply ascii_plainUnit; lia|]). constructor.
    - vm_compute.
      repeat (apply plain_WellFormed; [apply ascii_plainUnit; lia|]). constructor. }
  assert (Hev : forall tail,
             tail = [] \/ tail = [0x0A; 0x0A] ->
             parsed_events (consumeSseEvents (streamText text ++ tail))
             = [JSON_stringify_response text; DONE]).
  { intros tail Ht.
    rewrite (consumeSseEvents_streamText text tail Htext)
      by (destruct Ht as [->| ->]; reflexivity).
    replace (consumeSseEvents ((lit "data: " ++ DONE ++ [0x0A; 0x0A]) ++ tail))
      with (mkSseParse [DONE] [])
      by (destruct Ht as [->| ->]; vm_compute; reflexivity).
    reflexivity. }
  unfold sendMessage_stream. split.
  - rewrite readLoop_batch by reflexivity. rewrite Hdec. cbn [snd app].
    rewrite (Hev [0x0A; 0x0A]) by now right.
    now rewrite (processEvents_stream numberIsTruthy numberToString text [] Htext).
  - rewrite readLoop_sawDone by reflexivity. rewrite Hdec. cbn [snd app].
    rewrite <- (app_nil_r (streamText text)). rewrite (Hev []) by now left.
    now rewrite (processEvents_stream numberIsTruthy numberToString text [] Htext).
Qed.

End ClientProperties.

(* ------------------------------------------------------------------ *)
(** ** The stream theorems at concrete streams *)

Lemma isCodeUnit_forallb (s : jsstring) :
  forallb (fun c => (0 <=? c) && (c <? 65536)) s = true -> Forall isCodeUnit s.
Proof.
  intros H. apply Forall_forall. intros c Hc.
  rewrite forallb_forall in H. specialize (H c Hc). unfold isCodeUnit. zbool. lia.
Qed.

Lemma concat_singletons {A : Type} (l : list A) :
  List.concat (List.map (fun x => [x]) l) = l.
Proof. induction l as [|x l IH]; simpl; [reflexivity|now rewrite IH]. Qed.

(** C1 at a text with a line break, a CR, a quote, a backslash, a lone
    surrogate and a character outside the basic plane, the bytes arriving
    one by one. *)
Lemma C1_witness_byte_by_byte :
  let text :=
    lit "Jets: 1, 2" ++ [0x0A; 0x0D; 0x22; 0x5C; 0xD800] ++ lit " dé 🎲" in
  let chunks := List.map (fun b => [b]) (List.concat (sseTextResponse text)) in
  Forall isCodeUnit text
  /\ List.concat chunks = List.concat (sseTextResponse text)
  /\ responseText (sendMessage_stream (fun _ => true) (fun l => l) chunks) = text
  /\ sawDone (sendMessage_stream (fun _ => true) (fun l => l) chunks) = true.
Proof.
  cbv zeta.
  assert (H1 : Forall isCodeUnit
                 (lit "Jets: 1, 2" ++ [0x0A; 0x0D; 0x22; 0x5C; 0xD800] ++ lit " dé 🎲"))
    by (apply isCodeUnit_forallb; vm_compute; reflexivity).
  split; [exact H1|]. split; [apply concat_singletons|].
  exact (C1_round_trip_split_invariant (fun _ => true) (fun l => l) _ _ H1
           (concat_singletons _)).
Defined.

(** C5 at a chunk that holds an event, a comment line, the sentinel and one
    more event, a further chunk waiting behind it: the loop ends on the
    sentinel, and the chunk without the comment line gives the same events,
    the same response and the same end. *)
Lemma C5_witness_sentinel_mid_chunk :
  let first := JSON_stringify_response (lit "Bonjour") in
  let late := JSON_stringify_response (lit " trop tard") in
  let above := lit "data: " ++ first ++ [0x0A; 0x0A] in
  let line := lit ": note" in
  let below := lit "data: [DONE]" ++ [0x0A; 0x0A] ++ lit "data: " ++ late ++ [0x0A; 0x0A] in
  let value :=
    TextEncoder_encode
      (lit "data: " ++ first ++ [0x0A; 0x0A] ++ lit ": note" ++ [0x0A]
       ++ lit "data: [DONE]" ++ [0x0A; 0x0A] ++ lit "data: " ++ late ++ [0x0A; 0x0A]) in
  let rest := [TextEncoder_encode (lit "data: " ++ late ++ [0x0A; 0x0A])] in
  let bare := TextEncoder_encode (above ++ below) in
  parsed_events
    (consumeSseEvents ([] ++ snd (TextDecoder_decode_stream TextDecoder_new value)))
  = [first] ++ DONE :: [late]
  /\ readLoop (fun _ => true) (fun l => l) (value :: rest) TextDecoder_new [] []
     = mkStreamResult (lit "Bonjour") [] true rest
  /\ startsWith (removeCR line) (lit "data:") = false
  /\ snd (TextDecoder_decode_stream TextDecoder_new (List.concat [value]))
     = above ++ line ++ 0x0A :: below
  /\ snd (TextDecoder_decode_stream TextDecoder_new (List.concat [bare])) = above ++ below
  /\ parsed_events (consumeSseEvents (above ++ line ++ 0x0A :: below))
     = parsed_events (consumeSseEvents (above ++ below))
  /\ responseText (sendMessage_stream (fun _ => true) (fun l => l) [value])
     = responseText (sendMessage_stream (fun _ => true) (fun l => l) [bare])
  /\ sawDone (sendMessage_stream (fun _ => true) (fun l => l) [value])
     = sawDone (sendMessage_stream (fun _ => true) (fun l => l) [bare]).
Proof.
  cbv zeta.
  set (first := JSON_stringify_response (lit "Bonjour")).
  set (late := JSON_stringify_response (lit " trop tard")).
  set (value := TextEncoder_encode
                  (lit "data: " ++ first ++ [0x0A; 0x0A] ++ lit ": note" ++ [0x0A]
                   ++ lit "data: [DONE]" ++ [0x0A; 0x0A] ++ lit "data: " ++ late
                   ++ [0x0A; 0x0A])).
  set (rest := [TextEncoder_encode (lit "data: " ++ late ++ [0x0A; 0x0A])]).
  set (above := lit "data: " ++ first ++ [0x0A; 0x0A]).
  set (below := lit "data: [DONE]" ++ [0x0A; 0x0A] ++ lit "data: " ++ late ++ [0x0A; 0x0A]).
  set (bare := TextEncoder_encode (above ++ below)).
  pose proof (C5_sentinel_ends_the_stream (fun _ => true) (fun l => l)
                TextDecoder_new [] [] value rest [first] [late] [] []
                (lit ": note") above below [value] [bare]) as (Hsentinel & _ & Hline & _).
  cbv zeta in Hsentinel.
  assert (He : parsed_events
                 (consumeSseEvents
                    ([] ++ snd (TextDecoder_decode_stream TextDecoder_new value)))
               = [first] ++ DONE :: [late])
    by (vm_compute; reflexivity).
  assert (Hno : ~ In DONE [first]) by (vm_compute; intros [E|[]]; discriminate).
  assert (Hstart : removeCR above = [] \/ last (removeCR above) 0 = 0x0A)
    by (right; vm_compute; reflexivity).
  assert (Hlf : Forall (fun x => x <> 0x0A) (lit ": note"))
    by (vm_compute; repeat (constructor; [discriminate|]); constructor).
  assert (Hne : removeCR (lit ": note") <> []) by (vm_compute; discriminate).
  assert (Hd : startsWith (removeCR (lit ": note")) (lit "data:") = false)
    by (vm_compute; reflexivity).
  assert (H1 : snd (TextDecoder_decode_stream TextDecoder_new (List.concat [value]))
               = above ++ lit ": note" ++ 0x0A :: below)
    by (vm_compute; reflexivity).
  assert (H2 : snd (TextDecoder_decode_stream TextDecoder_new (List.concat [bare]))
               = above ++ below)
    by (vm_compute; reflexivity).
  destruct (Hline Hstart Hlf Hne Hd) as [Hev Hstream].
  destruct (Hstream H1 H2) as [Hshown Hend].
  split; [exact He|].
  split; [rewrite (Hsentinel He Hno); vm_compute; reflexivity|].
  split; [exact Hd|]. split; [exact H1|]. split; [exact H2|].
  split; [exact Hev|]. split; [exact Hshown|exact Hend].
Defined.

(** C5 as stated fails.  The line [da<CR>ta: [DONE]] does not start with
    [data:], yet [consumeSseEvents] deletes the CR before it looks at the
    line: the line gives the payload [[DONE]], and the loop ends on it
    without showing the answer that follows, which the stream without that
    line shows.  An empty line does not start with [data:] either, and with
    it two data lines make two events where without it they make one. *)
Lemma C5_line_with_CR_is_a_data_line :
  let line := lit "da" ++ [0x0D] ++ lit "ta: [DONE]" in
  let answer := lit "data: " ++ JSON_stringify_response (lit "Bonjour") ++ [0x0A; 0x0A] in
  let chunk := TextEncoder_encode (line ++ [0x0A; 0x0A] ++ answer) in
  startsWith line (lit "data:") = false
  /\ Forall (fun x => x <> 0x0A) line
  /\ parsed_events (consumeSseEvents (line ++ [0x0A; 0x0A] ++ answer))
     = [DONE; JSON_stringify_response (lit "Bonjour")]
  /\ parsed_events (consumeSseEvents ([0x0A] ++ answer))
     = [JSON_stringify_response (lit "Bonjour")]
  /\ sendMessage_stream (fun _ => true) (fun l => l) [chunk]
     = mkStreamResult [] [] true []
  /\ sendMessage_stream (fun _ => true) (fun l => l) [TextEncoder_encode ([0x0A] ++ answer)]
     = mkStreamResult (lit "Bonjour") [] false []
  /\ startsWith [] (lit "data:") = false
  /\ parsed_events
       (consumeSseEvents (lit "data: a" ++ [0x0A] ++ [] ++ [0x0A] ++ lit "data: b"
                          ++ [0x0A; 0x0A]))
     = [lit "a"; lit "b"]
  /\ parsed_events
       (consumeSseEvents (lit "data: a" ++ [0x0A] ++ lit "data: b" ++ [0x0A; 0x0A]))
     = [lit "a" ++ [0x0A] ++ lit "b"].
Proof.
  vm_compute. repeat split; try reflexivity.
  repeat (constructor; [discriminate|]). constructor.
Qed.

(* ================================================================== *)
(** * Further properties: the router, the page, the streams *)
(* ================================================================== *)

(* ------------------------------------------------------------------ *)
(** ** The contract of randIntInclusive *)

Lemma rejectionLoop_consumes (lo range limit : Z) (src : list Z) v src' :
  rejectionLoop lo range limit src = Returns v src' ->
  exists skipped x,
    src = skipped ++ x :: src'
    /\ Forall (fun y => limit <= y mod 2 ^ 32) skipped
    /\ x mod 2 ^ 32 < limit
    /\ v = lo + (x mod 2 ^ 32) mod range.
Proof.
  induction src as [|y src IH]; cbn [rejectionLoop]; [discriminate|].
  destruct (Z.ltb_spec (y mod 2 ^ 32) limit) as [Hy|Hy].
  - intros H; injection H as <- <-. exists [], y. repeat split; auto.
  - intros H. destruct (IH H) as (skipped & x & -> & Hs & Hx & Hv).
    exists (y :: skipped), x. repeat split; auto.
Qed.

Lemma rejectionLoop_limit_0 (lo range limit : Z) (src : list Z) :
  limit <= 0 -> rejectionLoop lo range limit src = Starved.
Proof.
  intros H. induction src as [|y src IH]; cbn [rejectionLoop]; [reflexivity|].
  pose proof (Z.mod_pos_bound y (2 ^ 32) ltac:(lia)).
  replace (y mod 2 ^ 32 <? limit) with false by (symmetry; apply Z.ltb_ge; lia).
  exact IH.
Qed.

(** X1.  The contract of [randIntInclusive(min, max)] for integer bounds that a
    double holds exactly.  It throws exactly when [max < min], before any
    draw.  Otherwise it skips the draws at or above the limit and returns
    [min + x mod range] for the first draw [x] below it, a value of
    [min..max]; when the range has at most [2^32 - 1] values the limit is a
    multiple of the range, fewer than [range] draws short of [2^32 - 1]; when
    the range has [2^32] values or more the limit is 0 and the loop never
    ends, whatever the draws. *)
Theorem X1_randIntInclusive_contract (min max : Z) (src : list Z) :
  Z.abs min <= 2 ^ 52 -> Z.abs max <= 2 ^ 52 ->
  let range := max - min + 1 in
  let limit := maxUint32 - maxUint32 mod range in
  (max < min <-> randIntInclusive min max src = Throws (lit "Invalid random range"))
  /\ (forall m, randIntInclusive min max src = Throws m -> max < min)
  /\ (forall v src', randIntInclusive min max src = Returns v src' ->
        min <= v <= max
        /\ exists skipped x,
             src = skipped ++ x :: src'
             /\ Forall (fun y => limit <= y mod 2 ^ 32) skipped
             /\ x mod 2 ^ 32 < limit
             /\ v = min + (x mod 2 ^ 32) mod range)
  /\ (1 <= range <= maxUint32 ->
        limit mod range = 0 /\ maxUint32 - range < limit <= maxUint32
        /\ (Exists (fun x => x mod 2 ^ 32 < limit) src ->
              exists v src', randIntInclusive min max src = Returns v src'))
  /\ (maxUint32 < range -> randIntInclusive min max src = Starved).
Proof.
  intros _ _ range limit. unfold randIntInclusive. cbv zeta. fold range. fold limit.
  destruct (Z.ltb_spec max min) as [Hlt|Hge].
  - split; [split; auto|]. split; [auto|]. split; [discriminate|].
    split; intros; unfold range, maxUint32 in *; lia.
  - split; [split; [lia|]|].
    { intros H. now apply rejectionLoop_not_Throws in H. }
    split. { intros m H. now apply rejectionLoop_not_Throws in H. }
    split.
    { intros v src' H. split.
      - apply rejectionLoop_range in H; unfold range in *; lia.
      - now apply rejectionLoop_consumes. }
    split.
    { intros Hr. pose proof (Z.mod_pos_bound maxUint32 range ltac:(lia)) as Hm.
      split; [|split].
      - unfold limit. rewrite randLimit_multiple by lia.
        rewrite Z.mul_comm. apply Z.mod_mul. lia.
      - unfold limit. lia.
      - apply rejectionLoop_returns. }
    intros Hr. apply rejectionLoop_limit_0. unfold limit.
    rewrite Z.mod_small by (unfold maxUint32 in *; lia). lia.
Qed.

(** X1 on the range from -3 to 3: two draws at or above the limit are
    skipped, the third gives 2. *)
Lemma X1_witness_minus3_to_3 :
  Z.abs (-3) <= 2 ^ 52 /\ Z.abs 3 <= 2 ^ 52
  /\ randIntInclusive (-3) 3 [4294967295; 4294967293; 12] = Returns 2 []
  /\ (3 < -3 <-> randIntInclusive (-3) 3 [4294967295; 4294967293; 12]
                 = Throws (lit "Invalid random range")).
Proof.
  assert (H1 : Z.abs (-3) <= 2 ^ 52) by (vm_compute; discriminate).
  assert (H2 : Z.abs 3 <= 2 ^ 52) by (vm_compute; discriminate).
  split; [exact H1|]. split; [exact H2|]. split; [reflexivity|].
  exact (proj1 (X1_randIntInclusive_contract (-3) 3 [4294967295; 4294967293; 12] H1 H2)).
Defined.

(* ------------------------------------------------------------------ *)
(** ** Where the persona and the profile go *)

Lemma isCasusSystem_persona : isCasusSystem (mkChatMessage system SYSTEM_PROMPT) = true.
Proof. vm_compute. reflexivity. Qed.

Lemma profile_is_system (casus : option CasusProfile) (p : ChatMessage) :
  buildCasusProfileSystemMessage casus = Some p -> role p = system.
Proof.
  unfold buildCasusProfileSystemMessage. destruct casus as [c|]; [|discriminate].
  destruct (Z.of_nat _ =? 0); [discriminate|]. intros H; injection H as <-. reflexivity.
Qed.

(** The list handed to the model, the index of the profile worked out. *)
Lemma composeMessages_unfold (messages : list ChatMessage)
    (casus : option CasusProfile) :
  let based :=
    if existsb isCasusSystem messages then messages
    else mkChatMessage system SYSTEM_PROMPT :: messages in
  composeMessages messages casus
  = match buildCasusProfileSystemMessage casus, based with
    | None, _ => based
    | Some p, [] => [p]
    | Some p, m :: rest =>
        if Role_eqb (role m) system then m :: p :: rest else p :: m :: rest
    end.
Proof.
  unfold composeMessages. cbv zeta.
  destruct (existsb isCasusSystem messages); cbn [negb];
    (destruct (buildCasusProfileSystemMessage casus) as [p|]; [|reflexivity]);
    rewrite profile_index.
  - destruct messages as [|m rest]; [reflexivity|].
    destruct (Role_eqb (role m) system); reflexivity.
  - reflexivity.
Qed.

(** X2.  The list handed to the model, case by case.  With no system message
    carrying the marker phrase the persona goes first, the profile second,
    the incoming messages after them.  With one, nothing is added but the
    profile: behind the first message when that is a system message, in
    front of all of them otherwise.  The incoming messages keep their
    order. *)
Theorem X2_composeMessages_cases (messages : list ChatMessage)
    (casus : option CasusProfile) :
  let persona := mkChatMessage system SYSTEM_PROMPT in
  let profile :=
    match buildCasusProfileSystemMessage casus with Some p => [p] | None => [] end in
  (existsb isCasusSystem messages = false ->
     composeMessages messages casus = persona :: profile ++ messages)
  /\ (existsb isCasusSystem messages = true ->
        exists m rest,
          messages = m :: rest
          /\ composeMessages messages casus
             = if Role_eqb (role m) system then m :: profile ++ rest
               else profile ++ m :: rest).
Proof.
  intros persona profile.
  pose proof (composeMessages_unfold messages casus) as H. cbv zeta in H.
  split.
  - intros E. rewrite E in H. rewrite H. subst profile persona.
    destruct (buildCasusProfileSystemMessage casus); reflexivity.
  - intros E. rewrite E in H.
    destruct messages as [|m rest]; [discriminate|].
    exists m, rest. split; [reflexivity|]. rewrite H. subst profile.
    destruct (buildCasusProfileSystemMessage casus);
      destruct (Role_eqb (role m) system); reflexivity.
Qed.

Lemma existsb_splice {A : Type} (f : A -> bool) (idx : Z) (x : A) (l : list A) :
  existsb f l = true -> existsb f (splice_insert idx x l) = true.
Proof.
  intros H. unfold splice_insert. rewrite existsb_app. cbn [existsb].
  rewrite <- (firstn_skipn (Z.to_nat idx) l), existsb_app in H.
  apply orb_true_iff in H as [H|H]; rewrite H; auto using orb_true_r.
  now rewrite !orb_true_r.
Qed.

(** X3.  Whatever comes in, the list handed to the model holds a system message
    carrying the marker phrase, every incoming message is still in it, and
    at most two messages were added; handing that list in again without a
    profile adds nothing. *)
Theorem X3_persona_always_present (messages : list ChatMessage)
    (casus : option CasusProfile) :
  let forwarded := composeMessages messages casus in
  existsb isCasusSystem forwarded = true
  /\ (forall m, In m messages -> In m forwarded)
  /\ (List.length messages <= List.length forwarded <= List.length messages + 2)%nat
  /\ composeMessages forwarded None = forwarded.
Proof.
  intros forwarded.
  assert (Hex : existsb isCasusSystem forwarded = true).
  { subst forwarded. unfold composeMessages.
    set (based := if negb (existsb isCasusSystem messages)
                  then mkChatMessage system SYSTEM_PROMPT :: messages else messages).
    assert (Hb : existsb isCasusSystem based = true).
    { subst based. destruct (existsb isCasusSystem messages) eqn:E; cbn [negb]; [exact E|].
      cbn [existsb]. now rewrite isCasusSystem_persona. }
    destruct (buildCasusProfileSystemMessage casus) as [p|]; [|exact Hb].
    cbv zeta. now apply existsb_splice. }
  split; [exact Hex|].
  pose proof (composeMessages_unfold messages casus) as Hc. cbv zeta in Hc.
  fold forwarded in Hc.
  split; [|split].
  - intros m Hm. rewrite Hc.
    destruct (existsb isCasusSystem messages), (buildCasusProfileSystemMessage casus) as [p|];
      try exact Hm; try (right; exact Hm).
    + destruct messages as [|m0 rest]; [contradiction|].
      destruct (Role_eqb (role m0) system).
      * destruct Hm as [->|Hm]; [now left|right; now right].
      * right. exact Hm.
    + cbn [Role_eqb role]. right. right. exact Hm.
  - rewrite Hc.
    destruct (existsb isCasusSystem messages), (buildCasusProfileSystemMessage casus) as [p|];
      cbn [List.length]; try lia.
    + destruct messages as [|m0 rest]; [cbn [List.length]; lia|].
      destruct (Role_eqb (role m0) system); cbn [List.length]; lia.
    + cbn [Role_eqb role List.length]. lia.
  - apply persona_inserted_iff. exact Hex.
Qed.

(* ------------------------------------------------------------------ *)
(** ** The router *)

Section RouterProperties.

Variable lowerNonAscii : jsstring -> nat -> jsstring.
Variable formatUnsafe : Z -> jsstring.

(** X4.  The router sends a request to the asset server exactly when its path
    does not start with [/api/] (the test for the path [/] adds nothing);
    under [/api/] only the path [/api/chat] exists, every other one is
    answered 404; on [/api/chat] every method but POST is answered 405.
    Only a POST to [/api/chat] reaches [handleChatRequest]: any other
    request is answered without a draw from the random source. *)
Theorem X4_fetch_routes (pathname method : jsstring)
    (messages : list ChatMessage) (casus : option CasusProfile) (src : list Z) :
  let result := fetch lowerNonAscii formatUnsafe pathname method messages casus src in
  (result = Returns FromAssets src <-> startsWith pathname (lit "/api/") = false)
  /\ (result = Returns (Plain 404 (lit "Not found")) src
      <-> startsWith pathname (lit "/api/") = true /\ pathname <> lit "/api/chat")
  /\ (result = Returns (Plain 405 (lit "Method not allowed")) src
      <-> pathname = lit "/api/chat" /\ method <> lit "POST")
  /\ (pathname = lit "/api/chat" /\ method = lit "POST" ->
        result = match handleChatRequest lowerNonAscii formatUnsafe messages casus src with
                 | Returns response src' => Returns (FromChat response) src'
                 | Throws m => Throws m
                 | Starved => Starved
                 end)
  /\ ((exists response src', result = Returns (FromChat response) src') ->
        pathname = lit "/api/chat" /\ method = lit "POST").
Proof.
  intros result. subst result. unfold fetch.
  set (handled := match handleChatRequest lowerNonAscii formatUnsafe messages casus src with
                  | Returns response src' => Returns (FromChat response) src'
                  | Throws m => Throws m
                  | Starved => Starved
                  end).
  assert (Hh : forall st body, handled <> Returns (Plain st body) src).
  { subst handled.
    destruct (handleChatRequest lowerNonAscii formatUnsafe messages casus src);
      intros st body; discriminate. }
  assert (Hroot : str_eqb pathname (lit "/") = true ->
                  startsWith pathname (lit "/api/") = false).
  { intros H. apply str_eqb_eq in H. now subst pathname. }
  assert (Hchat : pathname = lit "/api/chat" ->
                  startsWith pathname (lit "/api/") = true).
  { now intros ->. }
  destruct (str_eqb pathname (lit "/")) eqn:Er;
    [pose proof (Hroot eq_refl) as Eapi; rewrite Eapi
    |destruct (startsWith pathname (lit "/api/")) eqn:Eapi];
    cbn [orb negb];
    (destruct (str_eqb pathname (lit "/api/chat")) eqn:Ec;
     [apply str_eqb_eq in Ec; pose proof (Hchat Ec)|apply str_eqb_neq in Ec]);
    (destruct (str_eqb method (lit "POST")) eqn:Em;
     [apply str_eqb_eq in Em|apply str_eqb_neq in Em]);
    try congruence;
    repeat split; intros;
    repeat match goal with
           | H : _ /\ _ |- _ => destruct H
           | H : exists _, _ |- _ => destruct H
           end;
    try discriminate; try congruence; try contradiction; auto;
    try (exfalso; eapply Hh; eassumption);
    try (exfalso; subst handled;
         destruct (handleChatRequest lowerNonAscii formatUnsafe messages casus src);
         discriminate).
Qed.

End RouterProperties.

(* ------------------------------------------------------------------ *)
(** ** Trimming *)

Lemma trimStart_idempotent (s : jsstring) : trimStart (trimStart s) = trimStart s.
Proof.
  induction s as [|c s IH]; [reflexivity|]. cbn [trimStart].
  destruct (isWhiteSpace c) eqn:E; [exact IH|]. cbn [trimStart]. now rewrite E.
Qed.

Lemma trimStart_keptHead (s : jsstring) : keptHead (trimStart s).
Proof.
  induction s as [|c s IH]; [exact I|]. cbn [trimStart].
  destruct (isWhiteSpace c) eqn:E; [exact IH|exact E].
Qed.

Lemma keptHead_trimStart (s : jsstring) : keptHead s -> trimStart s = s.
Proof. destruct s as [|c s]; [reflexivity|]. cbn. now intros ->. Qed.

Lemma trimStart_suffix (s : jsstring) : exists ws, s = ws ++ trimStart s.
Proof.
  induction s as [|c s (ws & IH)]; [now exists []|]. cbn [trimStart].
  destruct (isWhiteSpace c).
  - exists (c :: ws). cbn [app]. now rewrite <- IH.
  - now exists [].
Qed.

Lemma trimStart_app_kept (a : jsstring) (c : Z) :
  isWhiteSpace c = false -> exists a', trimStart (a ++ [c]) = a' ++ [c].
Proof.
  intros Hc. induction a as [|x a (a' & IH)].
  - exists []. cbn. now rewrite Hc.
  - cbn [app trimStart]. destruct (isWhiteSpace x).
    + now exists a'.
    + now exists (x :: a).
Qed.

Lemma trimEnd_keptHead (s : jsstring) : keptHead s -> keptHead (trimEnd s).
Proof.
  destruct s as [|c s]; [intros _; exact I|]. cbn [keptHead]. intros Hc.
  unfold trimEnd. cbn [rev].
  destruct (trimStart_app_kept (rev s) c Hc) as (a' & ->).
  rewrite rev_app_distr. cbn. exact Hc.
Qed.

Lemma trim_idempotent (s : jsstring) : trim (trim s) = trim s.
Proof.
  unfold trim at 1.
  rewrite (keptHead_trimStart (trim s))
    by (apply trimEnd_keptHead, trimStart_keptHead).
  unfold trim, trimEnd. now rewrite rev_involutive, trimStart_idempotent.
Qed.

(* ------------------------------------------------------------------ *)
(** ** The profile the page sends, as the worker reads it *)

(** The lines the worker draws from the profile of the page. *)
Lemma profileLines_page (modeSelect universeInput : option jsstring) :
  let universe := match universeInput with Some value => trim value | None => [] end in
  profileLines (buildCasusProfile modeSelect universeInput)
  = (if strictEq modeSelect (lit "joueur") then LINE_JOUEUR else LINE_MJ)
    :: (if isEmpty universe then [] else [lit "Univers/ton: " ++ universe]).
Proof.
  intros universe. unfold profileLines, buildCasusProfile.
  cbn [mode univers style option_map].
  fold universe.
  assert (Ht : trim universe = universe).
  { subst universe. destruct universeInput; [apply trim_idempotent|reflexivity]. }
  assert (Hm : (if str_eqb (if truthy modeSelect then orEmpty modeSelect else lit "mj")
                     (lit "joueur")
                then lit "joueur" else lit "mj")
               = if strictEq modeSelect (lit "joueur") then lit "joueur" else lit "mj").
  { destruct modeSelect as [[|c v]|]; reflexivity. }
  rewrite Hm.
  destruct (strictEq modeSelect (lit "joueur"));
    (destruct (isEmpty universe) eqn:Eu;
     [|cbn [option_map]; rewrite Ht; destruct universe; [discriminate|]]);
    reflexivity.
Qed.

Lemma page_profile_not_null (modeSelect universeInput : option jsstring) :
  exists profile,
    buildCasusProfileSystemMessage (Some (buildCasusProfile modeSelect universeInput))
    = Some profile.
Proof.
  unfold buildCasusProfileSystemMessage.
  pose proof (profileLines_page modeSelect universeInput) as H. cbv zeta in H.
  rewrite H, length_eqb_0. eauto.
Qed.

(** X5.  Whatever the two controls hold, the profile of the page gives the
    worker a profile message, never null: the mode is [joueur] when the
    select says so and [mj] in every other case (no select, no value, any
    other value), so the message always has its mode line; the line of the
    universe follows exactly when the input holds more than white space;
    there is never a line of style. *)
Theorem X5_page_profile_message (modeSelect universeInput : option jsstring) :
  let casus := buildCasusProfile modeSelect universeInput in
  let joueur := strictEq modeSelect (lit "joueur") in
  let universe := match universeInput with Some value => trim value | None => [] end in
  mode casus = Some (if joueur then lit "joueur" else lit "mj")
  /\ univers casus = (if isEmpty universe then None else Some universe)
  /\ style casus = None
  /\ buildCasusProfileSystemMessage (Some casus)
     = Some (mkChatMessage system
               (lit "Contexte de partie:" ++ [0x0A]
                ++ join [0x0A]
                     ((if joueur then LINE_JOUEUR else LINE_MJ)
                      :: (if isEmpty universe then []
                          else [lit "Univers/ton: " ++ universe])))).
Proof.
  intros casus joueur universe.
  split.
  { subst casus joueur. unfold buildCasusProfile. cbn [mode].
    destruct modeSelect as [[|c v]|]; reflexivity. }
  split; [reflexivity|]. split; [reflexivity|].
  unfold buildCasusProfileSystemMessage. subst casus.
  pose proof (profileLines_page modeSelect universeInput) as H. cbv zeta in H.
  rewrite H. fold joueur universe.
  rewrite length_eqb_0. reflexivity.
Qed.

(* ------------------------------------------------------------------ *)
(** ** The event parser on any input *)

Lemma indexOf_boundary_absent (s : jsstring) :
  indexOf s [0x0A; 0x0A] = -1 <-> splitBoundary s = None.
Proof.
  unfold indexOf. pose proof (indexOf_splitBoundary s 0) as H.
  destruct (splitBoundary s) as [[pre post]|].
  - destruct H as [H _]. split; [lia|discriminate].
  - split; auto.
Qed.

(** X6.  Reading a text in two pieces, the buffer of the first call carried
    into the second as [sendMessage] does, gives the events and the buffer of
    reading it whole, wherever the cut falls. *)
Theorem X6_consumeSseEvents_incremental (a b : jsstring) :
  let first := consumeSseEvents a in
  let second := consumeSseEvents (parsed_buffer first ++ b) in
  parsed_events (consumeSseEvents (a ++ b)) = parsed_events first ++ parsed_events second
  /\ parsed_buffer (consumeSseEvents (a ++ b)) = parsed_buffer second.
Proof.
  cbv zeta. pose proof (consumeSseEvents_app a b) as H. cbv zeta in H.
  rewrite H. split; reflexivity.
Qed.

Lemma consumeSseEvents_suffix (x : jsstring) :
  exists consumed, removeCR x = consumed ++ parsed_buffer (consumeSseEvents x).
Proof.
  rewrite <- consumeSseEvents_removeCR.
  pose proof (removeCR_idempotent x) as Hn.
  remember (removeCR x) as n eqn:E. clear E x.
  remember (List.length n) as k eqn:Hk.
  revert n Hn Hk. induction k as [k IH] using (well_founded_induction lt_wf).
  intros n Hn Hk. rewrite (consumeSseEvents_unfold n Hn).
  destruct (splitBoundary n) as [[pre post]|] eqn:E.
  - destruct (withEvent_events (dataLinesOf pre) (consumeSseEvents post)) as [-> _].
    pose proof (splitBoundary_shorter n pre post E).
    pose proof (splitBoundary_parts n pre post E) as Hparts.
    assert (Hpost : removeCR post = post).
    { rewrite Hparts in Hn.
      apply removeCR_fixed_app in Hn as [_ Hn]. now apply removeCR_fixed_app in Hn. }
    destruct (IH (List.length post) ltac:(lia) post Hpost eq_refl) as (c & Hc).
    exists (pre ++ [0x0A; 0x0A] ++ c).
    rewrite Hparts at 1. rewrite Hc at 1. now rewrite <- !app_assoc.
  - exists []. reflexivity.
Qed.

(** X7.  What [consumeSseEvents] leaves in the buffer is the end of its
    input (CR removed): it holds no CR and no blank line, and reading it
    again gives no event and leaves it as it is.  An input without a blank
    line gives no event and is kept whole. *)
Theorem X7_buffer_is_unfinished_tail (x : jsstring) :
  let parsed := consumeSseEvents x in
  (exists consumed, removeCR x = consumed ++ parsed_buffer parsed)
  /\ ~ In 0x0D (parsed_buffer parsed)
  /\ indexOf (parsed_buffer parsed) [0x0A; 0x0A] = -1
  /\ consumeSseEvents (parsed_buffer parsed) = mkSseParse [] (parsed_buffer parsed)
  /\ (indexOf (removeCR x) [0x0A; 0x0A] = -1 -> parsed = mkSseParse [] (removeCR x)).
Proof.
  intros parsed. subst parsed.
  destruct (consumeSseEvents_buffer x) as [Hcr Hsb]. cbv zeta in Hcr, Hsb.
  split; [apply consumeSseEvents_suffix|]. split; [|split; [|split]].
  - rewrite <- Hcr. apply removeCR_no_CR.
  - now apply indexOf_boundary_absent.
  - rewrite (consumeSseEvents_unfold _ Hcr). now rewrite Hsb.
  - intros H. apply indexOf_boundary_absent in H.
    rewrite <- consumeSseEvents_removeCR.
    rewrite (consumeSseEvents_unfold _ (removeCR_idempotent x)). now rewrite H.
Qed.

(* ------------------------------------------------------------------ *)
(** ** One event *)

Lemma splitBoundary_none_line (l t : jsstring) (c : Z) :
  Forall (fun x => x <> 0x0A) l -> c <> 0x0A -> splitBoundary (c :: t) = None ->
  splitBoundary (l ++ 0x0A :: c :: t) = None.
Proof.
  intros Hl Hc Ht. induction Hl as [|a l Ha Hl IH].
  - cbn [app].
    change (splitBoundary (0x0A :: c :: t))
      with (if (0x0A =? 0x0A) && (c =? 0x0A) then Some ([], t)
            else match splitBoundary (c :: t) with
                 | Some (pre, post) => Some (0x0A :: pre, post)
                 | None => None
                 end).
    replace (c =? 0x0A) with false by (symmetry; apply Z.eqb_neq; exact Hc).
    rewrite andb_false_r. now rewrite Ht.
  - cbn [app]. destruct (l ++ 0x0A :: c :: t) as [|b r] eqn:E.
    + destruct l; discriminate.
    + change (splitBoundary (a :: b :: r))
        with (if (a =? 0x0A) && (b =? 0x0A) then Some ([], r)
              else match splitBoundary (b :: r) with
                   | Some (pre, post) => Some (a :: pre, post)
                   | None => None
                   end).
      replace (a =? 0x0A) with false by (symmetry; apply Z.eqb_neq; exact Ha).
      cbn [andb]. now rewrite IH.
Qed.

(** Lines that are not empty and hold no LF, joined by LF: no blank line,
    no LF at the end, and the first character is no LF. *)
Lemma join_lines_no_boundary (lines : list jsstring) :
  lines <> [] ->
  Forall (fun l => l <> [] /\ Forall (fun c => c <> 0x0A) l) lines ->
  splitBoundary (join [0x0A] lines) = None
  /\ last (join [0x0A] lines) 0 <> 0x0A
  /\ exists c t, join [0x0A] lines = c :: t /\ c <> 0x0A.
Proof.
  intros Hne H. induction H as [|l lines [Hl Hc] Hls IH]; [contradiction|].
  destruct lines as [|l2 lines].
  - cbn [join]. split; [now apply splitBoundary_none_noLF|]. split.
    + destruct (exists_last Hl) as (l' & x & ->).
      rewrite last_last. apply Forall_app in Hc as [_ Hc]. now inversion Hc.
    + destruct l as [|c t]; [contradiction|]. exists c, t. split; [reflexivity|].
      now inversion Hc.
  - destruct (IH ltac:(discriminate)) as (Hs & Hlst & c & t & Ej & Hcne).
    change (join [0x0A] (l :: l2 :: lines)) with (l ++ 0x0A :: join [0x0A] (l2 :: lines)).
    rewrite Ej in *. split; [now apply splitBoundary_none_line|]. split.
    + rewrite last_app_cons.
      change (last (0x0A :: c :: t) 0) with (last (c :: t) 0). exact Hlst.
    + destruct l as [|c0 t0]; [contradiction|]. exists c0, (t0 ++ 0x0A :: c :: t).
      split; [reflexivity|]. now inversion Hc.
Qed.

(** X8.  One event, whatever follows it.  Lines that are not empty and hold
    neither LF nor CR, joined by LF and closed by a blank line, make one
    event: its payload is what follows [data:] in the lines that start with
    it, leading white space dropped, joined by LF; the other lines
    (comments, other fields) count for nothing, and an event without a
    [data:] line gives no event at all.  What follows the blank line is read
    as if it stood alone. *)
Theorem X8_one_event (lines : list jsstring) (rest : jsstring) :
  lines <> [] ->
  Forall (fun l => l <> [] /\ Forall (fun c => c <> 0x0A /\ c <> 0x0D) l) lines ->
  let payloads :=
    List.map (fun l => trimStart (skipn 5 l))
      (filter (fun l => startsWith l (lit "data:")) lines) in
  let later := consumeSseEvents rest in
  consumeSseEvents (join [0x0A] lines ++ [0x0A; 0x0A] ++ rest)
  = mkSseParse
      (match payloads with
       | [] => parsed_events later
       | _ :: _ => join [0x0A] payloads :: parsed_events later
       end)
      (parsed_buffer later).
Proof.
  intros Hne H payloads later.
  assert (Hlf : Forall (fun l => l <> [] /\ Forall (fun c => c <> 0x0A) l) lines).
  { eapply Forall_impl; [|exact H]. intros l [Hl Hc]. split; [exact Hl|].
    eapply Forall_impl; [|exact Hc]. now intros c [Hc1 _]. }
  assert (Hcr : removeCR (join [0x0A] lines) = join [0x0A] lines).
  { apply removeCR_id. clear Hne Hlf payloads.
    induction H as [|l lines [_ Hc] Hls IH]; [intros []|].
    destruct lines as [|l2 lines].
    - cbn [join]. intros Hin. rewrite Forall_forall in Hc. now destruct (Hc _ Hin).
    - change (join [0x0A] (l :: l2 :: lines)) with (l ++ 0x0A :: join [0x0A] (l2 :: lines)).
      intros Hin. apply in_app_or in Hin as [Hin|[Hin|Hin]].
      + rewrite Forall_forall in Hc. now destruct (Hc _ Hin).
      + discriminate.
      + now apply IH. }
  destruct (join_lines_no_boundary lines Hne Hlf) as (Hs & Hl & _).
  rewrite <- consumeSseEvents_removeCR, !removeCR_app, Hcr.
  change (removeCR [0x0A; 0x0A]) with [0x0A; 0x0A].
  rewrite consumeSseEvents_unfold.
  2:{ rewrite !removeCR_app, Hcr, removeCR_idempotent. reflexivity. }
  change ([0x0A; 0x0A] ++ removeCR rest) with (0x0A :: 0x0A :: removeCR rest).
  rewrite (splitBoundary_first _ _ Hs Hl), consumeSseEvents_removeCR.
  fold later. rewrite dataLinesOf_join.
  2:{ eapply Forall_impl; [|exact Hlf]. now intros l [_ Hc]. }
  fold payloads. unfold withEvent. rewrite length_eqb_0.
  destruct payloads; [now destruct later|reflexivity].
Qed.

(** X8 at an event of four lines, two of them data lines, and the start of
    a further event behind it. *)
Lemma X8_witness_comment_and_data :
  let lines := [lit ": keep-alive"; lit "data:   un"; lit "event: x"; lit "data:deux"] in
  lines <> []
  /\ consumeSseEvents (join [0x0A] lines ++ [0x0A; 0x0A] ++ lit "data: tro")
     = mkSseParse [lit "un" ++ [0x0A] ++ lit "deux"] (lit "data: tro").
Proof.
  cbv zeta.
  assert (H1 : [lit ": keep-alive"; lit "data:   un"; lit "event: x"; lit "data:deux"]
               <> []) by discriminate.
  split; [exact H1|].
  refine (eq_trans (X8_one_event _ (lit "data: tro") H1 _) _); [|reflexivity].
  vm_compute.
  repeat (constructor; [split; [discriminate|repeat (constructor; [split; discriminate|])]; constructor|]).
  constructor.
Defined.

(* ------------------------------------------------------------------ *)
(** ** The read loop on any stream *)

Section ReadLoopProperties.

Variable numberIsTruthy : jsstring -> bool.
Variable numberToString : jsstring -> jsstring.

(** X9.  Split-invariance on every stream, whatever its bytes (the stream of
    the model as well as a local answer, well formed or not): two ways of
    cutting the same bytes into chunks end with the same text on the page
    and the same verdict on the sentinel. *)
Theorem X9_chunking_never_matters (chunks1 chunks2 : list (list Z)) :
  List.concat chunks1 = List.concat chunks2 ->
  responseText (sendMessage_stream numberIsTruthy numberToString chunks1)
  = responseText (sendMessage_stream numberIsTruthy numberToString chunks2)
  /\ sawDone (sendMessage_stream numberIsTruthy numberToString chunks1)
     = sawDone (sendMessage_stream numberIsTruthy numberToString chunks2).
Proof.
  intros H. unfold sendMessage_stream. split.
  - rewrite !readLoop_batch by reflexivity. now rewrite H.
  - rewrite !readLoop_sawDone by reflexivity. now rewrite H.
Qed.

Lemma processEvents_prefix (rt : jsstring) (events : list jsstring) :
  processEvents numberIsTruthy numberToString rt events
  = (rt ++ fst (processEvents numberIsTruthy numberToString [] events),
     snd (processEvents numberIsTruthy numberToString [] events)).
Proof.
  revert rt. induction events as [|e events IH]; intros rt.
  - cbn [processEvents fst snd]. now rewrite app_nil_r.
  - cbn [processEvents]. destruct (str_eqb e DONE).
    + cbn [fst snd]. now rewrite app_nil_r.
    + destruct (payloadContent numberIsTruthy numberToString e) as [c|].
      * rewrite (IH (rt ++ c)), (IH ([] ++ c)). cbn [fst snd app].
        now rewrite <- app_assoc.
      * apply IH.
Qed.

(** X10.  The text on the page only grows: the read loop, started with some
    text already shown, ends with that text followed by what the same loop
    gives when started with none; what was shown is never rewritten, and
    what a payload adds does not depend on it. *)
Theorem X10_response_text_only_grows (reads : list (list Z)) (decoder : TextDecoder)
    (shown buffer : jsstring) :
  responseText (readLoop numberIsTruthy numberToString reads decoder shown buffer)
  = shown
    ++ responseText (readLoop numberIsTruthy numberToString reads decoder [] buffer)
  /\ sawDone (readLoop numberIsTruthy numberToString reads decoder shown buffer)
     = sawDone (readLoop numberIsTruthy numberToString reads decoder [] buffer).
Proof.
  revert decoder shown buffer.
  induction reads as [|value rest IH]; intros decoder shown buffer; cbn [readLoop].
  - rewrite (processEvents_prefix shown).
    destruct (processEvents numberIsTruthy numberToString [] _) as [t d].
    cbn [fst snd responseText sawDone]. auto.
  - destruct (TextDecoder_decode_stream decoder value) as [d1 t1].
    rewrite (processEvents_prefix shown).
    destruct (processEvents numberIsTruthy numberToString [] _) as [t d].
    cbn [fst snd]. destruct d.
    + cbn [responseText sawDone]. auto.
    + destruct (IH d1 (shown ++ t) (parsed_buffer (consumeSseEvents (buffer ++ t1))))
        as [-> ->].
      destruct (IH d1 t (parsed_buffer (consumeSseEvents (buffer ++ t1))))
        as [-> ->].
      now rewrite app_assoc.
Qed.

End ReadLoopProperties.

(** X9 at a stream with CR LF line ends and a payload that is not JSON,
    read whole and read one byte at a time. *)
Lemma X9_witness_two_cuts :
  let bytes :=
    TextEncoder_encode
      (lit "data: " ++ JSON_stringify_response (lit "dé") ++ [0x0D; 0x0A; 0x0D; 0x0A]
       ++ lit "data: oops" ++ [0x0A; 0x0A] ++ lit "data: [DONE]" ++ [0x0A; 0x0A]) in
  let chunks1 := [bytes] in
  let chunks2 := List.map (fun b => [b]) bytes in
  List.concat chunks1 = List.concat chunks2
  /\ responseText (sendMessage_stream (fun _ => true) (fun l => l) chunks2) = lit "dé".
Proof.
  cbv zeta.
  assert (H : List.concat
                [TextEncoder_encode
                   (lit "data: " ++ JSON_stringify_response (lit "dé")
                    ++ [0x0D; 0x0A; 0x0D; 0x0A]
                    ++ lit "data: oops" ++ [0x0A; 0x0A] ++ lit "data: [DONE]"
                    ++ [0x0A; 0x0A])]
              = List.concat
                  (List.map (fun b => [b])
                     (TextEncoder_encode
                        (lit "data: " ++ JSON_stringify_response (lit "dé")
                         ++ [0x0D; 0x0A; 0x0D; 0x0A]
                         ++ lit "data: oops" ++ [0x0A; 0x0A] ++ lit "data: [DONE]"
                         ++ [0x0A; 0x0A]))))
    by (vm_compute; reflexivity).
  split; [exact H|].
  rewrite <- (proj1 (X9_chunking_never_matters (fun _ => true) (fun l => l) _ _ H)).
  vm_compute. reflexivity.
Defined.

(* ------------------------------------------------------------------ *)
(** ** Streams of several events, in both formats *)

Lemma JSON_stringify_delta_shape (text : jsstring) :
  JSON_stringify_delta text
  = [0x7B; 0x22; 0x63; 0x68; 0x6F; 0x69; 0x63; 0x65; 0x73; 0x22; 0x3A; 0x5B; 0x7B;
     0x22; 0x64; 0x65; 0x6C; 0x74; 0x61; 0x22; 0x3A; 0x7B;
     0x22; 0x63; 0x6F; 0x6E; 0x74; 0x65; 0x6E; 0x74; 0x22; 0x3A; 0x22]
    ++ quoteBody text ++ [0x22; 0x7D; 0x7D; 0x5D; 0x7D].
Proof.
  unfold JSON_stringify_delta, QuoteJSONString.
  change (lit "choices") with [0x63; 0x68; 0x6F; 0x69; 0x63; 0x65; 0x73].
  change (lit "delta") with [0x64; 0x65; 0x6C; 0x74; 0x61].
  change (lit "content") with [0x63; 0x6F; 0x6E; 0x74; 0x65; 0x6E; 0x74].
  cbn [app]. now rewrite <- !app_assoc.
Qed.

Lemma JSON_parse_delta (text : jsstring) :
  Forall isCodeUnit text ->
  JSON_parse (JSON_stringify_delta text)
  = Some (JObject [(lit "choices",
                    JArray [JObject [(lit "delta",
                                      JObject [(lit "content", JString text)])]])]).
Proof.
  intros H. unfold JSON_parse.
  remember (2 * List.length (JSON_stringify_delta text) + 2)%nat as fuel eqn:Hf.
  assert (Hlen : (38 <= List.length (JSON_stringify_delta text))%nat).
  { rewrite JSON_stringify_delta_shape, !length_app. simpl. lia. }
  do 10 (destruct fuel as [|fuel]; [lia|]). clear Hf Hlen.
  rewrite JSON_stringify_delta_shape.
  pose proof (parseStringBody_quoted text [0x7D; 0x7D; 0x5D; 0x7D] H) as Hq.
  change (quoteBody text ++ [0x22; 0x7D; 0x7D; 0x5D; 0x7D])
    with (quoteBody text ++ 0x22 :: [0x7D; 0x7D; 0x5D; 0x7D]).
  remember (quoteBody text ++ 0x22 :: [0x7D; 0x7D; 0x5D; 0x7D]) as q eqn:Eq. clear Eq.
  cbn [app]. simpl. rewrite Hq. simpl. reflexivity.
Qed.

Lemma payloadJson_clean (p : Payload) :
  Forall isCodeUnit (payloadText p) ->
  Forall (fun x => x <> 0x0A /\ x <> 0x0D) (lit "data: " ++ payloadJson p)
  /\ WellFormed (lit "data: " ++ payloadJson p)
  /\ dataLinesOf (lit "data: " ++ payloadJson p) = [payloadJson p]
  /\ str_eqb (payloadJson p) DONE = false.
Proof.
  intros H. destruct p as [text|text]; cbn [payloadText payloadJson] in *.
  - destruct (firstEvent_clean text H) as [Hc Hw]. split; [exact Hc|].
    split; [exact Hw|]. split; [now apply dataLinesOf_firstEvent|].
    apply stringify_not_DONE.
  - destruct (quotes_quoteBody text H) as (_ & Hn & Hw).
    rewrite JSON_stringify_delta_shape.
    change (lit "data: ") with [0x64; 0x61; 0x74; 0x61; 0x3A; 0x20]. cbn [app].
    assert (Hc : Forall (fun x => x <> 0x0A /\ x <> 0x0D)
                   (0x64 :: 0x61 :: 0x74 :: 0x61 :: 0x3A :: 0x20 :: 0x7B :: 0x22 :: 0x63
                    :: 0x68 :: 0x6F :: 0x69 :: 0x63 :: 0x65 :: 0x73 :: 0x22 :: 0x3A
                    :: 0x5B :: 0x7B :: 0x22 :: 0x64 :: 0x65 :: 0x6C :: 0x74 :: 0x61
                    :: 0x22 :: 0x3A :: 0x7B :: 0x22 :: 0x63 :: 0x6F :: 0x6E :: 0x74
                    :: 0x65 :: 0x6E :: 0x74 :: 0x22 :: 0x3A :: 0x22
                    :: quoteBody text ++ [0x22; 0x7D; 0x7D; 0x5D; 0x7D])).
    { repeat (constructor; [lia|]). apply Forall_app. split; [exact Hn|].
      repeat constructor; lia. }
    split; [exact Hc|]. split; [|split; [|reflexivity]].
    + repeat (apply plain_WellFormed; [apply ascii_plainUnit; lia|]).
      apply Hw. repeat (apply plain_WellFormed; [apply ascii_plainUnit; lia|]).
      constructor.
    + unfold dataLinesOf. rewrite split_char_noLF; [reflexivity|].
      eapply Forall_impl; [|exact Hc]. now intros x [Hx _].
Qed.

Lemma eventsText_cons (p : Payload) (payloads : list Payload) (tail : jsstring) :
  eventsText (p :: payloads) ++ tail
  = (lit "data: " ++ payloadJson p) ++ 0x0A :: 0x0A :: (eventsText payloads ++ tail).
Proof.
  unfold eventsText. cbn [flat_map]. rewrite <- !app_assoc. reflexivity.
Qed.

Lemma eventsText_clean (payloads : list Payload) (tail : jsstring) :
  Forall (fun p => Forall isCodeUnit (payloadText p)) payloads ->
  (removeCR tail = tail -> removeCR (eventsText payloads ++ tail) = eventsText payloads ++ tail)
  /\ (WellFormed tail -> WellFormed (eventsText payloads ++ tail)).
Proof.
  intros H. induction H as [|p ps Hp _ [IH1 IH2]]; [auto|].
  destruct (payloadJson_clean p Hp) as (Hc & Hw & _).
  rewrite eventsText_cons. split.
  - intros Ht. rewrite removeCR_app.
    change (removeCR (0x0A :: 0x0A :: ?x)) with (0x0A :: 0x0A :: removeCR x).
    rewrite (IH1 Ht). rewrite removeCR_id; [reflexivity|].
    intros Hin. rewrite Forall_forall in Hc. now destruct (Hc _ Hin).
  - intros Ht. apply WellFormed_app; [exact Hw|].
    repeat (apply plain_WellFormed; [apply ascii_plainUnit; lia|]).
    now apply IH2.
Qed.

Lemma consumeSseEvents_eventsText (payloads : list Payload) (tail : jsstring) :
  Forall (fun p => Forall isCodeUnit (payloadText p)) payloads ->
  removeCR tail = tail ->
  consumeSseEvents (eventsText payloads ++ tail)
  = mkSseParse (List.map payloadJson payloads ++ parsed_events (consumeSseEvents tail))
      (parsed_buffer (consumeSseEvents tail)).
Proof.
  intros H Ht. induction H as [|p ps Hp Hps IH];
    [unfold eventsText; cbn [flat_map List.map app]; now destruct (consumeSseEvents tail)|].
  rewrite consumeSseEvents_unfold
    by (apply (eventsText_clean (p :: ps) tail); [now constructor|exact Ht]).
  destruct (payloadJson_clean p Hp) as (Hc & _ & Hd & _).
  rewrite eventsText_cons.
  rewrite splitBoundary_noLF
    by (eapply Forall_impl; [|exact Hc]; now intros x [Hx _]).
  rewrite Hd, IH. reflexivity.
Qed.

Section StreamsOfEvents.

Variable numberIsTruthy : jsstring -> bool.
Variable numberToString : jsstring -> jsstring.

Lemma payloadContent_payloadJson (p : Payload) :
  Forall isCodeUnit (payloadText p) ->
  payloadContent numberIsTruthy numberToString (payloadJson p)
  = match payloadText p with [] => None | _ :: _ => Some (payloadText p) end.
Proof.
  intros H. destruct p as [text|text]; cbn [payloadText payloadJson] in *.
  - now apply payloadContent_response.
  - unfold payloadContent. rewrite (JSON_parse_delta text H).
    destruct text; reflexivity.
Qed.

Lemma processEvents_payloads (rt : jsstring) (payloads : list Payload)
    (later : list jsstring) :
  Forall (fun p => Forall isCodeUnit (payloadText p)) payloads ->
  processEvents numberIsTruthy numberToString rt (List.map payloadJson payloads ++ later)
  = processEvents numberIsTruthy numberToString
      (rt ++ flat_map payloadText payloads) later.
Proof.
  intros H. revert rt. induction H as [|p ps Hp _ IH]; intros rt.
  - cbn [List.map flat_map app]. now rewrite app_nil_r.
  - cbn [List.map flat_map app processEvents].
    destruct (payloadJson_clean p Hp) as (_ & _ & _ & ->).
    rewrite (payloadContent_payloadJson p Hp), app_assoc.
    destruct (payloadText p); [|apply IH].
    rewrite app_nil_r. rewrite IH. reflexivity.
Qed.

Lemma decode_whole (text : jsstring) (c : Z) (t : jsstring) :
  text = c :: t -> c <> 0xFEFF -> WellFormed text ->
  snd (TextDecoder_decode_stream TextDecoder_new (TextEncoder_encode text)) = text.
Proof.
  intros E Hc Hw.
  pose proof (decode_encode text [] c t E Hc Hw WellFormed_nil) as H.
  change (TextEncoder_encode []) with (@nil Z) in H. rewrite !app_nil_r in H.
  now rewrite H.
Qed.

(** X11.  A stream of events in the two formats the client reads, mixed in
    any order and closed by the sentinel: however its bytes are cut into
    chunks, the page ends with the texts of the payloads, one after the
    other, and the loop ends on the sentinel.  A payload with an empty text
    adds nothing. *)
Theorem X11_stream_of_payloads (payloads : list Payload) (chunks : list (list Z)) :
  Forall (fun p => Forall isCodeUnit (payloadText p)) payloads ->
  List.concat chunks
  = TextEncoder_encode (eventsText payloads ++ lit "data: [DONE]" ++ [0x0A; 0x0A]) ->
  responseText (sendMessage_stream numberIsTruthy numberToString chunks)
  = flat_map payloadText payloads
  /\ sawDone (sendMessage_stream numberIsTruthy numberToString chunks) = true.
Proof.
  intros H Hchunks.
  assert (Hhead : exists t, eventsText payloads ++ lit "data: [DONE]" ++ [0x0A; 0x0A]
                            = 0x64 :: t).
  { destruct payloads; eexists; reflexivity. }
  destruct Hhead as (t & Hhead).
  assert (Hdec : snd (TextDecoder_decode_stream TextDecoder_new (List.concat chunks))
                 = eventsText payloads ++ lit "data: [DONE]" ++ [0x0A; 0x0A]).
  { rewrite Hchunks. apply (decode_whole _ 0x64 t Hhead); [discriminate|].
    apply (eventsText_clean payloads _ H). vm_compute.
    repeat (apply plain_WellFormed; [apply ascii_plainUnit; lia|]). constructor. }
  unfold sendMessage_stream. split.
  - rewrite readLoop_batch by reflexivity. rewrite Hdec. cbn [app].
    rewrite <- app_assoc.
    rewrite (consumeSseEvents_eventsText payloads _ H) by reflexivity.
    cbn [parsed_events].
    replace (parsed_events
               (consumeSseEvents ((lit "data: [DONE]" ++ [0x0A; 0x0A]) ++ [0x0A; 0x0A])))
      with [DONE] by (vm_compute; reflexivity).
    rewrite (processEvents_payloads [] payloads [DONE] H). reflexivity.
  - rewrite readLoop_sawDone by reflexivity. rewrite Hdec. cbn [app].
    rewrite (consumeSseEvents_eventsText payloads _ H) by reflexivity.
    cbn [parsed_events].
    replace (parsed_events (consumeSseEvents (lit "data: [DONE]" ++ [0x0A; 0x0A])))
      with [DONE] by (vm_compute; reflexivity).
    rewrite (processEvents_payloads [] payloads [DONE] H). reflexivity.
Qed.

(** X12.  The end of the stream closes the last event.  When the stream stops
    after the line of a payload, with no blank line behind it and no
    sentinel, that payload is read all the same once the stream ends: the
    page ends with the texts of all the payloads, and the loop has not seen
    the sentinel. *)
Theorem X12_last_event_without_blank_line (payloads : list Payload) (final : Payload)
    (chunks : list (list Z)) :
  Forall (fun p => Forall isCodeUnit (payloadText p)) (payloads ++ [final]) ->
  List.concat chunks
  = TextEncoder_encode (eventsText payloads ++ lit "data: " ++ payloadJson final) ->
  responseText (sendMessage_stream numberIsTruthy numberToString chunks)
  = flat_map payloadText (payloads ++ [final])
  /\ sawDone (sendMessage_stream numberIsTruthy numberToString chunks) = false.
Proof.
  intros H Hchunks.
  pose proof H as Hboth. apply Forall_app in Hboth as [Hps Hf].
  inversion Hf as [|? ? Hfinal _]; subst.
  destruct (payloadJson_clean final Hfinal) as (Hc & Hw & Hd & Hn).
  assert (Hcr : removeCR (lit "data: " ++ payloadJson final) = lit "data: " ++ payloadJson final).
  { apply removeCR_id. intros Hin. rewrite Forall_forall in Hc. now destruct (Hc _ Hin). }
  assert (Hhead : exists t, eventsText payloads ++ lit "data: " ++ payloadJson final
                            = 0x64 :: t).
  { destruct payloads; eexists; reflexivity. }
  destruct Hhead as (t & Hhead).
  assert (Hdec : snd (TextDecoder_decode_stream TextDecoder_new (List.concat chunks))
                 = eventsText payloads ++ lit "data: " ++ payloadJson final).
  { rewrite Hchunks. apply (decode_whole _ 0x64 t Hhead); [discriminate|].
    now apply (eventsText_clean payloads _ Hps). }
  unfold sendMessage_stream. split.
  - rewrite readLoop_batch by reflexivity. rewrite Hdec. cbn [app].
    replace ((eventsText payloads ++ lit "data: " ++ payloadJson final) ++ [0x0A; 0x0A])
      with (eventsText (payloads ++ [final]) ++ []).
    2:{ unfold eventsText. rewrite flat_map_app. cbn [flat_map].
        now rewrite !app_nil_r, <- !app_assoc. }
    rewrite (consumeSseEvents_eventsText (payloads ++ [final]) [] H) by reflexivity.
    change (consumeSseEvents []) with (mkSseParse [] []). cbn [parsed_events].
    rewrite (processEvents_payloads [] (payloads ++ [final]) [] H). reflexivity.
  - rewrite readLoop_sawDone by reflexivity. rewrite Hdec. cbn [app].
    rewrite (consumeSseEvents_eventsText payloads _ Hps) by exact Hcr.
    cbn [parsed_events].
    rewrite (consumeSseEvents_unfold _ Hcr).
    rewrite splitBoundary_none_noLF
      by (eapply Forall_impl; [|exact Hc]; now intros x [Hx _]).
    cbn [parsed_events].
    rewrite (processEvents_payloads [] payloads [] Hps). reflexivity.
Qed.

End StreamsOfEvents.

(** X11 at a stream of three events, in both formats, the second with a
    character outside the basic plane, the third empty; the bytes arrive one
    by one. *)
Lemma X11_witness_mixed_formats :
  let payloads :=
    [ResponsePayload (lit "Bon"); DeltaPayload (lit "jour 🎲"); ResponsePayload []] in
  let chunks :=
    List.map (fun b => [b])
      (TextEncoder_encode (eventsText payloads ++ lit "data: [DONE]" ++ [0x0A; 0x0A])) in
  Forall (fun p => Forall isCodeUnit (payloadText p)) payloads
  /\ responseText (sendMessage_stream (fun _ => true) (fun l => l) chunks)
     = lit "Bonjour 🎲"
  /\ sawDone (sendMessage_stream (fun _ => true) (fun l => l) chunks) = true.
Proof.
  cbv zeta.
  assert (H1 : Forall (fun p => Forall isCodeUnit (payloadText p))
                 [ResponsePayload (lit "Bon"); DeltaPayload (lit "jour 🎲");
                  ResponsePayload []]).
  { repeat (constructor; [apply isCodeUnit_forallb; vm_compute; reflexivity|]).
    constructor. }
  split; [exact H1|].
  exact (X11_stream_of_payloads (fun _ => true) (fun l => l) _ _ H1 (concat_singletons _)).
Defined.

(** X12 at a stream cut off after the line of its second payload. *)
Lemma X12_witness_cut_off :
  let chunks :=
    [TextEncoder_encode
       (eventsText [DeltaPayload (lit "Il était")]
        ++ lit "data: " ++ payloadJson (ResponsePayload (lit " une fois")))] in
  Forall (fun p => Forall isCodeUnit (payloadText p))
    ([DeltaPayload (lit "Il était")] ++ [ResponsePayload (lit " une fois")])
  /\ responseText (sendMessage_stream (fun _ => true) (fun l => l) chunks)
     = lit "Il était une fois"
  /\ sawDone (sendMessage_stream (fun _ => true) (fun l => l) chunks) = false.
Proof.
  cbv zeta.
  assert (H1 : Forall (fun p => Forall isCodeUnit (payloadText p))
                 ([DeltaPayload (lit "Il était")] ++ [ResponsePayload (lit " une fois")])).
  { repeat (constructor; [apply isCodeUnit_forallb; vm_compute; reflexivity|]).
    constructor. }
  split; [exact H1|].
  refine (X12_last_event_without_blank_line (fun _ => true) (fun l => l) _ _ _ H1 _).
  cbn [List.concat]. now rewrite app_nil_r.
Defined.

(* ------------------------------------------------------------------ *)
(** ** The chat state of the page *)

Lemma isEmpty_trim_false (v : jsstring) : isEmpty (trim v) = false -> trim v <> [].
Proof. intros H. now apply isEmpty_false. Qed.

Section SessionProperties.

Variable lowerNonAscii : jsstring -> nat -> jsstring.
Variable formatUnsafe : Z -> jsstring.
Variable numberIsTruthy : jsstring -> bool.
Variable numberToString : jsstring -> jsstring.

Lemma sendMessage_begin_cases (inputValue : jsstring)
    (modeSelect universeInput : option jsstring) (s : Session) :
  (sendMessage_begin inputValue modeSelect universeInput s = (s, None)
   /\ (trim inputValue = [] \/ isProcessing s = true))
  \/ (trim inputValue <> [] /\ isProcessing s = false
      /\ sendMessage_begin inputValue modeSelect universeInput s
         = (mkSession (chatHistory s ++ [mkChatMessage user (trim inputValue)]) true,
            Some (mkChatRequest
                    (chatHistory s ++ [mkChatMessage user (trim inputValue)])
                    (buildCasusProfile modeSelect universeInput)))).
Proof.
  unfold sendMessage_begin. cbv zeta.
  destruct (isEmpty (trim inputValue)) eqn:E.
  - left. split; [reflexivity|left]. now apply isEmpty_true.
  - destruct (isProcessing s) eqn:Ep; cbn [orb].
    + left. auto.
    + right. split; [now apply isEmpty_false|]. split; reflexivity.
Qed.

Lemma sendMessage_begin_recorded (inputValue : jsstring)
    (modeSelect universeInput : option jsstring) (s : Session) :
  Forall recorded (chatHistory s) ->
  Forall recorded
    (chatHistory (fst (sendMessage_begin inputValue modeSelect universeInput s))).
Proof.
  intros H.
  destruct (sendMessage_begin_cases inputValue modeSelect universeInput s)
    as [[-> _]|(Hne & _ & ->)]; [exact H|].
  cbn [fst chatHistory]. apply Forall_app. split; [exact H|].
  constructor; [|constructor]. split; [exact Hne|left].
  split; [reflexivity|apply trim_idempotent].
Qed.

Lemma step_recorded (s : Session) (e : ClientEvent) :
  Forall recorded (chatHistory s) ->
  Forall recorded (chatHistory (step numberIsTruthy numberToString s e)).
Proof.
  intros H. destruct e as [v m u|p m u|reply|]; cbn [step].
  - now apply sendMessage_begin_recorded.
  - unfold onQuickPromptClick. destruct (truthy p); [|exact H].
    now apply sendMessage_begin_recorded.
  - destruct (isProcessing s); [|exact H].
    destruct reply as [|chunks]; cbn [sendMessage_end chatHistory]; [exact H|].
    destruct (responseText (sendMessage_stream numberIsTruthy numberToString chunks))
      as [|c text] eqn:E; [exact H|].
    cbn [List.length]. 
    replace (0 <? Z.of_nat (S (List.length text))) with true
      by (symmetry; apply Z.ltb_lt; lia).
    apply Forall_app. split; [exact H|].
    constructor; [|constructor]. split; [discriminate|now right].
  - constructor.
Qed.

Lemma run_recorded (events : list ClientEvent) :
  Forall recorded (chatHistory (run numberIsTruthy numberToString events)).
Proof.
  unfold run.
  assert (H : Forall recorded (chatHistory boot)) by constructor.
  revert H. generalize boot.
  induction events as [|e events IH]; intros s H; [exact H|].
  cbn [fold_left]. apply IH. now apply step_recorded.
Qed.

(** X13.  Whatever happens to the page (messages submitted, quick prompts
    clicked, requests that end well or badly, the chat cleared in between,
    in any order), the history holds no system message and no empty message,
    and every message of the user in it is trimmed.  So the worker never
    gets a persona from the page, and never an empty message. *)
Theorem X13_history_invariant (events : list ClientEvent) :
  Forall (fun m =>
            role m <> system /\ content m <> []
            /\ (role m = user -> trim (content m) = content m))
    (chatHistory (run numberIsTruthy numberToString events)).
Proof.
  eapply Forall_impl; [|apply run_recorded].
  intros m (Hne & [(Hu & Ht)|Ha]).
  - split; [congruence|]. split; [exact Hne|]. intros _. exact Ht.
  - split; [congruence|]. split; [exact Hne|]. intros Hu. congruence.
Qed.

Lemma no_system_no_persona (h : list ChatMessage) :
  Forall (fun m => role m <> system) h -> existsb isCasusSystem h = false.
Proof.
  intros H. induction H as [|m h Hm _ IH]; [reflexivity|].
  cbn [existsb]. rewrite IH, orb_false_r. unfold isCasusSystem.
  destruct (role m); [contradiction|reflexivity|reflexivity].
Qed.

Lemma recorded_not_system (h : list ChatMessage) :
  Forall recorded h -> Forall (fun m => role m <> system) h.
Proof.
  apply Forall_impl. intros m (_ & [(Hu & _)|Ha]); congruence.
Qed.

Lemma handleCommand_trim (raw : jsstring) (src : list Z) :
  handleCommand lowerNonAscii formatUnsafe (trim raw) src
  = handleCommand lowerNonAscii formatUnsafe raw src.
Proof. unfold handleCommand. now rewrite trim_idempotent. Qed.

Lemma handleChatRequest_last_user (history : list ChatMessage) (text : jsstring)
    (casus : option CasusProfile) (src : list Z) :
  handleChatRequest lowerNonAscii formatUnsafe
    (history ++ [mkChatMessage user text]) casus src
  = match handleCommand lowerNonAscii formatUnsafe text src with
    | Returns (Some (c :: t)) src' => Returns (SseText (c :: t)) src'
    | Returns _ src' =>
        Returns (ModelStream (composeMessages (history ++ [mkChatMessage user text]) casus))
          src'
    | Throws _ => Returns Error500 src
    | Starved => Starved
    end.
Proof.
  unfold handleChatRequest. rewrite rev_app_distr. reflexivity.
Qed.

Lemma page_request_answer (history : list ChatMessage) (inputValue : jsstring)
    (modeSelect universeInput : option jsstring) (src : list Z) :
  Forall recorded history ->
  let messages := history ++ [mkChatMessage user (trim inputValue)] in
  let casus := buildCasusProfile modeSelect universeInput in
  let answer := handleChatRequest lowerNonAscii formatUnsafe messages (Some casus) src in
  (isCommand lowerNonAscii inputValue = false ->
     exists profile,
       buildCasusProfileSystemMessage (Some casus) = Some profile
       /\ answer
          = Returns (ModelStream (mkChatMessage system SYSTEM_PROMPT :: profile :: messages))
              src)
  /\ (isCommand lowerNonAscii inputValue = true ->
        (answer = Starved
         \/ exists c t src',
              handleCommand lowerNonAscii formatUnsafe inputValue src
              = Returns (Some (c :: t)) src'
              /\ answer = Returns (SseText (c :: t)) src')
        /\ (plentiful src -> answer <> Starved)).
Proof.
  intros Hh messages casus answer.
  assert (Ea : answer
               = match handleCommand lowerNonAscii formatUnsafe inputValue src with
                 | Returns (Some (c :: t)) src' => Returns (SseText (c :: t)) src'
                 | Returns _ src' =>
                     Returns (ModelStream (composeMessages messages (Some casus))) src'
                 | Throws _ => Returns Error500 src
                 | Starved => Starved
                 end).
  { subst answer messages. rewrite handleChatRequest_last_user.
    now rewrite handleCommand_trim. }
  pose proof (handleCommand_spec lowerNonAscii formatUnsafe inputValue src) as Hc.
  cbv zeta in Hc. split.
  - intros Hn. rewrite Hn in Hc. rewrite Hc in Ea.
    destruct (page_profile_not_null modeSelect universeInput) as (profile & Hp).
    fold casus in Hp.
    exists profile. split; [exact Hp|]. rewrite Ea. f_equal. f_equal.
    rewrite (composeMessages_unfold messages (Some casus)), Hp.
    replace (existsb isCasusSystem messages) with false; [reflexivity|].
    symmetry. apply no_system_no_persona. subst messages. apply Forall_app.
    split; [now apply recorded_not_system|].
    constructor; [discriminate|constructor].
  - intros Hy. rewrite Hy in Hc. destruct Hc as [Hres Hpl]. split.
    + destruct Hres as [Hr|(c & t & src' & Hr)]; rewrite Hr in Ea; [now left|right].
      exists c, t, src'. auto.
    + intros Hp. destruct (Hpl Hp) as (c & t & src' & Hr). rewrite Hr in Ea.
      rewrite Ea. discriminate.
Qed.

(** X14.  The request of the page and what the worker makes of it.  When
    the input holds more than white space and no request is pending, the
    page posts its history followed by the typed message, trimmed, and the
    worker decides on that message alone, whatever the history holds: when
    it is no command, the model gets the persona, the profile message of the
    page and the posted messages, in this order; when it is a command, the
    answer is the local event stream of the text [handleCommand] gives for
    the typed message, and never a call of the model. *)
Theorem X14_typed_message_decides (events : list ClientEvent) (inputValue : jsstring)
    (modeSelect universeInput : option jsstring) (src : list Z) :
  let before := run numberIsTruthy numberToString events in
  let typed := mkChatMessage user (trim inputValue) in
  trim inputValue <> [] -> isProcessing before = false ->
  exists request,
    sendMessage_begin inputValue modeSelect universeInput before
    = (mkSession (chatHistory before ++ [typed]) true, Some request)
    /\ req_messages request = chatHistory before ++ [typed]
    /\ let answer :=
         handleChatRequest lowerNonAscii formatUnsafe
           (req_messages request) (Some (req_casus request)) src in
       (isCommand lowerNonAscii inputValue = false ->
          exists profile,
            buildCasusProfileSystemMessage (Some (req_casus request)) = Some profile
            /\ answer
               = Returns
                   (ModelStream
                      (mkChatMessage system SYSTEM_PROMPT :: profile
                       :: req_messages request))
                   src)
       /\ (isCommand lowerNonAscii inputValue = true ->
             (answer = Starved
              \/ exists c t src',
                   handleCommand lowerNonAscii formatUnsafe inputValue src
                   = Returns (Some (c :: t)) src'
                   /\ answer = Returns (SseText (c :: t)) src')
             /\ (plentiful src -> answer <> Starved)).
Proof.
  intros before typed Hne Hp.
  destruct (sendMessage_begin_cases inputValue modeSelect universeInput before)
    as [[_ [H|H]]|(_ & _ & E)]; [contradiction|congruence|].
  eexists. split; [exact E|]. cbn [req_messages req_casus]. split; [reflexivity|].
  apply page_request_answer. apply run_recorded.
Qed.

Lemma sendMessage_stream_sseTextResponse (text : jsstring) (chunks : list (list Z)) :
  Forall isCodeUnit text ->
  List.concat chunks = List.concat (sseTextResponse text) ->
  responseText (sendMessage_stream numberIsTruthy numberToString chunks) = text
  /\ sawDone (sendMessage_stream numberIsTruthy numberToString chunks) = true.
Proof.
  intros Htext Hchunks.
  destruct (firstEvent_clean text Htext) as [_ Hwf].
  assert (Hdec : TextDecoder_decode_stream TextDecoder_new (List.concat chunks)
                 = (mkTextDecoder utf8_init true, streamText text)).
  { rewrite Hchunks. unfold sseTextResponse. cbn [List.concat]. rewrite app_nil_r.
    rewrite (app_assoc (lit "data: ") (JSON_stringify_response text) [0x0A; 0x0A]).
    fold (firstEvent text).
    apply (decode_encode _ _ 0x64
             ([0x61; 0x74; 0x61; 0x3A; 0x20] ++ JSON_stringify_response text
              ++ [0x0A; 0x0A])).
    - unfold firstEvent. rewrite <- app_assoc. reflexivity.
    - discriminate.
    - apply WellFormed_app; [exact Hwf|].
      repeat (apply plain_WellFormed; [apply ascii_plainUnit; lia|]). constructor.
    - vm_compute.
      repeat (apply plain_WellFormed; [apply ascii_plainUnit; lia|]). constructor. }
  assert (Hev : forall tail,
             tail = [] \/ tail = [0x0A; 0x0A] ->
             parsed_events (consumeSseEvents (streamText text ++ tail))
             = [JSON_stringify_response text; DONE]).
  { intros tail Ht.
    rewrite (consumeSseEvents_streamText text tail Htext)
      by (destruct Ht as [->| ->]; reflexivity).
    replace (consumeSseEvents ((lit "data: " ++ DONE ++ [0x0A; 0x0A]) ++ tail))
      with (mkSseParse [DONE] [])
      by (destruct Ht as [->| ->]; vm_compute; reflexivity).
    reflexivity. }
  unfold sendMessage_stream. split.
  - rewrite readLoop_batch by reflexivity. rewrite Hdec. cbn [snd app].
    rewrite (Hev [0x0A; 0x0A]) by now right.
    now rewrite (processEvents_stream numberIsTruthy numberToString text [] Htext).
  - rewrite readLoop_sawDone by reflexivity. rewrite Hdec. cbn [snd app].
    rewrite <- (app_nil_r (streamText text)). rewrite (Hev []) by now left.
    now rewrite (processEvents_stream numberIsTruthy numberToString text [] Htext).
Qed.

(** X15.  A command from the input box to the history.  When the page sends a
    message that the worker answers locally with a text, and the bytes of
    that answer come back cut into chunks in any way, the history gains
    exactly two messages: the typed message, trimmed, and the answer, the
    very text of the worker; the next message can then be sent. *)
Theorem X15_command_exchange (events : list ClientEvent) (inputValue : jsstring)
    (modeSelect universeInput : option jsstring) (src src' : list Z)
    (text : jsstring) (chunks : list (list Z)) :
  let before := run numberIsTruthy numberToString events in
  let typed := mkChatMessage user (trim inputValue) in
  trim inputValue <> [] -> isProcessing before = false ->
  handleChatRequest lowerNonAscii formatUnsafe (chatHistory before ++ [typed])
    (Some (buildCasusProfile modeSelect universeInput)) src
  = Returns (SseText text) src' ->
  Forall isCodeUnit text ->
  List.concat chunks = List.concat (sseTextResponse text) ->
  handleCommand lowerNonAscii formatUnsafe inputValue src = Returns (Some text) src'
  /\ run numberIsTruthy numberToString
       (events ++ [Submit inputValue modeSelect universeInput; Settle (Body chunks)])
     = mkSession (chatHistory before ++ [typed; mkChatMessage assistant text]) false.
Proof.
  intros before typed Hne Hp Hans Htext Hchunks.
  destruct (sendMessage_begin_cases inputValue modeSelect universeInput before)
    as [[_ [H|H]]|(_ & _ & E)]; [contradiction|congruence|].
  destruct (page_request_answer (chatHistory before) inputValue modeSelect universeInput
              src (run_recorded events)) as [Hno Hyes].
  cbv zeta in Hno, Hyes. fold before typed in Hno, Hyes. rewrite Hans in Hno, Hyes.
  assert (Hcmd : exists c t, text = c :: t
                 /\ handleCommand lowerNonAscii formatUnsafe inputValue src
                    = Returns (Some (c :: t)) src').
  { destruct (isCommand lowerNonAscii inputValue).
    - destruct (Hyes eq_refl) as [[H|(c & t & s' & Hc & H)] _]; [discriminate|].
      injection H as -> ->. eauto.
    - destruct (Hno eq_refl) as (p & _ & H). discriminate. }
  destruct Hcmd as (c & t & -> & Hc). split; [exact Hc|].
  unfold run. rewrite fold_left_app. fold (run numberIsTruthy numberToString events).
  fold before. cbn [fold_left step]. rewrite E. cbn [fst isProcessing sendMessage_end].
  destruct (sendMessage_stream_sseTextResponse (c :: t) chunks Htext Hchunks) as [-> _].
  cbn [List.length chatHistory].
  replace (0 <? Z.of_nat (S (List.length t))) with true
    by (symmetry; apply Z.ltb_lt; lia).
  now rewrite <- app_assoc.
Qed.

(** X16.  Clearing the chat does not cancel a pending request.  When the
    chat is cleared while a request is pending, the request still runs to
    its end, and its answer, when there is one, is recorded in the emptied
    history, where no message of the user stands before it. *)
Theorem X16_clear_keeps_the_pending_request (events : list ClientEvent) (reply : Reply) :
  isProcessing (run numberIsTruthy numberToString events) = true ->
  run numberIsTruthy numberToString (events ++ [Clear; Settle reply])
  = mkSession
      (match reply with
       | Body chunks =>
           match responseText (sendMessage_stream numberIsTruthy numberToString chunks) with
           | [] => []
           | c :: text => [mkChatMessage assistant (c :: text)]
           end
       | Failed => []
       end)
      false.
Proof.
  intros Hp. unfold run. rewrite fold_left_app.
  fold (run numberIsTruthy numberToString events). cbn [fold_left step].
  unfold resetChat at 1. cbn [isProcessing]. rewrite Hp.
  destruct reply as [|chunks]; [reflexivity|]. cbn [sendMessage_end].
  destruct (responseText (sendMessage_stream numberIsTruthy numberToString chunks))
    as [|c text]; [reflexivity|].
  cbn [List.length].
  replace (0 <? Z.of_nat (S (List.length text))) with true
    by (symmetry; apply Z.ltb_lt; lia).
  reflexivity.
Qed.

End SessionProperties.

(** X14 at a page just loaded, [/help] typed with spaces around it. *)
Lemma X14_witness_help :
  trim (lit "  /help ") <> []
  /\ isProcessing (run (fun _ => true) (fun l => l) []) = false
  /\ exists request,
       sendMessage_begin (lit "  /help ") None None (run (fun _ => true) (fun l => l) [])
       = (mkSession [mkChatMessage user (lit "/help")] true, Some request)
       /\ req_messages request = [mkChatMessage user (lit "/help")].
Proof.
  assert (H1 : trim (lit "  /help ") <> []) by (vm_compute; discriminate).
  assert (H2 : isProcessing (run (fun _ => true) (fun l => l) []) = false) by reflexivity.
  split; [exact H1|]. split; [exact H2|].
  destruct (X14_typed_message_decides (fun _ _ => []) (fun _ => []) (fun _ => true)
              (fun l => l) [] (lit "  /help ") None None [] H1 H2)
    as (request & Hb & Hm & _).
  exists request. split; [exact Hb|exact Hm].
Defined.

(** X15 at a page just loaded: [/roll 2d6+1] typed, the oracle giving 0, 7
    and 3, the answer coming back one byte at a time. *)
Lemma X15_witness_roll :
  let text :=
    lit "🎲 /roll 2d6+1" ++ [0x0A] ++ lit "Jets: 1, 2 (+1)" ++ [0x0A] ++ lit "Total: 4" in
  let chunks := List.map (fun b => [b]) (List.concat (sseTextResponse text)) in
  trim (lit "/roll 2d6+1") <> []
  /\ handleChatRequest (fun _ _ => []) (fun _ => [])
       [mkChatMessage user (lit "/roll 2d6+1")]
       (Some (buildCasusProfile None None)) [0; 7; 3]
     = Returns (SseText text) [3]
  /\ run (fun _ => true) (fun l => l)
       ([] ++ [Submit (lit "/roll 2d6+1") None None; Settle (Body chunks)])
     = mkSession [mkChatMessage user (lit "/roll 2d6+1"); mkChatMessage assistant text]
         false.
Proof.
  cbv zeta.
  assert (H1 : trim (lit "/roll 2d6+1") <> []) by (vm_compute; discriminate).
  assert (H3 : handleChatRequest (fun _ _ => []) (fun _ => [])
                 (chatHistory (run (fun _ => true) (fun l => l) [])
                  ++ [mkChatMessage user (trim (lit "/roll 2d6+1"))])
                 (Some (buildCasusProfile None None)) [0; 7; 3]
               = Returns
                   (SseText
                      (lit "🎲 /roll 2d6+1" ++ [0x0A] ++ lit "Jets: 1, 2 (+1)" ++ [0x0A]
                       ++ lit "Total: 4"))
                   [3])
    by (vm_compute; reflexivity).
  assert (H4 : Forall isCodeUnit
                 (lit "🎲 /roll 2d6+1" ++ [0x0A] ++ lit "Jets: 1, 2 (+1)" ++ [0x0A]
                  ++ lit "Total: 4"))
    by (apply isCodeUnit_forallb; vm_compute; reflexivity).
  split; [exact H1|]. split; [exact H3|].
  exact (proj2 (X15_command_exchange (fun _ _ => []) (fun _ => []) (fun _ => true)
                  (fun l => l) [] (lit "/roll 2d6+1") None None [0; 7; 3] [3] _ _
                  H1 eq_refl H3 H4 (concat_singletons _))).
Defined.

(** X16 at a page where a message was sent and the chat cleared before the
    answer came. *)
Lemma X16_witness_orphan_answer :
  isProcessing (run (fun _ => true) (fun l => l) [Submit (lit "Salut") None None]) = true
  /\ run (fun _ => true) (fun l => l)
       ([Submit (lit "Salut") None None]
        ++ [Clear; Settle (Body (sseTextResponse (lit "Bonjour")))])
     = mkSession [mkChatMessage assistant (lit "Bonjour")] false.
Proof.
  assert (H1 : isProcessing (run (fun _ => true) (fun l => l)
                               [Submit (lit "Salut") None None]) = true)
    by (vm_compute; reflexivity).
  split; [exact H1|].
  refine (eq_trans (X16_clear_keeps_the_pending_request (fun _ => true) (fun l => l)
                      _ (Body (sseTextResponse (lit "Bonjour"))) H1) _).
  vm_compute. reflexivity.
Defined.

(* ------------------------------------------------------------------ *)
(** ** The body of the request read back by the worker *)

Lemma JSON_stringify_message_shape (m : ChatMessage) (rest : jsstring) :
  JSON_stringify_message m ++ rest
  = [0x7B; 0x22; 0x72; 0x6F; 0x6C; 0x65; 0x22; 0x3A; 0x22]
    ++ roleName (role m)
    ++ [0x22; 0x2C; 0x22; 0x63; 0x6F; 0x6E; 0x74; 0x65; 0x6E; 0x74; 0x22; 0x3A; 0x22]
    ++ quoteBody (content m) ++ 0x22 :: 0x7D :: rest.
Proof.
  unfold JSON_stringify_message, QuoteJSONString.
  change (lit "role") with [0x72; 0x6F; 0x6C; 0x65].
  change (lit "content") with [0x63; 0x6F; 0x6E; 0x74; 0x65; 0x6E; 0x74].
  assert (Hr : quoteBody (roleName (role m)) = roleName (role m))
    by (destruct (role m); reflexivity).
  rewrite Hr. cbn [app]. rewrite <- !app_assoc. cbn [app].
  rewrite <- !app_assoc. reflexivity.
Qed.

Lemma parseValue_message (fuel : nat) (m : ChatMessage) (rest : jsstring) :
  Forall isCodeUnit (content m) ->
  parseValue (4 + fuel) (JSON_stringify_message m ++ rest)
  = Some (jsonOfMessage m, rest).
Proof.
  intros H. rewrite JSON_stringify_message_shape.
  pose proof (parseStringBody_quoted (content m) (0x7D :: rest) H) as Hq.
  remember (quoteBody (content m) ++ 0x22 :: 0x7D :: rest) as q eqn:Eq. clear Eq.
  unfold jsonOfMessage.
  destruct (role m); cbn [roleName app plus]; simpl; rewrite Hq; simpl; reflexivity.
Qed.

Lemma parseElements_messages (ms : list ChatMessage) :
  forall (m : ChatMessage) (fuel : nat) (acc : list json) (rest : jsstring),
  Forall (fun x => Forall isCodeUnit (content x)) (m :: ms) ->
  parseElements (5 + List.length ms + fuel)
    (join [0x2C] (List.map JSON_stringify_message (m :: ms)) ++ 0x5D :: rest) acc
  = Some (JArray (rev acc ++ List.map jsonOfMessage (m :: ms)), rest).
Proof.
  induction ms as [|m2 ms IH]; intros m fuel acc rest H.
  - inversion H as [|? ? Hm _]; subst.
    cbn [List.map join List.length plus].
    change (parseElements (S (S (S (S (S fuel))))) (JSON_stringify_message m ++ 0x5D :: rest) acc)
      with (match parseValue (4 + fuel) (JSON_stringify_message m ++ 0x5D :: rest) with
            | Some (v, after) =>
                match skipWs after with
                | c :: rest' =>
                    if c =? 0x2C then parseElements (4 + fuel) rest' (v :: acc)
                    else if c =? 0x5D then Some (JArray (rev (v :: acc)), rest')
                    else None
                | [] => None
                end
            | None => None
            end).
    rewrite (parseValue_message fuel m _ Hm). reflexivity.
  - inversion H as [|? ? Hm Hms]; subst.
    change (join [0x2C] (List.map JSON_stringify_message (m :: m2 :: ms)))
      with (JSON_stringify_message m
            ++ 0x2C :: join [0x2C] (List.map JSON_stringify_message (m2 :: ms))).
    rewrite <- app_assoc. cbn [List.length plus].
    change (parseElements (S (S (S (S (S (S (List.length ms + fuel)))))))
              (JSON_stringify_message m
               ++ (0x2C :: join [0x2C] (List.map JSON_stringify_message (m2 :: ms)))
               ++ 0x5D :: rest) acc)
      with (match parseValue (4 + (1 + List.length ms + fuel))
                    (JSON_stringify_message m
                     ++ (0x2C :: join [0x2C] (List.map JSON_stringify_message (m2 :: ms)))
                     ++ 0x5D :: rest) with
            | Some (v, after) =>
                match skipWs after with
                | c :: rest' =>
                    if c =? 0x2C
                    then parseElements (5 + List.length ms + fuel) rest' (v :: acc)
                    else if c =? 0x5D then Some (JArray (rev (v :: acc)), rest')
                    else None
                | [] => None
                end
            | None => None
            end).
    rewrite (parseValue_message _ m _ Hm).
    cbn [app]. change (skipWs (0x2C :: ?x)) with (0x2C :: x). cbn [Z.eqb Pos.eqb].
    change (0x2C =? 0x2C) with true. cbv iota.
    rewrite (IH m2 fuel (jsonOfMessage m :: acc) rest Hms).
    cbn [rev List.map]. now rewrite <- app_assoc.
Qed.
Lemma parseValue_S (fuel : nat) (s : jsstring) :
  parseValue (S fuel) s
  =
    match skipWs s with
    | [] => None
    | c :: rest =>
        if c =? 0x7B then
          match skipWs rest with
          | c2 :: rest2 =>
              if c2 =? 0x7D then Some (JObject [], rest2)
              else parseMembers fuel rest []
          | [] => None
          end
        else if c =? 0x5B then
          match skipWs rest with
          | c2 :: rest2 =>
              if c2 =? 0x5D then Some (JArray [], rest2)
              else parseElements fuel rest []
          | [] => None
          end
        else if c =? 0x22 then
          match parseStringBody rest with
          | Some (str, after) => Some (JString str, after)
          | None => None
          end
        else if startsWith (c :: rest) (lit "true") then Some (JBool true, skipn 4 (c :: rest))
        else if startsWith (c :: rest) (lit "false") then Some (JBool false, skipn 5 (c :: rest))
        else if startsWith (c :: rest) (lit "null") then Some (JNull, skipn 4 (c :: rest))
        else
          match parseNumber (c :: rest) with
          | Some (lexeme, after) => Some (JNumber lexeme, after)
          | None => None
          end
    end.
Proof. reflexivity. Qed.

Lemma parseElements_S (fuel : nat) (s : jsstring) (acc : list json) :
  parseElements (S fuel) s acc
  =
    match parseValue fuel s with
    | Some (v, after) =>
        match skipWs after with
        | c :: rest =>
            if c =? 0x2C then parseElements fuel rest (v :: acc)
            else if c =? 0x5D then Some (JArray (rev (v :: acc)), rest)
            else None
        | [] => None
        end
    | None => None
    end.
Proof. reflexivity. Qed.

Lemma parseMembers_S (fuel : nat) (s : jsstring) (acc : list (jsstring * json)) :
  parseMembers (S fuel) s acc
  =
    match skipWs s with
    | q :: r =>
        if q =? 0x22 then
          match parseStringBody r with
          | Some (key, r1) =>
              match skipWs r1 with
              | c :: r2 =>
                  if c =? 0x3A then
                    match parseValue fuel r2 with
                    | Some (v, r3) =>
                        match skipWs r3 with
                        | c' :: r4 =>
                            if c' =? 0x2C then parseMembers fuel r4 ((key, v) :: acc)
                            else if c' =? 0x7D then Some (JObject (rev ((key, v) :: acc)), r4)
                            else None
                        | [] => None
                        end
                    | None => None
                    end
                  else None
              | [] => None
              end
          | None => None
          end
        else None
    | [] => None
    end.
Proof. reflexivity. Qed.

Lemma parseValue_string (fuel : nat) (text after : jsstring) :
  Forall isCodeUnit text ->
  parseValue (S fuel) (0x22 :: quoteBody text ++ 0x22 :: after) = Some (JString text, after).
Proof.
  intros H. rewrite parseValue_S.
  change (skipWs (0x22 :: ?x)) with (0x22 :: x). cbv iota.
  change (0x22 =? 0x7B) with false. change (0x22 =? 0x5B) with false.
  change (0x22 =? 0x22) with true. cbv iota.
  now rewrite (parseStringBody_quoted text after H).
Qed.

(** One member of an object: its key, a colon, a value, and a character
    that is no white space behind it. *)
Lemma parseMembers_member (fuel : nat) (key value : jsstring) (v : json)
    (c : Z) (rest : jsstring) (acc : list (jsstring * json)) :
  Forall isCodeUnit key ->
  parseValue fuel value = Some (v, c :: rest) ->
  isJsonWs c = false ->
  parseMembers (S fuel) (0x22 :: quoteBody key ++ 0x22 :: 0x3A :: value) acc
  = if c =? 0x2C then parseMembers fuel rest ((key, v) :: acc)
    else if c =? 0x7D then Some (JObject (rev ((key, v) :: acc)), rest)
    else None.
Proof.
  intros Hk Hv Hc. rewrite parseMembers_S.
  change (skipWs (0x22 :: ?x)) with (0x22 :: x). cbv iota.
  change (0x22 =? 0x22) with true. cbv iota.
  rewrite (parseStringBody_quoted key _ Hk).
  change (skipWs (0x3A :: ?x)) with (0x3A :: x). cbv iota.
  change (0x3A =? 0x3A) with true. cbv iota.
  rewrite Hv. unfold skipWs. cbn [dropWhile]. rewrite Hc. reflexivity.
Qed.

Lemma quoteBody_ascii (s : string) :
  forallb (fun c => (0x20 <=? c) && (c <? 0x7F) && negb (c =? 0x22) && negb (c =? 0x5C))
    (lit s) = true ->
  quoteBody (lit s) = lit s /\ Forall isCodeUnit (lit s).
Proof.
  generalize (lit s). intros l H. induction l as [|c l IH]; [split; [reflexivity|constructor]|].
  cbn [forallb] in H. apply andb_prop in H as [Hc Hl].
  destruct (IH Hl) as [IH1 IH2].
  apply andb_prop in Hc as [Hc H5]. apply andb_prop in Hc as [Hc H4].
  apply andb_prop in Hc as [H1 H2].
  apply Z.leb_le in H1. apply Z.ltb_lt in H2.
  apply negb_true_iff in H4, H5. apply Z.eqb_neq in H4, H5.
  split.
  - cbn [quoteBody]. unfold isHighSurrogate, isLowSurrogate.
    replace (0xD800 <=? c) with false by (symmetry; apply Z.leb_gt; lia).
    replace (0xDC00 <=? c) with false by (symmetry; apply Z.leb_gt; lia).
    cbn [andb]. unfold quoteUnit.
    repeat match goal with
           | |- context [c =? ?k] =>
               replace (c =? k) with false by (symmetry; apply Z.eqb_neq; lia)
           end.
    replace (c <? 0x20) with false by (symmetry; apply Z.ltb_ge; lia).
    cbn [app]. now rewrite IH1.
  - constructor; [unfold isCodeUnit; lia|exact IH2].
Qed.

Lemma JSON_stringify_casus_properties (c : CasusProfile) :
  JSON_stringify_casus c
  = [0x7B] ++ join [0x2C] (List.map propertyText (propertiesOf c)) ++ [0x7D].
Proof.
  unfold JSON_stringify_casus, propertiesOf, JSON_stringify_property.
  destruct (mode c), (univers c), (style c); reflexivity.
Qed.

Lemma propertyText_shape (p : jsstring * jsstring) (rest : jsstring) :
  propertyText p ++ rest
  = 0x22 :: quoteBody (fst p) ++ 0x22 :: 0x3A :: 0x22 :: quoteBody (snd p) ++ 0x22 :: rest.
Proof.
  unfold propertyText, QuoteJSONString. cbn [app]. rewrite <- !app_assoc. cbn [app].
  rewrite <- !app_assoc. reflexivity.
Qed.

Lemma parseMembers_properties (ps : list (jsstring * jsstring)) :
  forall (p : jsstring * jsstring) (fuel : nat) (acc : list (jsstring * json))
         (rest : jsstring),
  Forall (fun x => Forall isCodeUnit (fst x) /\ Forall isCodeUnit (snd x)) (p :: ps) ->
  parseMembers (2 + List.length ps + fuel)
    (join [0x2C] (List.map propertyText (p :: ps)) ++ 0x7D :: rest) acc
  = Some (JObject (rev acc ++ List.map jsonOfProperty (p :: ps)), rest).
Proof.
  induction ps as [|p2 ps IH]; intros p fuel acc rest H.
  - inversion H as [|? ? [Hk Hv] _]; subst.
    cbn [List.map join List.length plus]. rewrite propertyText_shape.
    rewrite (parseMembers_member _ (fst p) _ (JString (snd p)) 0x7D rest acc Hk
               (parseValue_string fuel (snd p) (0x7D :: rest) Hv) eq_refl).
    reflexivity.
  - inversion H as [|? ? [Hk Hv] Hps]; subst.
    change (join [0x2C] (List.map propertyText (p :: p2 :: ps)))
      with (propertyText p ++ 0x2C :: join [0x2C] (List.map propertyText (p2 :: ps))).
    rewrite <- app_assoc, propertyText_shape. cbn [List.length plus app].
    rewrite (parseMembers_member _ (fst p) _ (JString (snd p)) 0x2C
               (join [0x2C] (List.map propertyText (p2 :: ps)) ++ 0x7D :: rest) acc Hk
               (parseValue_string _ (snd p) _ Hv) eq_refl).
    change (0x2C =? 0x2C) with true. cbv iota.
    pose proof (IH p2 fuel (jsonOfProperty p :: acc) rest Hps) as HI.
    cbn [plus rev] in HI. rewrite <- app_assoc in HI. exact HI.
Qed.

Lemma parseValue_casus (fuel : nat) (c : CasusProfile) (rest : jsstring) :
  Forall (fun x => Forall isCodeUnit (fst x) /\ Forall isCodeUnit (snd x)) (propertiesOf c) ->
  parseValue (6 + fuel) (JSON_stringify_casus c ++ rest)
  = Some (JObject (List.map jsonOfProperty (propertiesOf c)), rest).
Proof.
  intros H. rewrite JSON_stringify_casus_properties.
  destruct (propertiesOf c) as [|p ps] eqn:E.
  - reflexivity.
  - assert (Hl : (List.length ps <= 2)%nat).
    { assert (Hlen : (List.length (propertiesOf c) <= 3)%nat).
      { unfold propertiesOf. destruct (mode c), (univers c), (style c); cbn; lia. }
      rewrite E in Hlen. cbn [List.length] in Hlen. lia. }
    rewrite <- !app_assoc. cbn [app plus]. rewrite parseValue_S.
    change (skipWs (0x7B :: ?x)) with (0x7B :: x). cbv iota.
    change (0x7B =? 0x7B) with true. cbv iota.
    assert (Hhead : exists t,
               join [0x2C] (List.map propertyText (p :: ps)) ++ 0x7D :: rest = 0x22 :: t).
    { destruct ps; cbn [List.map join]; rewrite ?propertyText_shape; cbn [app];
        eexists; reflexivity. }
    destruct Hhead as (t & Hhead).
    replace (skipWs (join [0x2C] (List.map propertyText (p :: ps)) ++ 0x7D :: rest))
      with (0x22 :: t) by (rewrite Hhead; reflexivity).
    cbv iota. change (0x22 =? 0x7D) with false. cbv iota.
    replace (S (S (S (S (S fuel))))) with (2 + List.length ps + (3 - List.length ps + fuel))%nat
      by lia.
    rewrite (parseMembers_properties ps p _ [] rest H). reflexivity.
Qed.

Lemma parseValue_messages (fuel : nat) (ms : list ChatMessage) (rest : jsstring) :
  Forall (fun x => Forall isCodeUnit (content x)) ms ->
  parseValue (6 + List.length ms + fuel)
    (0x5B :: join [0x2C] (List.map JSON_stringify_message ms) ++ 0x5D :: rest)
  = Some (JArray (List.map jsonOfMessage ms), rest).
Proof.
  intros H. destruct ms as [|m ms]; [reflexivity|].
  cbn [List.length plus]. rewrite parseValue_S.
  change (skipWs (0x5B :: ?x)) with (0x5B :: x). cbv iota.
  change (0x5B =? 0x7B) with false. change (0x5B =? 0x5B) with true. cbv iota.
  assert (Hhead : exists t,
             join [0x2C] (List.map JSON_stringify_message (m :: ms)) ++ 0x5D :: rest
             = 0x7B :: t).
  { destruct ms; cbn [List.map join]; rewrite ?JSON_stringify_message_shape; cbn [app];
      eexists; reflexivity. }
  destruct Hhead as (t & Hhead).
  replace (skipWs (join [0x2C] (List.map JSON_stringify_message (m :: ms)) ++ 0x5D :: rest))
    with (0x7B :: t) by (rewrite Hhead; reflexivity).
  cbv iota. change (0x7B =? 0x5D) with false. cbv iota.
  replace (S (S (S (S (S (S (List.length ms + fuel)))))))
    with (5 + List.length ms + (1 + fuel))%nat by lia.
  rewrite (parseElements_messages ms m _ [] rest H). reflexivity.
Qed.

Lemma readMessages_jsonOfMessage (ms : list ChatMessage) :
  readMessages (List.map jsonOfMessage ms) = Some ms.
Proof.
  induction ms as [|[r c] ms IH]; [reflexivity|].
  cbn [List.map readMessages]. rewrite IH. destruct r; reflexivity.
Qed.

Lemma readCasus_properties (c : CasusProfile) :
  readCasus (Some (JObject (List.map jsonOfProperty (propertiesOf c)))) = Some (Some c).
Proof. destruct c as [[m|] [u|] [s|]]; reflexivity. Qed.

Lemma JSON_stringify_request_shape (r : ChatRequest) :
  JSON_stringify_request r
  = 0x7B :: 0x22 :: quoteBody (lit "messages") ++ 0x22 :: 0x3A
    :: (0x5B :: join [0x2C] (List.map JSON_stringify_message (req_messages r))
        ++ 0x5D :: 0x2C :: 0x22 :: quoteBody (lit "casus") ++ 0x22 :: 0x3A
        :: (JSON_stringify_casus (req_casus r) ++ [0x7D])).
Proof.
  reflexivity.
Qed.

Lemma join_messages_length (ms : list ChatMessage) :
  (List.length ms <= List.length (join [0x2C%Z] (List.map JSON_stringify_message ms)))%nat.
Proof.
  induction ms as [|m ms IH]; [cbn; lia|].
  destruct ms as [|m2 ms].
  - cbn [List.map join List.length]. rewrite <- (app_nil_r (JSON_stringify_message m)).
    rewrite JSON_stringify_message_shape. cbn [List.length app]. lia.
  - change (join [0x2C] (List.map JSON_stringify_message (m :: m2 :: ms)))
      with (JSON_stringify_message m
            ++ 0x2C :: join [0x2C] (List.map JSON_stringify_message (m2 :: ms))).
    rewrite length_app. cbn [List.length] in *. lia.
Qed.

Lemma JSON_parse_request (r : ChatRequest) :
  Forall (fun x => Forall isCodeUnit (content x)) (req_messages r) ->
  Forall (fun x => Forall isCodeUnit (fst x) /\ Forall isCodeUnit (snd x))
    (propertiesOf (req_casus r)) ->
  JSON_parse (JSON_stringify_request r) = Some (jsonOfRequest r).
Proof.
  intros Hm Hc. unfold JSON_parse.
  assert (Hlen : exists f,
             (2 * List.length (JSON_stringify_request r) + 2
              = 9 + List.length (req_messages r) + f)%nat).
  { exists (2 * List.length (JSON_stringify_request r) + 2
            - (9 + List.length (req_messages r)))%nat.
    pose proof (join_messages_length (req_messages r)) as Hj.
    rewrite JSON_stringify_request_shape. cbn [List.length].
    rewrite !length_app. cbn [List.length]. rewrite !length_app. lia. }
  destruct Hlen as (f & ->).
  rewrite JSON_stringify_request_shape. cbn [plus]. rewrite parseValue_S.
  change (skipWs (0x7B :: ?x)) with (0x7B :: x). cbv iota.
  change (0x7B =? 0x7B) with true. cbv iota.
  change (skipWs (0x22 :: ?x)) with (0x22 :: x). cbv iota.
  change (0x22 =? 0x7D) with false. cbv iota.
  assert (Hkm : Forall isCodeUnit (lit "messages"))
    by (apply isCodeUnit_forallb; reflexivity).
  assert (Hkc : Forall isCodeUnit (lit "casus"))
    by (apply isCodeUnit_forallb; reflexivity).
  rewrite (parseMembers_member _ (lit "messages") _
             (JArray (List.map jsonOfMessage (req_messages r))) 0x2C
             (0x22 :: quoteBody (lit "casus") ++ 0x22 :: 0x3A
              :: (JSON_stringify_casus (req_casus r) ++ [0x7D])) [] Hkm).
  2:{ replace (S (S (S (S (S (S (S (List.length (req_messages r) + f))))))))
        with (6 + List.length (req_messages r) + (1 + f))%nat by lia.
      apply parseValue_messages. exact Hm. }
  2:{ reflexivity. }
  change (0x2C =? 0x2C) with true. cbv iota.
  rewrite (parseMembers_member _ (lit "casus") _
             (JObject (List.map jsonOfProperty (propertiesOf (req_casus r)))) 0x7D []
             _ Hkc).
  2:{ replace (S (S (S (S (S (S (List.length (req_messages r) + f)))))))
        with (6 + (List.length (req_messages r) + f))%nat by lia.
      apply parseValue_casus. exact Hc. }
  2:{ reflexivity. }
  reflexivity.
Qed.

Lemma readBody_jsonOfRequest (r : ChatRequest) :
  readBody (jsonOfRequest r) = Some (req_messages r, Some (req_casus r)).
Proof.
  unfold jsonOfRequest, readBody.
  set (members := [(lit "messages", JArray (List.map jsonOfMessage (req_messages r)));
                   (lit "casus",
                    JObject (List.map jsonOfProperty (propertiesOf (req_casus r))))]).
  assert (H1 : lookupLast (lit "messages") members
               = Some (JArray (List.map jsonOfMessage (req_messages r)))) by reflexivity.
  assert (H2 : lookupLast (lit "casus") members
               = Some (JObject (List.map jsonOfProperty (propertiesOf (req_casus r)))))
    by reflexivity.
  rewrite H1, H2. cbv zeta.
  now rewrite readMessages_jsonOfMessage, readCasus_properties.
Qed.

Lemma WellFormed_quoted (text t : jsstring) :
  Forall isCodeUnit text -> WellFormed t -> WellFormed (quoteBody text ++ t).
Proof. intros H. destruct (quotes_quoteBody text H) as (_ & _ & Hw). exact (Hw t). Qed.

Ltac ascii_head := repeat (apply plain_WellFormed; [apply ascii_plainUnit; lia|]).

Lemma WellFormed_message (m : ChatMessage) (t : jsstring) :
  Forall isCodeUnit (content m) -> WellFormed t ->
  WellFormed (JSON_stringify_message m ++ t).
Proof.
  intros H Ht. rewrite JSON_stringify_message_shape.
  assert (Hr : forall u, WellFormed u -> WellFormed (roleName (role m) ++ u)).
  { intros u Hu. destruct (role m); vm_compute (roleName _); cbn [app]; ascii_head;
      exact Hu. }
  cbn [app]. ascii_head. apply Hr. ascii_head.
  apply WellFormed_quoted; [exact H|]. ascii_head. exact Ht.
Qed.

Lemma WellFormed_messages (ms : list ChatMessage) (t : jsstring) :
  Forall (fun x => Forall isCodeUnit (content x)) ms -> WellFormed t ->
  WellFormed (join [0x2C] (List.map JSON_stringify_message ms) ++ t).
Proof.
  intros H Ht. induction H as [|m ms Hm Hms IH]; [exact Ht|].
  destruct ms as [|m2 ms].
  - cbn [List.map join]. now apply WellFormed_message.
  - change (join [0x2C] (List.map JSON_stringify_message (m :: m2 :: ms)))
      with (JSON_stringify_message m
            ++ 0x2C :: join [0x2C] (List.map JSON_stringify_message (m2 :: ms))).
    rewrite <- app_assoc. apply WellFormed_message; [exact Hm|].
    cbn [app]. ascii_head. exact IH.
Qed.

Lemma WellFormed_properties (ps : list (jsstring * jsstring)) (t : jsstring) :
  Forall (fun x => Forall isCodeUnit (fst x) /\ Forall isCodeUnit (snd x)) ps ->
  WellFormed t ->
  WellFormed (join [0x2C] (List.map propertyText ps) ++ t).
Proof.
  intros H Ht. induction H as [|p ps [Hk Hv] Hps IH]; [exact Ht|].
  assert (Hp : forall u, WellFormed u -> WellFormed (propertyText p ++ u)).
  { intros u Hu. rewrite propertyText_shape. ascii_head.
    apply WellFormed_quoted; [exact Hk|]. ascii_head.
    apply WellFormed_quoted; [exact Hv|]. ascii_head. exact Hu. }
  destruct ps as [|p2 ps].
  - cbn [List.map join]. now apply Hp.
  - change (join [0x2C] (List.map propertyText (p :: p2 :: ps)))
      with (propertyText p ++ 0x2C :: join [0x2C] (List.map propertyText (p2 :: ps))).
    rewrite <- app_assoc. apply Hp. cbn [app]. ascii_head. exact IH.
Qed.

Lemma requestTexts_codeUnits (r : ChatRequest) :
  Forall (Forall isCodeUnit) (requestTexts r) ->
  Forall (fun x => Forall isCodeUnit (content x)) (req_messages r)
  /\ Forall (fun x => Forall isCodeUnit (fst x) /\ Forall isCodeUnit (snd x))
       (propertiesOf (req_casus r)).
Proof.
  unfold requestTexts, propertiesOf. intros H.
  apply Forall_app in H as [Hm H]. apply Forall_app in H as [H1 H].
  apply Forall_app in H as [H2 H3]. split.
  - rewrite Forall_forall in *. intros x Hx. apply Hm. now apply in_map.
  - apply Forall_app; split.
    + destruct (mode (req_casus r)); [|constructor].
      inversion H1; subst. constructor; [|constructor].
      split; [apply isCodeUnit_forallb; reflexivity|assumption].
    + apply Forall_app; split.
      * destruct (univers (req_casus r)); [|constructor].
        inversion H2; subst. constructor; [|constructor].
        split; [apply isCodeUnit_forallb; reflexivity|assumption].
      * destruct (style (req_casus r)); [|constructor].
        inversion H3; subst. constructor; [|constructor].
        split; [apply isCodeUnit_forallb; reflexivity|assumption].
Qed.

(** X17.  The body of the request, from the page to the worker.  Whatever
    the messages and the profile of a request, the UTF-8 bytes of the JSON
    text [sendMessage] posts decode to that very text in the worker, the
    text parses, and the worker finds in the parsed body the message list
    and the profile of the page, unchanged: same roles, same contents (line
    breaks, quotes, lone surrogates and all), a profile field absent exactly
    when the page left it out. *)
Theorem X17_request_body_round_trip (request : ChatRequest) :
  Forall (Forall isCodeUnit) (requestTexts request) ->
  let body := JSON_stringify_request request in
  let received :=
    snd (TextDecoder_decode_stream TextDecoder_new (TextEncoder_encode body)) in
  received = body
  /\ exists parsed,
       JSON_parse received = Some parsed
       /\ readBody parsed = Some (req_messages request, Some (req_casus request)).
Proof.
  intros H body received.
  destruct (requestTexts_codeUnits request H) as [Hm Hc].
  assert (Hr : received = body).
  { subst received. apply (decode_whole body 0x7B (tl body)); [reflexivity|discriminate|].
    subst body. rewrite JSON_stringify_request_shape, JSON_stringify_casus_properties.
    change (quoteBody (lit "messages"))
      with [0x6D; 0x65; 0x73; 0x73; 0x61; 0x67; 0x65; 0x73].
    change (quoteBody (lit "casus")) with [0x63; 0x61; 0x73; 0x75; 0x73].
    cbn [app]. ascii_head.
    apply WellFormed_messages; [exact Hm|]. ascii_head.
    rewrite <- app_assoc. apply WellFormed_properties; [exact Hc|].
    ascii_head. constructor. }
  split; [exact Hr|]. rewrite Hr. exists (jsonOfRequest request). split.
  - now apply JSON_parse_request.
  - apply readBody_jsonOfRequest.
Qed.

(** X17 at a history of two messages, the second with a line break, a
    quote and a lone surrogate, the universe given. *)
Lemma X17_witness_two_messages :
  let request :=
    mkChatRequest
      [mkChatMessage assistant (lit "Salut, je suis Casus.");
       mkChatMessage user (lit "dé 🎲" ++ [0x0A; 0x22; 0xD800])]
      (buildCasusProfile (Some (lit "joueur")) (Some (lit " Terres du Milieu "))) in
  Forall (Forall isCodeUnit) (requestTexts request)
  /\ exists parsed,
       JSON_parse
         (snd (TextDecoder_decode_stream TextDecoder_new
                 (TextEncoder_encode (JSON_stringify_request request))))
       = Some parsed
       /\ readBody parsed = Some (req_messages request, Some (req_casus request)).
Proof.
  cbv zeta.
  assert (H : Forall (Forall isCodeUnit)
                (requestTexts
                   (mkChatRequest
                      [mkChatMessage assistant (lit "Salut, je suis Casus.");
                       mkChatMessage user (lit "dé 🎲" ++ [0x0A; 0x22; 0xD800])]
                      (buildCasusProfile (Some (lit "joueur"))
                         (Some (lit " Terres du Milieu ")))))).
  { repeat (constructor; [apply isCodeUnit_forallb; vm_compute; reflexivity|]).
    constructor. }
  split; [exact H|].
  exact (proj2 (X17_request_body_round_trip _ H)).
Defined.

(* ------------------------------------------------------------------ *)
(** ** Payloads that add nothing *)

Section SkippedPayloads.

Variable numberIsTruthy : jsstring -> bool.
Variable numberToString : jsstring -> jsstring.

(** X18.  Payloads that add nothing, and do not stop the reading.  A
    payload that is not JSON (the exception of [JSON.parse] is caught), the
    payload [null] (the exception of the property access is caught), any
    other payload that is not an object, and an object with no [choices]
    whose [response] is not a string or is empty: none adds anything to the
    response text, and the events before and after it are handled as if it
    were not there. *)
Theorem X18_payloads_that_add_nothing (data : jsstring) (shown : jsstring)
    (before after : list jsstring) :
  data <> DONE ->
  (JSON_parse data = None
   \/ exists v,
        JSON_parse data = Some v
        /\ match v with
           | JObject members =>
               lookupLast (lit "choices") members = None
               /\ forall c s, lookupLast (lit "response") members <> Some (JString (c :: s))
           | _ => True
           end) ->
  payloadContent numberIsTruthy numberToString data = None
  /\ processEvents numberIsTruthy numberToString shown (before ++ data :: after)
     = processEvents numberIsTruthy numberToString shown (before ++ after).
Proof.
  intros Hd Hp.
  assert (Hc : payloadContent numberIsTruthy numberToString data = None).
  { unfold payloadContent. destruct Hp as [-> |(v & -> & Hv)]; [reflexivity|].
    destruct v as [|b|n|s|items|members]; try reflexivity.
    destruct Hv as [Hch Hr]. cbn [getMember]. rewrite Hch.
    destruct (lookupLast (lit "response") members) as [[|b|n|[|c s]|items|ms]|] eqn:E;
      try reflexivity.
    exfalso. exact (Hr c s eq_refl). }
  split; [exact Hc|].
  rewrite !processEvents_app.
  destruct (processEvents numberIsTruthy numberToString shown before) as [rt1 done1].
  destruct done1; [reflexivity|].
  cbn [processEvents]. rewrite Hc.
  replace (str_eqb data DONE) with false; [reflexivity|].
  symmetry. now apply str_eqb_neq.
Qed.

End SkippedPayloads.

(** X18 at a stream where [null], a text that is not JSON and an array
    stand between two payloads. *)
Lemma X18_witness_null_payload :
  lit "null" <> DONE
  /\ processEvents (fun _ => true) (fun l => l) []
       ([JSON_stringify_response (lit "a")] ++ lit "null"
        :: [lit "{oops"; lit "[1,2]"; JSON_stringify_response (lit "b"); DONE])
     = (lit "ab", true).
Proof.
  assert (H1 : lit "null" <> DONE) by discriminate.
  split; [exact H1|].
  refine (eq_trans
            (proj2 (X18_payloads_that_add_nothing (fun _ => true) (fun l => l)
                      (lit "null") [] [JSON_stringify_response (lit "a")]
                      [lit "{oops"; lit "[1,2]"; JSON_stringify_response (lit "b"); DONE]
                      H1 _)) _).
  - right. exists JNull. split; [reflexivity|exact I].
  - vm_compute. reflexivity.
Defined.
